(** * HL7 data-quality analyzer: a shallow embedding of
      [src/hl7DataQualityService.js] and the properties of its report.

    The JavaScript service validates an HL7 v2 message with the external
    [hl7-parser] package, parses it, runs ten checks over the parsed
    message and folds their results into one report.  Everything below
    follows the service function by function.

    Conventions of the embedding.
    - A JavaScript string is a [string]: a sequence of code units, here
      the code units below 256.
    - A property that may be missing is an [option]; [None] is
      [undefined].
    - Scores and penalties are small integers, exact as [Z].
    - [throw] is the [Err] branch of [Exc]; the mutable locals of
      [analyzeDataQuality] are an explicit state, so that the handler of
      its [try] sees what the body had pushed when it threw. *)

From Stdlib Require Import ZArith String Ascii List Bool Lia DecimalString.
From stdpp Require Import gmap strings.

Import ListNotations.
Local Open Scope string_scope.
Local Open Scope Z_scope.

(** ** JavaScript strings *)

Module JsString.

(** Truthiness of a value that is a string or [undefined]:
    [undefined] and [''] are falsy. *)
Definition truthy (v : option string) : bool :=
  match v with
  | None => false
  | Some s => negb (String.eqb s "")
  end.

(** [s.includes(sub)] *)
Fixpoint includes (sub s : string) : bool :=
  if String.prefix sub s then true
  else match s with
       | EmptyString => false
       | String _ s' => includes sub s'
       end.

Fixpoint drop (n : nat) (s : string) : string :=
  match n, s with
  | O, _ => s
  | S n', EmptyString => EmptyString
  | S n', String _ s' => drop n' s'
  end.

(** [s.replace(pat, rep)] for a string pattern: the first occurrence
    only. *)
Fixpoint replace (pat rep s : string) : string :=
  if String.prefix pat s then rep ++ drop (String.length pat) s
  else match s with
       | EmptyString => EmptyString
       | String c s' => String c (replace pat rep s')
       end.

(** [s.substring(0, n)] *)
Definition substring0 (n : nat) (s : string) : string :=
  String.substring 0 n s.

(** [parts.join(sep)] *)
Definition join (sep : string) (parts : list string) : string :=
  String.concat sep parts.

(** [s.split(sep)] for a one-character separator. *)
Fixpoint split (sep : ascii) (s : string) : list string :=
  match s with
  | EmptyString => [EmptyString]
  | String c s' =>
      if Ascii.eqb c sep then EmptyString :: split sep s'
      else match split sep s' with
           | [] => [String c EmptyString]
           | p :: ps => String c p :: ps
           end
  end.

(** [list.includes(x)] on an array of strings *)
Definition array_includes (x : string) (l : list string) : bool :=
  existsb (String.eqb x) l.

End JsString.

(** ** Regular expressions

    The patterns of the service use character classes, sequence,
    optional groups and bounded repetition only, so [RegExp.test] is
    membership in a regular language; it is decided with derivatives. *)

Module Regex.

Inductive regex : Type :=
| Void
| Eps
| Class (p : ascii -> bool)
| Seq (r1 r2 : regex)
| Alt (r1 r2 : regex)
| Star (r : regex).

Fixpoint nullable (r : regex) : bool :=
  match r with
  | Void => false
  | Eps => true
  | Class _ => false
  | Seq r1 r2 => nullable r1 && nullable r2
  | Alt r1 r2 => nullable r1 || nullable r2
  | Star _ => true
  end.

Fixpoint deriv (c : ascii) (r : regex) : regex :=
  match r with
  | Void => Void
  | Eps => Void
  | Class p => if p c then Eps else Void
  | Seq r1 r2 =>
      if nullable r1 then Alt (Seq (deriv c r1) r2) (deriv c r2)
      else Seq (deriv c r1) r2
  | Alt r1 r2 => Alt (deriv c r1) (deriv c r2)
  | Star r1 => Seq (deriv c r1) (Star r1)
  end.

Fixpoint matches (r : regex) (s : string) : bool :=
  match s with
  | EmptyString => nullable r
  | String c s' => matches (deriv c r) s'
  end.

(** [r?] *)
Definition opt (r : regex) : regex := Alt r Eps.

(** [r+] *)
Definition plus (r : regex) : regex := Seq r (Star r).

(** [r{n}] *)
Fixpoint times (n : nat) (r : regex) : regex :=
  match n with
  | O => Eps
  | S n' => Seq r (times n' r)
  end.

(** [r{0,n}] *)
Fixpoint upto (n : nat) (r : regex) : regex :=
  match n with
  | O => Eps
  | S n' => opt (Seq r (upto n' r))
  end.

(** [r{m,n}] with [m <= n] *)
Definition range (m n : nat) (r : regex) : regex :=
  Seq (times m r) (upto (n - m) r).

Definition code (c : ascii) : N := N_of_ascii c.

(** [\d]: the ten ASCII digits. *)
Definition digit (c : ascii) : bool :=
  ((48 <=? code c) && (code c <=? 57))%N.

Definition char (x : ascii) (c : ascii) : bool := Ascii.eqb c x.

(** [\s] on code units below 256: tab, line feed, vertical tab, form
    feed, carriage return, space and the no-break space. *)
Definition space (c : ascii) : bool :=
  ((9 <=? code c) && (code c <=? 13) || (code c =? 32) || (code c =? 160))%N.

Definition any (_ : ascii) : bool := true.

(** [/^r$/.test(s)]: the whole string. *)
Definition test_anchored (r : regex) (s : string) : bool := matches r s.

(** [/r/.test(s)]: some substring. *)
Definition test (r : regex) (s : string) : bool :=
  matches (Seq (Star (Class any)) (Seq r (Star (Class any)))) s.

(** The language of a pattern, for reference. *)
Inductive lang : regex -> string -> Prop :=
| lang_eps : lang Eps EmptyString
| lang_class p c : p c = true -> lang (Class p) (String c EmptyString)
| lang_seq r1 r2 s1 s2 :
    lang r1 s1 -> lang r2 s2 -> lang (Seq r1 r2) (s1 ++ s2)
| lang_alt_l r1 r2 s : lang r1 s -> lang (Alt r1 r2) s
| lang_alt_r r1 r2 s : lang r2 s -> lang (Alt r1 r2) s
| lang_star_nil r : lang (Star r) EmptyString
| lang_star_cons r s1 s2 :
    lang r s1 -> lang (Star r) s2 -> lang (Star r) (s1 ++ s2).

End Regex.

(** ** Dates

    [checkBusinessRules] builds [Date] objects from the first eight
    characters of a field and compares them.  For a day of the calendar
    written [YYYY-MM-DD], ECMAScript fixes the result of [Date.parse]:
    midnight UTC of that day, computed below.  What the engine makes of
    any other string is a parameter of the model. *)

Module JsDate.

Definition msPerDay : Z := 86400000.

Definition DayFromYear (y : Z) : Z :=
  365 * (y - 1970) + (y - 1969) / 4 - (y - 1901) / 100 + (y - 1601) / 400.

Definition InLeapYear (y : Z) : bool :=
  (y mod 4 =? 0) && (negb (y mod 100 =? 0) || (y mod 400 =? 0)).

Definition DaysInMonth (y m : Z) : Z :=
  if m =? 2 then (if InLeapYear y then 29 else 28)
  else if (m =? 4) || (m =? 6) || (m =? 9) || (m =? 11) then 30
  else 31.

(** Days of the year before the first of month [m] (1 to 12). *)
Definition DaysBeforeMonth (y m : Z) : Z :=
  fold_left (fun acc k => acc + DaysInMonth y k)
            (map Z.of_nat (seq 1 (Z.to_nat (m - 1)))) 0.

(** Time value of midnight UTC on the given day. *)
Definition MakeDate (y m d : Z) : Z :=
  (DayFromYear y + DaysBeforeMonth y m + (d - 1)) * msPerDay.

Definition digit_value (c : ascii) : option Z :=
  if Regex.digit c then Some (Z.of_N (Regex.code c) - 48) else None.

(** The number written by a string of decimal digits. *)
Fixpoint digits_value_from (acc : Z) (s : string) : option Z :=
  match s with
  | EmptyString => Some acc
  | String c s' =>
      match digit_value c with
      | Some d => digits_value_from (10 * acc + d) s'
      | None => None
      end
  end.

Definition digits_value (s : string) : option Z :=
  match s with
  | EmptyString => None
  | _ => digits_value_from 0 s
  end.

(** [YYYY-MM-DD] naming a day of the calendar. *)
Definition iso_date (s : string) : option Z :=
  if (String.length s =? 10)%nat
     && String.eqb (String.substring 4 1 s) "-"
     && String.eqb (String.substring 7 1 s) "-"
  then
    match digits_value (String.substring 0 4 s),
          digits_value (String.substring 5 2 s),
          digits_value (String.substring 8 2 s) with
    | Some y, Some m, Some d =>
        if (1 <=? m) && (m <=? 12) && (1 <=? d) && (d <=? DaysInMonth y m)
        then Some (MakeDate y m d)
        else None
    | _, _, _ => None
    end
  else None.

(** What the JavaScript engine adds to the language: the parse of
    a date string that is not a calendar day in the form above
    ([None] is the invalid date, whose time value is [NaN]), and the
    clock behind [new Date().toISOString()]. *)
Class Engine : Type := {
  implementation_parse : string -> option Z;
  now_toISOString : string;
}.

(** [new Date(s)], as its time value. *)
Definition parse `{Engine} (s : string) : option Z :=
  match iso_date s with
  | Some t => Some t
  | None => implementation_parse s
  end.

(** [a < b] on two dates: a comparison with [NaN] is false. *)
Definition lt (a b : option Z) : bool :=
  match a, b with
  | Some x, Some y => x <? y
  | _, _ => false
  end.

(** The first [n] characters of [s] when they are all digits, with the
    rest of [s]. *)
Fixpoint take_digits (n : nat) (s : string) : option (string * string) :=
  match n with
  | O => Some (EmptyString, s)
  | S n' =>
      match s with
      | EmptyString => None
      | String c s' =>
          if Regex.digit c then
            match take_digits n' s' with
            | Some (ds, rest) => Some (String c ds, rest)
            | None => None
            end
          else None
      end
  end.

(** [s.replace(/(\d{4})(\d{2})(\d{2})/, '$1-$2-$3')]: the leftmost run
    of eight digits gets its two dashes. *)
Fixpoint dash_ymd (s : string) : string :=
  match take_digits 8 s with
  | Some (ds, rest) =>
      String.substring 0 4 ds ++ "-" ++ String.substring 4 2 ds ++ "-"
        ++ String.substring 6 2 ds ++ rest
  | None =>
      match s with
      | EmptyString => EmptyString
      | String c s' => String c (dash_ymd s')
      end
  end.

(** [new Date(v.substring(0, 8).replace(...))] *)
Definition of_field `{Engine} (v : string) : option Z :=
  parse (dash_ymd (JsString.substring0 8 v)).

End JsDate.

(** ** Data model *)

(** [QUALITY_CATEGORIES] *)
Inductive Category : Type :=
| COMPLETENESS | ACCURACY | CONSISTENCY | COMPLIANCE | FORMATTING
| BUSINESS_RULES.

Definition QUALITY_CATEGORIES (c : Category) : string :=
  match c with
  | COMPLETENESS => "Completeness"
  | ACCURACY => "Accuracy"
  | CONSISTENCY => "Consistency"
  | COMPLIANCE => "Compliance"
  | FORMATTING => "Formatting"
  | BUSINESS_RULES => "Business Rules"
  end.

(** [SEVERITY] *)
Inductive Severity : Type :=
| CRITICAL | HIGH | MEDIUM | LOW | INFO.

Definition SEVERITY (s : Severity) : string :=
  match s with
  | CRITICAL => "Critical"
  | HIGH => "High"
  | MEDIUM => "Medium"
  | LOW => "Low"
  | INFO => "Info"
  end.

Record Issue : Type := {
  category : Category;
  severity : Severity;
  field : string;
  issue : string;
  details : string;
  recommendation : string;
}.

(** A thrown value, with its [message]. *)
Record JsError : Type := { message : string }.

(** A computation that returns or throws. *)
Inductive Exc (A : Type) : Type :=
| OK (a : A)
| Err (e : JsError).
Arguments OK {A} a.
Arguments Err {A} e.

#[global] Instance Exc_ret : MRet Exc := fun A a => OK a.
#[global] Instance Exc_bind : MBind Exc := fun A B f m =>
  match m with
  | OK a => f a
  | Err e => Err e
  end.

(** [list.forEach] with a body that may throw, threading the locals the
    body updates. *)
Fixpoint forEach {A S : Type} (l : list A) (body : S -> A -> Exc S) (s : S)
  : Exc S :=
  match l with
  | [] => OK s
  | x :: l' =>
      match body s x with
      | OK s' => forEach l' body s'
      | Err e => Err e
      end
  end.

(** The objects of the parser.  A segment carries its field map under
    [parsed]; the keys are [field1], [field2], ... and a missing key
    reads as [undefined].  The checks read [parsed] without a guard, so
    the model keeps the case of a segment object that has none. *)
Module Segment.
Record t : Type := {
  segmentType : string;
  parsed : option (gmap string string);
}.
End Segment.

Module ParsedMessage.
Record t : Type := {
  messageType : option string;
  totalSegments : Z;
  segments : list Segment.t;
}.
End ParsedMessage.

(** The answer of [validateHL7Message]. *)
Module Validation.
Record t : Type := {
  isValid : bool;
  errors : option (list string);
}.
End Validation.

(** The external package [hl7-parser]. *)
Class Hl7Parser : Type := {
  validateHL7Message : string -> Exc Validation.t;
  parseHL7Message : string -> Exc ParsedMessage.t;
}.

(** What a check returns.  Two of the checks return a
    [recommendations] array, the others leave the property out. *)
Module CheckResult.
Record t : Type := {
  issues : list Issue;
  recommendations : option (list string);
  scorePenalty : Z;
}.
End CheckResult.

(** The report of [analyzeDataQuality]; the last three properties are
    present on a completed analysis only. *)
Module Report.
Record t : Type := {
  overallScore : Z;
  issues : list Issue;
  recommendations : list string;
  isValid : bool;
  messageType : option (option string);
  totalSegments : option Z;
  analysisDate : option string;
}.
End Report.

(** ** The checks *)

Import JsString.

(** [segments.find(s => s.segmentType === ty)] *)
Definition find_segment (ty : string) (segs : list Segment.t)
  : option Segment.t :=
  List.find (fun s => String.eqb (Segment.segmentType s) ty) segs.

Definition TypeError (msg : string) : JsError := {| message := msg |}.

(** [o[key]] where [o] is the [parsed] property of a segment: reading a
    property of [undefined] throws. *)
Definition prop (o : option (gmap string string)) (key : string)
  : Exc (option string) :=
  match o with
  | None =>
      Err (TypeError
             ("Cannot read properties of undefined (reading '" ++ key ++ "')"))
  | Some fields => OK (fields !! key)
  end.

(** [v === x] for a string [x] *)
Definition is_str (v : option string) (x : string) : bool :=
  match v with
  | Some s => String.eqb s x
  | None => false
  end.

(** The string of a value known to be truthy. *)
Definition str (v : option string) : string :=
  match v with
  | Some s => s
  | None => ""
  end.

(** [v || dflt] *)
Definition or_else (v : option string) (dflt : string) : string :=
  if truthy v then str v else dflt.

(** The two locals of every check: [issues] and [scorePenalty]. *)
Module Acc.
Record t : Type := {
  issues : list Issue;
  scorePenalty : Z;
}.
Definition empty : t := {| issues := []; scorePenalty := 0 |}.
(** [issues.push(i); scorePenalty += n] *)
Definition push (i : Issue) (n : Z) (a : t) : t :=
  {| issues := issues a ++ [i]; scorePenalty := scorePenalty a + n |}.
(** [return { issues, scorePenalty }] *)
Definition result (a : t) : CheckResult.t :=
  {| CheckResult.issues := issues a;
     CheckResult.recommendations := None;
     CheckResult.scorePenalty := scorePenalty a |}.
(** [return { issues, recommendations, scorePenalty }] with the
    [recommendations] array the check declared and never filled. *)
Definition result_with_recommendations (a : t) : CheckResult.t :=
  {| CheckResult.issues := issues a;
     CheckResult.recommendations := Some [];
     CheckResult.scorePenalty := scorePenalty a |}.
End Acc.

(** [\d] *)
Definition a_digit : Regex.regex := Regex.Class Regex.digit.

(** [[\+\-]] *)
Definition sign : Regex.regex :=
  Regex.Class (fun c => Regex.char "+" c || Regex.char "-" c).

(** [/^\d{14}(\.\d{1,4})?([\+\-]\d{4})?$/] *)
Definition dateTimeRegex : Regex.regex :=
  Regex.Seq (Regex.times 14 a_digit)
    (Regex.Seq
       (Regex.opt
          (Regex.Seq (Regex.Class (Regex.char ".")) (Regex.range 1 4 a_digit)))
       (Regex.opt (Regex.Seq sign (Regex.times 4 a_digit)))).

(** [/^\d{8}(\d{6})?(\d{1,4})?([\+\-]\d{4})?$/], the [dobRegex] of
    [checkPIDCompleteness] and the [dateRegex] of [checkDateFormats]. *)
Definition dateRegex : Regex.regex :=
  Regex.Seq (Regex.times 8 a_digit)
    (Regex.Seq (Regex.opt (Regex.times 6 a_digit))
       (Regex.Seq (Regex.opt (Regex.range 1 4 a_digit))
          (Regex.opt (Regex.Seq sign (Regex.times 4 a_digit))))).

Definition dobRegex : Regex.regex := dateRegex.

Definition dash : Regex.regex := Regex.Class (Regex.char "-").

(** [/^\d{3}-?\d{2}-?\d{4}$/] *)
Definition ssnRegex : Regex.regex :=
  Regex.Seq (Regex.times 3 a_digit)
    (Regex.Seq (Regex.opt dash)
       (Regex.Seq (Regex.times 2 a_digit)
          (Regex.Seq (Regex.opt dash) (Regex.times 4 a_digit)))).

(** [/[\d\-\(\)\s]+/], not anchored. *)
Definition phoneRegex : Regex.regex :=
  Regex.plus
    (Regex.Class
       (fun c => Regex.digit c || Regex.char "-" c || Regex.char "(" c
                 || Regex.char ")" c || Regex.space c)).

Definition missing_MSH_segment : Issue :=
  {| category := COMPLETENESS; severity := CRITICAL; field := "MSH";
     issue := "Missing MSH segment";
     details := "All HL7 messages must start with an MSH segment";
     recommendation := "Add MSH segment as the first segment" |}.

(** The entries of [requiredFields], in insertion order. *)
Definition requiredFields : list (string * string) :=
  [ ("field3", "Sending Application");
    ("field4", "Sending Facility");
    ("field5", "Receiving Application");
    ("field6", "Receiving Facility");
    ("field9", "Message Type");
    ("field10", "Message Control ID");
    ("field12", "Version ID") ].

Definition missing_MSH_field (fld name : string) : Issue :=
  {| category := COMPLETENESS; severity := HIGH;
     field := "MSH-" ++ replace "field" "" fld;
     issue := "Missing " ++ name;
     details := name ++ " is required in MSH segment";
     recommendation :=
       "Populate MSH-" ++ replace "field" "" fld ++ " with appropriate value" |}.

Definition invalid_MSH_datetime : Issue :=
  {| category := FORMATTING; severity := MEDIUM; field := "MSH-7";
     issue := "Invalid Date/Time format";
     details := "Date/Time should be in format YYYYMMDDHHMMSS[.SSSS][+/-ZZZZ]";
     recommendation :=
       "Format date/time as YYYYMMDDHHMMSS (e.g., 20240101120000)" |}.

Definition missing_MSH_datetime : Issue :=
  {| category := COMPLETENESS; severity := HIGH; field := "MSH-7";
     issue := "Missing Date/Time of Message";
     details := "Message timestamp is required";
     recommendation := "Add Date/Time of Message in MSH-7" |}.

Definition checkMSHCompleteness (parsed : ParsedMessage.t)
  : Exc CheckResult.t :=
  match find_segment "MSH" (ParsedMessage.segments parsed) with
  | None =>
      OK {| CheckResult.issues := [missing_MSH_segment];
            CheckResult.recommendations := None;
            CheckResult.scorePenalty := 20 |}
  | Some mshSegment =>
      let msh := Segment.parsed mshSegment in
      acc ← forEach requiredFields
              (fun acc '(fld, name) =>
                 v ← prop msh fld;
                 OK (if negb (truthy v) || is_str v "" || is_str v "Unknown"
                     then Acc.push (missing_MSH_field fld name) 2 acc
                     else acc))
              Acc.empty;
      field7 ← prop msh "field7";
      let acc :=
        if truthy field7 && negb (is_str field7 "Unknown") then
          if negb (Regex.test_anchored dateTimeRegex (str field7))
          then Acc.push invalid_MSH_datetime 1 acc
          else acc
        else Acc.push missing_MSH_datetime 2 acc in
      OK (Acc.result_with_recommendations acc)
  end.

Definition missing_PID_segment : Issue :=
  {| category := COMPLETENESS; severity := CRITICAL; field := "PID";
     issue := "Missing PID segment";
     details := "ADT messages require a PID (Patient Identification) segment";
     recommendation :=
       "Add PID segment with patient identification information" |}.

Definition missing_PV1_segment : Issue :=
  {| category := COMPLETENESS; severity := HIGH; field := "PV1";
     issue := "Missing PV1 segment";
     details := "ADT messages typically require a PV1 (Patient Visit) segment";
     recommendation := "Add PV1 segment with patient visit information" |}.

Definition checkRequiredSegments (parsed : ParsedMessage.t) : CheckResult.t :=
  let messageType := or_else (ParsedMessage.messageType parsed) "" in
  let segmentTypes := map Segment.segmentType (ParsedMessage.segments parsed) in
  let acc := Acc.empty in
  let acc :=
    if includes "ADT" messageType then
      let acc :=
        if negb (array_includes "PID" segmentTypes)
        then Acc.push missing_PID_segment 15 acc
        else acc in
      if negb (array_includes "PV1" segmentTypes)
      then Acc.push missing_PV1_segment 10 acc
      else acc
    else acc in
  Acc.result acc.

(** The double quote of the template strings. *)
Definition quote : string := String "034" EmptyString.

Definition missing_patient_name : Issue :=
  {| category := COMPLETENESS; severity := HIGH; field := "PID-5";
     issue := "Missing Patient Name";
     details := "Patient name is typically required for patient identification";
     recommendation :=
       "Add patient name in PID-5 (format: Last^First^Middle^Suffix)" |}.

Definition missing_patient_identifier : Issue :=
  {| category := COMPLETENESS; severity := HIGH; field := "PID-3";
     issue := "Missing Patient Identifier";
     details := "Patient identifier is required for proper patient matching";
     recommendation := "Add patient identifier list in PID-3" |}.

Definition missing_date_of_birth : Issue :=
  {| category := COMPLETENESS; severity := MEDIUM; field := "PID-7";
     issue := "Missing Date of Birth";
     details :=
       "Date of birth is important for patient identification and age calculation";
     recommendation := "Add date of birth in PID-7 (format: YYYYMMDD)" |}.

Definition invalid_date_of_birth : Issue :=
  {| category := FORMATTING; severity := MEDIUM; field := "PID-7";
     issue := "Invalid Date of Birth format";
     details := "Date of birth should be in format YYYYMMDD";
     recommendation := "Format date of birth as YYYYMMDD (e.g., 19800115)" |}.

Definition missing_administrative_sex : Issue :=
  {| category := COMPLETENESS; severity := LOW; field := "PID-8";
     issue := "Missing Administrative Sex";
     details := "Administrative sex is useful for demographic reporting";
     recommendation := "Add administrative sex in PID-8 (M, F, O, U, or A)" |}.

Definition invalid_administrative_sex (field8 : string) : Issue :=
  {| category := ACCURACY; severity := MEDIUM; field := "PID-8";
     issue := "Invalid Administrative Sex value";
     details :=
       "Value " ++ quote ++ field8 ++ quote
         ++ " is not a valid administrative sex code";
     recommendation :=
       "Use valid codes: M (Male), F (Female), O (Other), U (Unknown), A (Ambiguous)" |}.

Definition checkPIDCompleteness (parsed : ParsedMessage.t)
  : Exc CheckResult.t :=
  let acc := Acc.empty in
  match find_segment "PID" (ParsedMessage.segments parsed) with
  | None => OK (Acc.result_with_recommendations acc)
  | Some pidSegment =>
      let pid := Segment.parsed pidSegment in
      field5 ← prop pid "field5";
      let acc :=
        if negb (truthy field5) || is_str field5 ""
        then Acc.push missing_patient_name 5 acc
        else acc in
      field3 ← prop pid "field3";
      let acc :=
        if negb (truthy field3) || is_str field3 ""
        then Acc.push missing_patient_identifier 5 acc
        else acc in
      field7 ← prop pid "field7";
      let acc :=
        if negb (truthy field7) || is_str field7 ""
        then Acc.push missing_date_of_birth 3 acc
        else if negb (Regex.test_anchored dobRegex (str field7))
             then Acc.push invalid_date_of_birth 2 acc
             else acc in
      field8 ← prop pid "field8";
      let acc :=
        if negb (truthy field8) || is_str field8 ""
        then Acc.push missing_administrative_sex 1 acc
        else if negb (array_includes (str field8) ["M"; "F"; "O"; "U"; "A"])
             then Acc.push (invalid_administrative_sex (str field8)) 2 acc
             else acc in
      OK (Acc.result_with_recommendations acc)
  end.

(** The entries of [dateFields]: segment, field key, name. *)
Definition dateFields : list (string * string * string) :=
  [ ("MSH", "field7", "Date/Time of Message");
    ("PID", "field7", "Date of Birth");
    ("PID", "field29", "Patient Death Date");
    ("PV1", "field44", "Admit Date/Time");
    ("PV1", "field45", "Discharge Date/Time");
    ("EVN", "field2", "Recorded Date/Time") ].

Definition invalid_date_format (segment fld name value : string) : Issue :=
  {| category := FORMATTING; severity := MEDIUM;
     field := segment ++ "-" ++ replace "field" "" fld;
     issue := "Invalid " ++ name ++ " format";
     details :=
       "Date value " ++ quote ++ value ++ quote
         ++ " does not match HL7 date format";
     recommendation := "Format dates as YYYYMMDD or YYYYMMDDHHMMSS" |}.

(** The callback of the [forEach] over [dateFields]. *)
Definition checkDateFormats_entry (parsed : ParsedMessage.t) (acc : Acc.t)
  (entry : string * string * string) : Exc Acc.t :=
  let '(segment, fld, name) := entry in
  match find_segment segment (ParsedMessage.segments parsed) with
  | None => OK acc
  | Some seg =>
      value ← prop (Segment.parsed seg) fld;
      OK (if truthy value then
            if negb (Regex.test_anchored dateRegex (str value))
            then Acc.push (invalid_date_format segment fld name (str value))
                   1 acc
            else acc
          else acc)
  end.

Definition checkDateFormats (parsed : ParsedMessage.t) : Exc CheckResult.t :=
  acc ← forEach dateFields (checkDateFormats_entry parsed) Acc.empty;
  OK (Acc.result acc).

Definition invalid_SSN (ssn : string) : Issue :=
  {| category := FORMATTING; severity := MEDIUM; field := "PID-19";
     issue := "Invalid SSN format";
     details :=
       "SSN " ++ quote ++ ssn ++ quote ++ " does not match expected format";
     recommendation := "Format SSN as XXX-XX-XXXX or XXXXXXXXX" |}.

Definition checkIdentifierFormats (parsed : ParsedMessage.t)
  : Exc CheckResult.t :=
  let acc := Acc.empty in
  match find_segment "PID" (ParsedMessage.segments parsed) with
  | None => OK (Acc.result acc)
  | Some pidSegment =>
      field19 ← prop (Segment.parsed pidSegment) "field19";
      OK (Acc.result
            (if truthy field19 then
               let ssn := str field19 in
               if negb (Regex.test_anchored ssnRegex ssn)
               then Acc.push (invalid_SSN ssn) 2 acc
               else acc
             else acc))
  end.

Definition address_missing_components : Issue :=
  {| category := FORMATTING; severity := LOW; field := "PID-11";
     issue := "Address may be missing components";
     details :=
       "HL7 addresses should have components separated by ^ (Street^City^State^Zip^Country)";
     recommendation :=
       "Format address with components: Street^City^State^Zip^Country" |}.

(** A field value is a string here, so the [typeof address === 'string']
    of the source holds whenever the field is truthy. *)
Definition checkAddressFormats (parsed : ParsedMessage.t)
  : Exc CheckResult.t :=
  let acc := Acc.empty in
  match find_segment "PID" (ParsedMessage.segments parsed) with
  | None => OK (Acc.result acc)
  | Some pidSegment =>
      field11 ← prop (Segment.parsed pidSegment) "field11";
      OK (Acc.result
            (if truthy field11 then
               let address := str field11 in
               if negb (includes "^" address)
               then Acc.push address_missing_components 1 acc
               else acc
             else acc))
  end.

(** The entries of [phoneFields]. *)
Definition phoneFields : list (string * string) :=
  [ ("field13", "Phone Number - Home");
    ("field14", "Phone Number - Business") ].

Definition invalid_phone (fld name phone : string) : Issue :=
  {| category := FORMATTING; severity := LOW;
     field := "PID-" ++ replace "field" "" fld;
     issue := "Invalid " ++ name ++ " format";
     details :=
       "Phone number " ++ quote ++ phone ++ quote
         ++ " may not be properly formatted";
     recommendation := "Format phone as [NNN][(999)]999-9999[X99999]" |}.

Definition checkPhoneFormats (parsed : ParsedMessage.t) : Exc CheckResult.t :=
  let acc := Acc.empty in
  match find_segment "PID" (ParsedMessage.segments parsed) with
  | None => OK (Acc.result acc)
  | Some pidSegment =>
      acc ← forEach phoneFields
              (fun acc '(fld, name) =>
                 value ← prop (Segment.parsed pidSegment) fld;
                 OK (if truthy value then
                       let phone := str value in
                       if negb (Regex.test phoneRegex phone)
                       then Acc.push (invalid_phone fld name phone) 1 acc
                       else acc
                     else acc))
              acc;
      OK (Acc.result acc)
  end.

Definition invalid_patient_class (patientClass : string) : Issue :=
  {| category := CONSISTENCY; severity := MEDIUM; field := "PV1-2";
     issue := "Invalid Patient Class";
     details :=
       "Patient class " ++ quote ++ patientClass ++ quote
         ++ " is not a valid code";
     recommendation :=
       "Use valid codes: I (Inpatient), O (Outpatient), E (Emergency), P (Preadmit), R (Recurring), B (Obstetrics), N (Newborn), U (Unknown)" |}.

Definition checkDataConsistency (parsed : ParsedMessage.t)
  : Exc CheckResult.t :=
  let acc := Acc.empty in
  let pidSegment := find_segment "PID" (ParsedMessage.segments parsed) in
  let pv1Segment := find_segment "PV1" (ParsedMessage.segments parsed) in
  match pidSegment, pv1Segment with
  | Some _, Some pv1 =>
      field2 ← prop (Segment.parsed pv1) "field2";
      OK (Acc.result
            (if truthy field2 then
               let patientClass := str field2 in
               if negb (array_includes patientClass
                          ["I"; "O"; "E"; "P"; "R"; "B"; "N"; "U"])
               then Acc.push (invalid_patient_class patientClass) 2 acc
               else acc
             else acc))
  | _, _ => OK (Acc.result acc)
  end.

Definition discharge_before_admit : Issue :=
  {| category := BUSINESS_RULES; severity := HIGH; field := "PV1-44/45";
     issue := "Discharge date before admit date";
     details := "Discharge date should not be earlier than admit date";
     recommendation := "Verify and correct admit and discharge dates" |}.

Definition death_before_birth : Issue :=
  {| category := BUSINESS_RULES; severity := HIGH; field := "PID-7/29";
     issue := "Death date before birth date";
     details := "Death date should not be earlier than birth date";
     recommendation := "Verify and correct birth and death dates" |}.

Definition checkBusinessRules `{JsDate.Engine} (parsed : ParsedMessage.t)
  : Exc CheckResult.t :=
  let acc := Acc.empty in
  acc ←
    match find_segment "PV1" (ParsedMessage.segments parsed) with
    | None => OK acc
    | Some pv1Segment =>
        admitDate ← prop (Segment.parsed pv1Segment) "field44";
        dischargeDate ← prop (Segment.parsed pv1Segment) "field45";
        OK (if truthy admitDate && truthy dischargeDate then
              let admitted := JsDate.of_field (str admitDate) in
              let discharged := JsDate.of_field (str dischargeDate) in
              if JsDate.lt discharged admitted
              then Acc.push discharge_before_admit 5 acc
              else acc
            else acc)
    end;
  acc ←
    match find_segment "PID" (ParsedMessage.segments parsed) with
    | None => OK acc
    | Some pidSegment =>
        birthDate ← prop (Segment.parsed pidSegment) "field7";
        deathDate ← prop (Segment.parsed pidSegment) "field29";
        OK (if truthy birthDate && truthy deathDate then
              let birth := JsDate.of_field (str birthDate) in
              let death := JsDate.of_field (str deathDate) in
              if JsDate.lt death birth
              then Acc.push death_before_birth 5 acc
              else acc
            else acc)
    end;
  OK (Acc.result acc).

Definition validVersions : list string :=
  [ "2.1"; "2.2"; "2.3"; "2.3.1"; "2.4"; "2.5"; "2.5.1"; "2.6"; "2.7"; "2.8";
    "2.8.1"; "2.8.2" ].

Definition unusual_version (version : string) : Issue :=
  {| category := COMPLIANCE; severity := MEDIUM; field := "MSH-12";
     issue := "Unusual HL7 version";
     details :=
       "Version " ++ quote ++ version ++ quote
         ++ " is not a standard HL7 v2.x version";
     recommendation :=
       "Verify version ID matches actual message structure (common versions: 2.3, 2.4, 2.5, 2.8)" |}.

Definition checkVersionCompliance (parsed : ParsedMessage.t)
  : Exc CheckResult.t :=
  let acc := Acc.empty in
  match find_segment "MSH" (ParsedMessage.segments parsed) with
  | None => OK (Acc.result acc)
  | Some mshSegment =>
      field12 ← prop (Segment.parsed mshSegment) "field12";
      OK (Acc.result
            (if truthy field12 then
               let version := str field12 in
               if negb (array_includes version validVersions)
               then Acc.push (unusual_version version) 2 acc
               else acc
             else acc))
  end.

(** ** The engine *)

(** The ten calls of the [checks] array literal, in its order. *)
Definition battery `{JsDate.Engine}
  : list (ParsedMessage.t -> Exc CheckResult.t) :=
  [ checkMSHCompleteness;
    (fun parsed => OK (checkRequiredSegments parsed));
    checkPIDCompleteness;
    checkDateFormats;
    checkIdentifierFormats;
    checkAddressFormats;
    checkPhoneFormats;
    checkDataConsistency;
    checkBusinessRules;
    checkVersionCompliance ].

(** Evaluation of an array literal of calls: left to right, and the
    first call that throws ends it. *)
Fixpoint evaluate_all {A B : Type} (calls : list (A -> Exc B)) (a : A)
  : Exc (list B) :=
  match calls with
  | [] => OK []
  | call :: calls' =>
      match call a with
      | OK b =>
          match evaluate_all calls' a with
          | OK bs => OK (b :: bs)
          | Err e => Err e
          end
      | Err e => Err e
      end
  end.

(** The locals [issues], [recommendations] and [overallScore] of
    [analyzeDataQuality]. *)
Module Locals.
Record t : Type := {
  issues : list Issue;
  recommendations : list string;
  overallScore : Z;
}.
Definition init : t :=
  {| issues := []; recommendations := []; overallScore := 100 |}.
End Locals.

(** Statements of the [try] block: they update the locals and return or
    throw, and the locals are what they are when a statement throws. *)
Definition Body (A : Type) : Type := Locals.t -> Locals.t * Exc A.

#[global] Instance Body_ret : MRet Body := fun A a st => (st, OK a).
#[global] Instance Body_bind : MBind Body := fun A B f m st =>
  match m st with
  | (st', OK a) => f a st'
  | (st', Err e) => (st', Err e)
  end.

(** A call that may throw. *)
Definition call {A : Type} (r : Exc A) : Body A := fun st => (st, r).

Definition get : Body Locals.t := fun st => (st, OK st).

Definition modify (f : Locals.t -> Locals.t) : Body unit :=
  fun st => (f st, OK tt).

(** [issues.push(...items)] *)
Definition push_issues (items : list Issue) : Body unit :=
  modify (fun st =>
            {| Locals.issues := Locals.issues st ++ items;
               Locals.recommendations := Locals.recommendations st;
               Locals.overallScore := Locals.overallScore st |}).

(** [recommendations.push(...items)] *)
Definition push_recommendations (items : list string) : Body unit :=
  modify (fun st =>
            {| Locals.issues := Locals.issues st;
               Locals.recommendations := Locals.recommendations st ++ items;
               Locals.overallScore := Locals.overallScore st |}).

(** [overallScore = f(overallScore)] *)
Definition update_score (f : Z -> Z) : Body unit :=
  modify (fun st =>
            {| Locals.issues := Locals.issues st;
               Locals.recommendations := Locals.recommendations st;
               Locals.overallScore := f (Locals.overallScore st) |}).

(** [list.forEach] in the [try] block. *)
Fixpoint forEach_body {A : Type} (l : list A) (body : A -> Body unit)
  : Body unit :=
  match l with
  | [] => mret tt
  | x :: l' => _ ← body x; forEach_body l' body
  end.

(** [[...new Set(l)]]: the first occurrence of each string, in order. *)
Fixpoint Set_spread_from (seen l : list string) : list string :=
  match l with
  | [] => []
  | x :: l' =>
      if array_includes x seen then Set_spread_from seen l'
      else x :: Set_spread_from (x :: seen) l'
  end.

Definition Set_spread (l : list string) : list string :=
  Set_spread_from [] l.

(** [validation.errors?.join('; ') || 'Message does not conform ...'] *)
Definition validation_details (validation : Validation.t) : string :=
  let fallback := "Message does not conform to HL7 standards" in
  match Validation.errors validation with
  | None => fallback
  | Some errors =>
      let joined := join "; " errors in
      if String.eqb joined "" then fallback else joined
  end.

Definition invalid_message_format (validation : Validation.t) : Issue :=
  {| category := FORMATTING; severity := CRITICAL;
     field := "Message Structure";
     issue := "Invalid HL7 message format";
     details := validation_details validation;
     recommendation :=
       "Ensure message starts with MSH segment and contains proper delimiters" |}.

Definition failed_to_parse (error : JsError) : Issue :=
  {| category := FORMATTING; severity := CRITICAL;
     field := "Message Parsing";
     issue := "Failed to parse message";
     details := message error;
     recommendation :=
       "Review message format and ensure it follows HL7 v2.x standards" |}.

(** The body of the [forEach] over the check results.  An array is
    truthy even when empty; a penalty of [0] is falsy. *)
Definition merge (checkResult : CheckResult.t) : Body unit :=
  _ ← push_issues (CheckResult.issues checkResult);
  _ ← match CheckResult.recommendations checkResult with
      | Some rs => push_recommendations rs
      | None => mret tt
      end;
  if CheckResult.scorePenalty checkResult =? 0 then mret tt
  else update_score (fun score => score - CheckResult.scorePenalty checkResult).

Section Engine.

Context `{Hl7Parser} `{JsDate.Engine}.

(** The [try] block of [analyzeDataQuality]. *)
Definition try_block (hl7Message : string) : Body Report.t :=
  validation ← call (validateHL7Message hl7Message);
  if negb (Validation.isValid validation) then
    _ ← push_issues [invalid_message_format validation];
    _ ← update_score (fun score => score - 30);
    st ← get;
    mret {| Report.overallScore := Z.max 0 (Locals.overallScore st);
            Report.issues := Locals.issues st;
            Report.recommendations := Locals.recommendations st;
            Report.isValid := false;
            Report.messageType := None;
            Report.totalSegments := None;
            Report.analysisDate := None |}
  else
    parsed ← call (parseHL7Message hl7Message);
    checks ← call (evaluate_all battery parsed);
    _ ← forEach_body checks merge;
    _ ← update_score (fun score => Z.max 0 (Z.min 100 score));
    st ← get;
    mret {| Report.overallScore := Locals.overallScore st;
            Report.issues := Locals.issues st;
            Report.recommendations :=
              Set_spread (Locals.recommendations st);
            Report.isValid := true;
            Report.messageType := Some (ParsedMessage.messageType parsed);
            Report.totalSegments :=
              Some (ParsedMessage.totalSegments parsed);
            Report.analysisDate := Some JsDate.now_toISOString |}.

(** The [catch] block, entered with the locals as the throw left
    them. *)
Definition catch_block (error : JsError) (st : Locals.t) : Report.t :=
  {| Report.overallScore := 0;
     Report.issues := Locals.issues st ++ [failed_to_parse error];
     Report.recommendations :=
       ["Fix parsing errors before proceeding with quality analysis"];
     Report.isValid := false;
     Report.messageType := None;
     Report.totalSegments := None;
     Report.analysisDate := None |}.

Definition analyzeDataQuality (hl7Message : string) : Report.t :=
  match try_block hl7Message Locals.init with
  | (_, OK report) => report
  | (st, Err error) => catch_block error st
  end.

End Engine.

(** ** The sample message *)

Definition LF : string := String "010" EmptyString.

Definition getSampleADTMessage : string :=
  "MSH|^~\&|SendingApp|SendingFacility|ReceivingApp|ReceivingFacility|20240101120000||ADT^A01^ADT_A01|12345|P|2.5"
  ++ LF ++
  "EVN|A01|20240101120000|||SendingUserID"
  ++ LF ++
  "PID|1||MRN123456789^^^HOSPITAL^MR||DOE^JOHN^MIDDLE^JR^^L||19800115|M|||123 MAIN ST^^CITY^ST^12345^USA||555-123-4567|||SSN123456789||DL123456789^STATE^20250101"
  ++ LF ++
  "NK1|1|SMITH^JANE^M^||WIFE|456 SECOND ST^^CITY^ST^67890^USA|555-987-6543|555-111-2222|||20200101"
  ++ LF ++
  "PV1|1|I|ICU^101^A|||123456^DOCTOR^JOHN^MD^^MD|||SUR|||||123456789|||V123456||20240101100000|20240101120000"
  ++ LF ++
  "OBX|1|NM|HR^Heart Rate^LN||72|/min^beats per minute^UCUM|N|||F|||20240101120000".

(** ** A parser to run the service with

    The package [hl7-parser] is not part of this repository.  The
    definitions of this section are one parser of the shape the service
    reads, used to run it on concrete messages. *)

Module PositionalParser.

(** The key of field number [n]. *)
Definition field_key (n : nat) : string :=
  "field" ++ NilEmpty.string_of_uint (Nat.to_uint n).

(** The values [vs] under consecutive keys from number [n]. *)
Fixpoint number_fields (n : nat) (vs : list string) : gmap string string :=
  match vs with
  | [] => ∅
  | v :: vs' => <[field_key n := v]> (number_fields (S n) vs')
  end.

(** Modelled from the spec: the segment-level tokenization of the
    external parser, of which the spec gives the result shape only (a
    type tag and positionally keyed field values).  A segment is a line
    of [|]-separated values; the tag is the first value and field [n]
    is the [n]-th value after it, except in the header, where field 1
    is the separator itself and the values after the tag start at
    field 2. *)
Definition parse_segment (line : string) : Segment.t :=
  match split "|" line with
  | [] => {| Segment.segmentType := ""; Segment.parsed := Some ∅ |}
  | tag :: values =>
      {| Segment.segmentType := tag;
         Segment.parsed :=
           Some (if String.eqb tag "MSH"
                 then <["field1" := "|"]> (number_fields 2 values)
                 else number_fields 1 values) |}
  end.

(** Modelled from the spec: the message-level result of the external
    parser, with the segments in wire order, their count, and the
    message type read from field 9 of the header. *)
Definition parse (raw : string) : ParsedMessage.t :=
  let lines := filter (fun l => negb (String.eqb l "")) (split "010" raw) in
  let segments := map parse_segment lines in
  {| ParsedMessage.messageType :=
       match find_segment "MSH" segments with
       | Some msh =>
         match Segment.parsed msh with
         | Some fields => fields !! "field9"
         | None => None
         end
       | None => None
       end;
     ParsedMessage.totalSegments := Z.of_nat (length segments);
     ParsedMessage.segments := segments |}.

(** Modelled from the spec: the structural gate of the external
    parser, which the spec describes as requiring the header segment
    first. *)
Definition validate (raw : string) : Validation.t :=
  if String.prefix "MSH|" raw
  then {| Validation.isValid := true; Validation.errors := Some [] |}
  else {| Validation.isValid := false;
          Validation.errors := Some ["Message must start with MSH segment"] |}.

Definition parser : Hl7Parser :=
  {| validateHL7Message := fun raw => OK (validate raw);
     parseHL7Message := fun raw => OK (parse raw) |}.

(** An engine whose parser rejects every date outside the standard
    form. *)
Definition engine : JsDate.Engine :=
  {| JsDate.implementation_parse := fun _ => None;
     JsDate.now_toISOString := "2024-01-01T12:00:00.000Z" |}.

End PositionalParser.

(** ** Vocabulary of the properties *)

(** Every segment carries the field map the parser attaches to it.  The
    checks read [parsed] without a guard: on a segment without it they
    throw, which is what the [catch] block of [analyzeDataQuality] is
    for. *)
Definition well_formed (parsed : ParsedMessage.t) : Prop :=
  forall s, In s (ParsedMessage.segments parsed) -> Segment.parsed s <> None.

(** The value of a field of a segment. *)
Definition field_value (s : Segment.t) (key : string) : option string :=
  match Segment.parsed s with
  | Some fields => fields !! key
  | None => None
  end.

(** [sub] occurs in [s]. *)
Definition contains (s sub : string) : Prop :=
  exists before after, s = before ++ sub ++ after.

(** [clamp(x, 0, 100)] *)
Definition clamp (x : Z) : Z := Z.max 0 (Z.min 100 x).

(** The sum of the penalties of a list of check results. *)
Definition totalPenalty (checks : list CheckResult.t) : Z :=
  fold_right (fun r acc => CheckResult.scorePenalty r + acc) 0 checks.

(** The recommendations a check result brings to the report. *)
Definition pushed_recommendations (r : CheckResult.t) : list string :=
  match CheckResult.recommendations r with
  | Some items => items
  | None => []
  end.

(** What the [forEach] over the check results leaves in the locals. *)
Definition merged (checks : list CheckResult.t) (st : Locals.t) : Locals.t :=
  {| Locals.issues :=
       Locals.issues st ++ concat (map CheckResult.issues checks);
     Locals.recommendations :=
       Locals.recommendations st
         ++ concat (map pushed_recommendations checks);
     Locals.overallScore := Locals.overallScore st - totalPenalty checks |}.

(** The report of the [catch] block when nothing had been pushed. *)
Definition failure_report (error : JsError) : Report.t :=
  {| Report.overallScore := 0;
     Report.issues := [failed_to_parse error];
     Report.recommendations :=
       ["Fix parsing errors before proceeding with quality analysis"];
     Report.isValid := false;
     Report.messageType := None;
     Report.totalSegments := None;
     Report.analysisDate := None |}.

(** ** Messages and parsers the properties are run on *)

Module Examples.

(** The [Invalid Format] message of the example script. *)
Definition invalidFormatMessage : string :=
  "MSH|^~\&|App|Facility|||2024-01-01||ADT^A01|123|P|2.5"
  ++ LF ++
  "PID|1||MRN123||DOE^JOHN||1980/01/15|M".

(** The [problematicMessage] of the example script. *)
Definition problematicMessage : string :=
  "MSH|^~\&|SendingApp||ReceivingApp||20240101||ADT^A01|12345|P|2.5"
  ++ LF ++
  "PID|1|||||19800115|X|||123 MAIN ST|CITY|ST|12345|USA||555-123-4567".

(** A message with a header and a visit segment only. *)
Definition noPatientMessage : string :=
  "MSH|^~\&|App|Facility|App2|Facility2|20240101120000||ADT^A01|123|P|2.5"
  ++ LF ++
  "PV1|1|I".

(** Text that does not start with a header. *)
Definition notHL7 : string := "hello".

(** The result of a check that returned. *)
Definition returned (r : Exc CheckResult.t) : CheckResult.t :=
  match r with
  | OK a => a
  | Err _ => Acc.result Acc.empty
  end.

(** The segment a lookup found. *)
Definition returned_segment (s : option Segment.t) : Segment.t :=
  match s with
  | Some seg => seg
  | None => {| Segment.segmentType := ""; Segment.parsed := None |}
  end.

(** A visit segment alone, with its admit and discharge fields. *)
Definition visit (admitDate dischargeDate : string) : ParsedMessage.t :=
  {| ParsedMessage.messageType := Some "ADT^A03";
     ParsedMessage.totalSegments := 1;
     ParsedMessage.segments :=
       [ {| Segment.segmentType := "PV1";
            Segment.parsed :=
              Some (<["field44" := admitDate]>
                      (<["field45" := dischargeDate]> ∅)) |} ] |}.

(** A parsed message whose header segment comes without its field
    map. *)
Definition bareHeader : ParsedMessage.t :=
  {| ParsedMessage.messageType := Some "ADT^A01";
     ParsedMessage.totalSegments := 1;
     ParsedMessage.segments :=
       [ {| Segment.segmentType := "MSH"; Segment.parsed := None |} ] |}.

(** A parser that returns it for every message. *)
Definition bareParser : Hl7Parser :=
  {| validateHL7Message :=
       fun _ => OK {| Validation.isValid := true; Validation.errors := None |};
     parseHL7Message := fun _ => OK bareHeader |}.

End Examples.

(** ** The rules of the checks, one at a time

    Each [if] statement of a check is a function of the two locals; the
    lemmas of the second part show that the checks are their
    composition. *)

(** [b] after [a]. *)
Definition Acc_append (a b : Acc.t) : Acc.t :=
  {| Acc.issues := Acc.issues a ++ Acc.issues b;
     Acc.scorePenalty := Acc.scorePenalty a + Acc.scorePenalty b |}.

Definition patient_name_rule (field5 : option string) (acc : Acc.t) : Acc.t :=
  if negb (truthy field5) || is_str field5 ""
  then Acc.push missing_patient_name 5 acc
  else acc.

Definition patient_identifier_rule (field3 : option string) (acc : Acc.t)
  : Acc.t :=
  if negb (truthy field3) || is_str field3 ""
  then Acc.push missing_patient_identifier 5 acc
  else acc.

Definition date_of_birth_rule (field7 : option string) (acc : Acc.t) : Acc.t :=
  if negb (truthy field7) || is_str field7 ""
  then Acc.push missing_date_of_birth 3 acc
  else if negb (Regex.test_anchored dobRegex (str field7))
       then Acc.push invalid_date_of_birth 2 acc
       else acc.

Definition administrative_sex_rule (field8 : option string) (acc : Acc.t)
  : Acc.t :=
  if negb (truthy field8) || is_str field8 ""
  then Acc.push missing_administrative_sex 1 acc
  else if negb (array_includes (str field8) ["M"; "F"; "O"; "U"; "A"])
       then Acc.push (invalid_administrative_sex (str field8)) 2 acc
       else acc.

(** What one entry of [dateFields] adds, given the value of its field. *)
Definition date_format_rule (entry : string * string * string)
  (value : option string) (acc : Acc.t) : Acc.t :=
  let '(segment, fld, name) := entry in
  if truthy value then
    if negb (Regex.test_anchored dateRegex (str value))
    then Acc.push (invalid_date_format segment fld name (str value)) 1 acc
    else acc
  else acc.

(** Field [key] of the first segment of type [ty], as the checks read it
    in a well-formed message. *)
Definition first_field (parsed : ParsedMessage.t) (ty key : string)
  : option string :=
  match find_segment ty (ParsedMessage.segments parsed) with
  | Some seg => field_value seg key
  | None => None
  end.

(** The value an entry of [dateFields] reads in a message. *)
Definition date_field (parsed : ParsedMessage.t)
  (entry : string * string * string) : option string :=
  let '(segment, fld, _) := entry in first_field parsed segment fld.

(** The two rules of [checkBusinessRules], given the dates they read. *)
Definition visit_dates_rule `{JsDate.Engine}
  (admitDate dischargeDate : option string) (acc : Acc.t) : Acc.t :=
  if truthy admitDate && truthy dischargeDate then
    if JsDate.lt (JsDate.of_field (str dischargeDate))
         (JsDate.of_field (str admitDate))
    then Acc.push discharge_before_admit 5 acc
    else acc
  else acc.

Definition life_dates_rule `{JsDate.Engine}
  (birthDate deathDate : option string) (acc : Acc.t) : Acc.t :=
  if truthy birthDate && truthy deathDate then
    if JsDate.lt (JsDate.of_field (str deathDate))
         (JsDate.of_field (str birthDate))
    then Acc.push death_before_birth 5 acc
    else acc
  else acc.

(** The message with [value] as field [key] of its first segment of type
    [ty]. *)
Fixpoint set_field_in (ty key value : string) (segs : list Segment.t)
  : list Segment.t :=
  match segs with
  | [] => []
  | s :: segs' =>
      if String.eqb (Segment.segmentType s) ty
      then {| Segment.segmentType := Segment.segmentType s;
              Segment.parsed := insert key value <$> Segment.parsed s |}
           :: segs'
      else s :: set_field_in ty key value segs'
  end.

Definition set_field (ty key value : string) (parsed : ParsedMessage.t)
  : ParsedMessage.t :=
  {| ParsedMessage.messageType := ParsedMessage.messageType parsed;
     ParsedMessage.totalSegments := ParsedMessage.totalSegments parsed;
     ParsedMessage.segments :=
       set_field_in ty key value (ParsedMessage.segments parsed) |}.

(** ** Tactics *)

(** A rule adds its findings after those of the rules before it: by
    cases on its tests. *)
Ltac rule_appends :=
  repeat match goal with
         | |- context [if ?b then _ else _] => destruct b
         end;
  try reflexivity;
  match goal with
  | |- ?a = Acc_append ?a Acc.empty =>
      destruct a; unfold Acc_append; cbn;
      rewrite app_nil_r, Z.add_0_r; reflexivity
  end.

(** Every lookup of a check in a well-formed message finds a segment with
    its field map, or nothing. *)
Ltac found_fields Hwf :=
  repeat match goal with
         | |- context [find_segment ?ty ?segs] =>
             let Hfind := fresh "Hfind" in
             let seg := fresh "seg" in
             let fields := fresh "fields" in
             let Hin := fresh "Hin" in
             destruct (find_segment ty segs) as [seg |] eqn:Hfind;
             [ pose proof (proj1 (find_some _ _ Hfind)) as Hin;
               apply Hwf in Hin;
               destruct (Segment.parsed seg) as [fields |];
               [clear Hin | now destruct Hin]
             |]
         end.

(** Case analysis on what a check that returned went through. *)
Ltac returned_cases Hr :=
  unfold mbind, Exc_bind in Hr;
  repeat match type of Hr with
         | context [match ?x with _ => _ end] => destruct x
         end;
  try discriminate Hr;
  injection Hr as <-; reflexivity.

(** ** Vocabulary of the further properties *)

(** The findings of a check are sound when each issue costs between 1 and
    20 points and none is informational. *)
Definition Acc_sound (a : Acc.t) : Prop :=
  Z.of_nat (length (Acc.issues a)) <= Acc.scorePenalty a
    <= 20 * Z.of_nat (length (Acc.issues a))
  /\ Forall (fun i => severity i <> INFO) (Acc.issues a).

(** Sound findings with a penalty of at most [bound]. *)
Definition Acc_within (bound : Z) (a : Acc.t) : Prop :=
  Acc_sound a /\ Acc.scorePenalty a <= bound.

(** The same on what a check returns. *)
Definition Result_within (bound : Z) (r : CheckResult.t) : Prop :=
  (Z.of_nat (length (CheckResult.issues r)) <= CheckResult.scorePenalty r
     <= 20 * Z.of_nat (length (CheckResult.issues r))
   /\ Forall (fun i => severity i <> INFO) (CheckResult.issues r))
  /\ CheckResult.scorePenalty r <= bound.

(** The most each check of the battery can take off, in its order. *)
Definition battery_bounds : list Z := [20; 25; 15; 6; 2; 1; 2; 2; 10; 2].

(** The segment types the checks look up. *)
Definition read_segment_types : list string := ["MSH"; "PID"; "PV1"; "EVN"].

(** The message without its segments of any other type. *)
Definition only_read_segments (parsed : ParsedMessage.t) : ParsedMessage.t :=
  {| ParsedMessage.messageType := ParsedMessage.messageType parsed;
     ParsedMessage.totalSegments := ParsedMessage.totalSegments parsed;
     ParsedMessage.segments :=
       List.filter
         (fun s => array_includes (Segment.segmentType s) read_segment_types)
         (ParsedMessage.segments parsed) |}.

(** The fields the checks read, by segment type: those of
    [requiredFields] and [MSH-7]; the fields of [checkPIDCompleteness],
    [PID-11], [PID-13], [PID-14], [PID-19] and [PID-29]; [PV1-2] and the
    two visit dates; the recorded date of [EVN]. *)
Definition read_fields : list (string * string) :=
  [ ("MSH", "field3"); ("MSH", "field4"); ("MSH", "field5");
    ("MSH", "field6"); ("MSH", "field7"); ("MSH", "field9");
    ("MSH", "field10"); ("MSH", "field12");
    ("PID", "field3"); ("PID", "field5"); ("PID", "field7");
    ("PID", "field8"); ("PID", "field11"); ("PID", "field13");
    ("PID", "field14"); ("PID", "field19"); ("PID", "field29");
    ("PV1", "field2"); ("PV1", "field44"); ("PV1", "field45");
    ("EVN", "field2") ].

(** Every character of [s] is in the class [P]. *)
Fixpoint all_chars (P : ascii -> bool) (s : string) : bool :=
  match s with
  | EmptyString => true
  | String c s' => P c && all_chars P s'
  end.

(** Some character of [s] is in the class [P]. *)
Fixpoint any_char (P : ascii -> bool) (s : string) : bool :=
  match s with
  | EmptyString => false
  | String c s' => P c || any_char P s'
  end.

(** The class of [phoneRegex]. *)
Definition phone_char (c : ascii) : bool :=
  Regex.digit c || Regex.char "-" c || Regex.char "(" c || Regex.char ")" c
  || Regex.space c.

(** The class of [sign]. *)
Definition sign_char (c : ascii) : bool :=
  Regex.char "+" c || Regex.char "-" c.

(** Every class of the pattern lies within [P]. *)
Fixpoint alphabet (P : ascii -> bool) (r : Regex.regex) : Prop :=
  match r with
  | Regex.Class p => forall c, p c = true -> P c = true
  | Regex.Seq r1 r2 | Regex.Alt r1 r2 => alphabet P r1 /\ alphabet P r2
  | Regex.Star r1 => alphabet P r1
  | _ => True
  end.

(** No class of the pattern tells two characters of [P] apart. *)
Fixpoint blind (P : ascii -> bool) (r : Regex.regex) : Prop :=
  match r with
  | Regex.Class p => forall c c', P c = true -> P c' = true -> p c = p c'
  | Regex.Seq r1 r2 | Regex.Alt r1 r2 => blind P r1 /\ blind P r2
  | Regex.Star r1 => blind P r1
  | _ => True
  end.

(** A pattern that matches nothing, by its shape. *)
Fixpoint dead (r : Regex.regex) : bool :=
  match r with
  | Regex.Void => true
  | Regex.Seq r1 r2 => dead r1 || dead r2
  | Regex.Alt r1 r2 => dead r1 && dead r2
  | _ => false
  end.

(** [n] times the digit [0]. *)
Fixpoint zeros (n : nat) : string :=
  match n with
  | O => EmptyString
  | S n' => String "0" (zeros n')
  end.

(** A value the phone check has nothing to say about: no value, the
    empty one, or one with a character of the class of [phoneRegex]
    somewhere. *)
Definition phone_passes (value : option string) : Prop :=
  match value with
  | Some phone => phone = "" \/ any_char phone_char phone = true
  | None => True
  end.

(** The test of the [forEach] over [requiredFields]: the field is
    missing, empty or the placeholder [Unknown]. *)
Definition MSH_field_missing (fields : gmap string string)
  (entry : string * string) : bool :=
  let v := fields !! fst entry in
  negb (truthy v) || is_str v "" || is_str v "Unknown".

(** The rule of [MSH-7], given the value of the field. *)
Definition MSH_datetime_rule (field7 : option string) (acc : Acc.t) : Acc.t :=
  if truthy field7 && negb (is_str field7 "Unknown") then
    if negb (Regex.test_anchored dateTimeRegex (str field7))
    then Acc.push invalid_MSH_datetime 1 acc
    else acc
  else Acc.push missing_MSH_datetime 2 acc.

(** Month [m] and day [d] name a day of year [y]: the test of
    [JsDate.iso_date]. *)
Definition calendar_day (y m d : Z) : bool :=
  (1 <=? m) && (m <=? 12) && (1 <=? d) && (d <=? JsDate.DaysInMonth y m).

(** The day [y-m-d] comes before the day [y'-m'-d']. *)
Definition day_before (y m d y' m' d' : Z) : Prop :=
  y < y' \/ (y = y' /\ (m < m' \/ (m = m' /\ d < d'))).

(** [s] writes the number [n] with [k] digits. *)
Definition written (n : Z) (k : nat) (s : string) : Prop :=
  String.length s = k /\ JsDate.digits_value s = Some n.


(** ** Further sample messages *)

Module Samples.

(** A validator that throws. *)
Definition faultyParser : Hl7Parser :=
  {| validateHL7Message :=
       fun _ => Err (TypeError "message.split is not a function");
     parseHL7Message := fun _ => OK Examples.bareHeader |}.

(** A parser that finds no segment. *)
Definition emptyParser : Hl7Parser :=
  {| validateHL7Message :=
       fun _ => OK {| Validation.isValid := true; Validation.errors := None |};
     parseHL7Message :=
       fun _ => OK {| ParsedMessage.messageType := Some "ADT^A01";
                      ParsedMessage.totalSegments := 0;
                      ParsedMessage.segments := [] |} |}.

(** A header segment with the given timestamp. *)
Definition headerSegment (field7 : string) : Segment.t :=
  {| Segment.segmentType := "MSH";
     Segment.parsed :=
       Some (<["field3" := "App"]>
               (<["field7" := field7]>
                  (<["field9" := "ADT^A01"]>
                     (<["field12" := "2.5"]> ∅)))) |}.

Definition header (field7 : string) : ParsedMessage.t :=
  {| ParsedMessage.messageType := Some "ADT^A01";
     ParsedMessage.totalSegments := 1;
     ParsedMessage.segments := [headerSegment field7] |}.

(** The fields of a patient with a home phone in words and one digit. *)
Definition patientFields : gmap string string :=
  <["field5" := "DOE^JOHN"]> (<["field13" := "ask for extension 4"]> ∅).

Definition patientSegment : Segment.t :=
  {| Segment.segmentType := "PID"; Segment.parsed := Some patientFields |}.

Definition patient : ParsedMessage.t :=
  {| ParsedMessage.messageType := Some "ADT^A01";
     ParsedMessage.totalSegments := 1;
     ParsedMessage.segments := [patientSegment] |}.

(** A visit segment with its two dates. *)
Definition visitSegment (admitDate dischargeDate : string) : Segment.t :=
  {| Segment.segmentType := "PV1";
     Segment.parsed :=
       Some (<["field44" := admitDate]> (<["field45" := dischargeDate]> ∅)) |}.

Definition stay (admitDate dischargeDate : string) : ParsedMessage.t :=
  {| ParsedMessage.messageType := Some "ADT^A03";
     ParsedMessage.totalSegments := 1;
     ParsedMessage.segments := [visitSegment admitDate dischargeDate] |}.

(** The same stay followed by a next of kin and a second visit segment. *)
Definition stayAndMore (admitDate dischargeDate : string) : ParsedMessage.t :=
  {| ParsedMessage.messageType := Some "ADT^A03";
     ParsedMessage.totalSegments := 3;
     ParsedMessage.segments :=
       [ visitSegment admitDate dischargeDate;
         {| Segment.segmentType := "NK1";
            Segment.parsed := Some (<["field2" := "DOE^JANE"]> ∅) |};
         visitSegment dischargeDate admitDate ] |}.

End Samples.

(** * Properties *)

(** ** The regular-expression matcher decides the language *)

Module RegexFacts.
Import Regex.

Lemma lang_seq_inv r1 r2 s :
  lang (Seq r1 r2) s ->
  exists s1 s2, s = s1 ++ s2 /\ lang r1 s1 /\ lang r2 s2.
Proof. inversion 1; subst; eauto. Qed.

Lemma nullable_lang r : nullable r = true <-> lang r EmptyString.
Proof.
  induction r; simpl.
  - split; [discriminate | inversion 1].
  - split; [constructor | reflexivity].
  - split; [discriminate | inversion 1].
  - rewrite andb_true_iff, IHr1, IHr2. split.
    + intros [H1 H2]. apply (lang_seq _ _ EmptyString EmptyString); auto.
    + intros H. apply lang_seq_inv in H.
      destruct H as (s1 & s2 & Heq & H1 & H2).
      destruct s1; [| discriminate]. destruct s2; [| discriminate]. auto.
  - rewrite orb_true_iff, IHr1, IHr2. split.
    + intros [H1 | H2]; [now apply lang_alt_l | now apply lang_alt_r].
    + inversion 1; subst; auto.
  - split; [constructor | reflexivity].
Qed.

Lemma lang_star_cons_char r c s :
  lang (Star r) (String c s) ->
  exists s1 s2, s = s1 ++ s2 /\ lang r (String c s1) /\ lang (Star r) s2.
Proof.
  intros H. remember (Star r) as r' eqn:Hr. remember (String c s) as w eqn:Hw.
  induction H; try discriminate.
  injection Hr as ->.
  destruct s1 as [| c1 s1].
  - apply IHlang2; auto.
  - injection Hw as -> <-. eauto.
Qed.

Lemma deriv_lang r : forall c s, lang (deriv c r) s <-> lang r (String c s).
Proof.
  induction r; intros c s; simpl.
  - split; inversion 1.
  - split; inversion 1.
  - destruct (p c) eqn:Hp; split.
    + inversion 1; subst. now constructor.
    + inversion 1; subst. constructor.
    + inversion 1.
    + inversion 1; subst. congruence.
  - assert (Hseq : lang (Seq (deriv c r1) r2) s ->
                   lang (Seq r1 r2) (String c s)).
    { intros H. apply lang_seq_inv in H.
      destruct H as (s1 & s2 & -> & H1 & H2).
      apply (lang_seq _ _ (String c s1) s2); [now apply IHr1 | assumption]. }
    assert (Hinv : lang (Seq r1 r2) (String c s) ->
                   lang (Seq (deriv c r1) r2) s
                   \/ (lang r1 EmptyString /\ lang r2 (String c s))).
    { intros H. apply lang_seq_inv in H.
      destruct H as (s1 & s2 & Heq & H1 & H2).
      destruct s1 as [| c1 s1].
      - right. change (String c s = s2) in Heq. subst. auto.
      - injection Heq as <- ->. left. constructor; [now apply IHr1 | auto]. }
    destruct (nullable r1) eqn:Hn; split.
    + inversion 1; subst; [auto |].
      apply (lang_seq _ _ EmptyString (String c s));
        [now apply nullable_lang | now apply IHr2].
    + intros H. destruct (Hinv H) as [H1 | [_ H2]].
      * now apply lang_alt_l.
      * apply lang_alt_r. now apply IHr2.
    + auto.
    + intros H. destruct (Hinv H) as [H1 | [H1 _]]; [auto |].
      apply nullable_lang in H1. congruence.
  - split.
    + inversion 1; subst;
        [apply lang_alt_l; now apply IHr1 | apply lang_alt_r; now apply IHr2].
    + inversion 1; subst;
        [apply lang_alt_l; now apply IHr1 | apply lang_alt_r; now apply IHr2].
  - split.
    + intros H. apply lang_seq_inv in H.
      destruct H as (s1 & s2 & -> & H1 & H2).
      apply (lang_star_cons _ (String c s1) s2); [now apply IHr | assumption].
    + intros H. apply lang_star_cons_char in H.
      destruct H as (s1 & s2 & -> & H1 & H2).
      constructor; [now apply IHr | assumption].
Qed.

(** [matches] is membership in the language of the pattern. *)
Lemma matches_lang r s : matches r s = true <-> lang r s.
Proof.
  revert r. induction s as [| c s IH]; intros r; simpl.
  - apply nullable_lang.
  - rewrite IH. apply deriv_lang.
Qed.

End RegexFacts.

(** ** The engine, path by path *)

Lemma clamp_range x : 0 <= clamp x <= 100.
Proof. unfold clamp. lia. Qed.

Lemma forEach_body_merge checks :
  forall st, forEach_body checks merge st = (merged checks st, OK tt).
Proof.
  induction checks as [| r checks IH]; intros st.
  - unfold merged. simpl. rewrite !app_nil_r, Z.sub_0_r. now destruct st.
  - cbn [forEach_body]. unfold mbind, Body_bind.
    assert (Hstep : merge r st = (merged [r] st, OK tt)).
    { unfold merge, merged, mbind, Body_bind, push_issues,
        push_recommendations, update_score, modify, mret, Body_ret.
      cbn [map concat totalPenalty fold_right].
      unfold pushed_recommendations.
      rewrite !app_nil_r, Z.add_0_r.
      destruct (CheckResult.recommendations r) as [rs |];
        destruct (Z.eqb_spec (CheckResult.scorePenalty r) 0) as [-> | Hne];
        cbn; rewrite ?app_nil_r, ?Z.sub_0_r; reflexivity. }
    rewrite Hstep, IH. unfold merged. cbn.
    rewrite <- !app_assoc. do 2 f_equal. unfold totalPenalty. lia.
Qed.

Section Paths.

Context `{Hl7Parser} `{JsDate.Engine}.

Lemma validator_throws msg e :
  validateHL7Message msg = Err e ->
  analyzeDataQuality msg = failure_report e.
Proof.
  intros Hv. unfold analyzeDataQuality, try_block, mbind, Body_bind, call.
  rewrite Hv. reflexivity.
Qed.

Lemma gate_fails msg v :
  validateHL7Message msg = OK v ->
  Validation.isValid v = false ->
  analyzeDataQuality msg =
    {| Report.overallScore := Z.max 0 (100 - 30);
       Report.issues := [invalid_message_format v];
       Report.recommendations := [];
       Report.isValid := false;
       Report.messageType := None;
       Report.totalSegments := None;
       Report.analysisDate := None |}.
Proof.
  intros Hv Hvalid.
  unfold analyzeDataQuality, try_block, mbind, Body_bind, call.
  rewrite Hv, Hvalid. reflexivity.
Qed.

Lemma parser_throws msg v e :
  validateHL7Message msg = OK v ->
  Validation.isValid v = true ->
  parseHL7Message msg = Err e ->
  analyzeDataQuality msg = failure_report e.
Proof.
  intros Hv Hvalid Hp.
  unfold analyzeDataQuality, try_block, mbind, Body_bind, call.
  rewrite Hv, Hvalid. cbn [negb]. rewrite Hp. reflexivity.
Qed.

Lemma check_throws msg v parsed e :
  validateHL7Message msg = OK v ->
  Validation.isValid v = true ->
  parseHL7Message msg = OK parsed ->
  evaluate_all battery parsed = Err e ->
  analyzeDataQuality msg = failure_report e.
Proof.
  intros Hv Hvalid Hp Hc.
  unfold analyzeDataQuality, try_block, mbind, Body_bind, call.
  rewrite Hv, Hvalid. cbn [negb]. rewrite Hp, Hc. reflexivity.
Qed.

Lemma analysis_completes msg v parsed checks :
  validateHL7Message msg = OK v ->
  Validation.isValid v = true ->
  parseHL7Message msg = OK parsed ->
  evaluate_all battery parsed = OK checks ->
  analyzeDataQuality msg =
    {| Report.overallScore := clamp (100 - totalPenalty checks);
       Report.issues := concat (map CheckResult.issues checks);
       Report.recommendations :=
         Set_spread
           (concat (map pushed_recommendations checks));
       Report.isValid := true;
       Report.messageType := Some (ParsedMessage.messageType parsed);
       Report.totalSegments := Some (ParsedMessage.totalSegments parsed);
       Report.analysisDate := Some JsDate.now_toISOString |}.
Proof.
  intros Hv Hvalid Hp Hc.
  unfold analyzeDataQuality, try_block, mbind, Body_bind, call.
  rewrite Hv, Hvalid. cbn [negb]. rewrite Hp, Hc, forEach_body_merge.
  reflexivity.
Qed.

(** The report is one of the three shapes. *)
Lemma report_shapes msg :
  (exists e, analyzeDataQuality msg = failure_report e)
  \/ (exists v, validateHL7Message msg = OK v
                /\ Validation.isValid v = false
                /\ Report.overallScore (analyzeDataQuality msg)
                   = Z.max 0 (100 - 30)
                /\ Report.isValid (analyzeDataQuality msg) = false)
  \/ (exists v parsed checks,
        validateHL7Message msg = OK v
        /\ Validation.isValid v = true
        /\ parseHL7Message msg = OK parsed
        /\ evaluate_all battery parsed = OK checks
        /\ Report.overallScore (analyzeDataQuality msg)
           = clamp (100 - totalPenalty checks)
        /\ Report.isValid (analyzeDataQuality msg) = true).
Proof.
  destruct (validateHL7Message msg) as [v | e] eqn:Hv.
  2: { left. exists e. now apply validator_throws. }
  destruct (Validation.isValid v) eqn:Hvalid.
  2: { right. left. exists v. rewrite (gate_fails msg v Hv Hvalid). auto. }
  destruct (parseHL7Message msg) as [parsed | e] eqn:Hp.
  2: { left. exists e. now apply (parser_throws msg v). }
  destruct (evaluate_all battery parsed) as [checks | e] eqn:Hc.
  2: { left. exists e. now apply (check_throws msg v parsed). }
  right. right. exists v, parsed, checks.
  rewrite (analysis_completes msg v parsed checks Hv Hvalid Hp Hc). auto 10.
Qed.

End Paths.

(** An array literal of calls throws exactly when one of the calls does. *)
Lemma evaluate_all_throws {A B : Type} (calls : list (A -> Exc B)) (a : A) :
  (exists call e, In call calls /\ call a = Err e) <->
  (exists e, evaluate_all calls a = Err e).
Proof.
  induction calls as [| c calls IH]; simpl.
  - split; [intros (? & ? & [] & _) | intros (? & ?); discriminate].
  - split.
    + intros (call & e & [-> | Hin] & Hcall).
      * rewrite Hcall. eauto.
      * destruct (c a); [| eauto].
        destruct (proj1 IH) as [e' He']; [eauto |]. rewrite He'. eauto.
    + intros (e & He). destruct (c a) as [b | e'] eqn:Hc.
      * destruct (evaluate_all calls a) as [bs | e''] eqn:Hrest;
          [discriminate |].
        destruct (proj2 IH) as (call & e0 & Hin & Hcall); [eauto |].
        exists call, e0. auto.
      * exists c, e'. auto.
Qed.

(** C1: for every input string the report of [analyzeDataQuality] has
    [0 <= overallScore <= 100], whichever of the three paths produced it
    (structural-gate failure, fault, completed analysis); and the score
    the engine leaves after merging any list of check results, whatever
    their penalties, is in that range. *)
Theorem C1_overallScore_between_0_and_100
  `{Hl7Parser} `{JsDate.Engine} (hl7Message : string) :
  0 <= Report.overallScore (analyzeDataQuality hl7Message) <= 100
  /\ forall checks : list CheckResult.t,
       let after :=
         (_ ← forEach_body checks merge;
          update_score (fun score => Z.max 0 (Z.min 100 score)))
           Locals.init in
       0 <= Locals.overallScore (fst after) <= 100.
Proof.
  split.
  - destruct (report_shapes hl7Message)
      as [[e ->] | [(v & _ & _ & -> & _)
                   | (v & p & cs & _ & _ & _ & _ & -> & _)]].
    + simpl. lia.
    + lia.
    + apply clamp_range.
  - intros checks. unfold mbind, Body_bind.
    rewrite forEach_body_merge. cbn. lia.
Qed.

(** C2: when the structural gate passes and the parser and the ten checks
    return, the score of the report is [clamp(100 - totalPenalty, 0, 100)],
    with [totalPenalty] the sum of the ten [scorePenalty] values, and the
    issues of the report are the issues of the ten checks, concatenated in
    the order of the battery. *)
Theorem C2_success_path_score_and_issues
  `{Hl7Parser} `{JsDate.Engine} (hl7Message : string)
  (validation : Validation.t) (parsed : ParsedMessage.t)
  (msh pid dates identifiers addresses phones consistency rules version
     : CheckResult.t) :
  validateHL7Message hl7Message = OK validation ->
  Validation.isValid validation = true ->
  parseHL7Message hl7Message = OK parsed ->
  checkMSHCompleteness parsed = OK msh ->
  checkPIDCompleteness parsed = OK pid ->
  checkDateFormats parsed = OK dates ->
  checkIdentifierFormats parsed = OK identifiers ->
  checkAddressFormats parsed = OK addresses ->
  checkPhoneFormats parsed = OK phones ->
  checkDataConsistency parsed = OK consistency ->
  checkBusinessRules parsed = OK rules ->
  checkVersionCompliance parsed = OK version ->
  let required := checkRequiredSegments parsed in
  let report := analyzeDataQuality hl7Message in
  Report.overallScore report =
    Z.max 0
      (Z.min 100
         (100 - (CheckResult.scorePenalty msh
                 + CheckResult.scorePenalty required
                 + CheckResult.scorePenalty pid
                 + CheckResult.scorePenalty dates
                 + CheckResult.scorePenalty identifiers
                 + CheckResult.scorePenalty addresses
                 + CheckResult.scorePenalty phones
                 + CheckResult.scorePenalty consistency
                 + CheckResult.scorePenalty rules
                 + CheckResult.scorePenalty version)))
  /\ Report.issues report =
       (CheckResult.issues msh ++ CheckResult.issues required
        ++ CheckResult.issues pid ++ CheckResult.issues dates
        ++ CheckResult.issues identifiers ++ CheckResult.issues addresses
        ++ CheckResult.issues phones ++ CheckResult.issues consistency
        ++ CheckResult.issues rules ++ CheckResult.issues version)%list.
Proof.
  intros Hv Hvalid Hp H1 H3 H4 H5 H6 H7 H8 H9 H10 required report.
  assert (Hall : evaluate_all battery parsed =
                 OK [msh; required; pid; dates; identifiers; addresses;
                     phones; consistency; rules; version]).
  { unfold battery. cbn [evaluate_all].
    rewrite H1, H3, H4, H5, H6, H7, H8, H9, H10. reflexivity. }
  subst report.
  rewrite (analysis_completes hl7Message validation parsed _ Hv Hvalid Hp Hall).
  cbn [Report.overallScore Report.issues map concat totalPenalty fold_right].
  rewrite app_nil_r. split; [| reflexivity].
  unfold clamp. do 2 f_equal. lia.
Qed.

Lemma C2_witness :
  let report :=
    @analyzeDataQuality PositionalParser.parser PositionalParser.engine
      Examples.problematicMessage in
  Report.overallScore report = 69 /\ length (Report.issues report) = 11%nat.
Proof.
  pose (parsed := PositionalParser.parse Examples.problematicMessage).
  destruct (@C2_success_path_score_and_issues
              PositionalParser.parser PositionalParser.engine
              Examples.problematicMessage
              (PositionalParser.validate Examples.problematicMessage)
              parsed
              (Examples.returned (checkMSHCompleteness parsed))
              (Examples.returned (checkPIDCompleteness parsed))
              (Examples.returned (checkDateFormats parsed))
              (Examples.returned (checkIdentifierFormats parsed))
              (Examples.returned (checkAddressFormats parsed))
              (Examples.returned (checkPhoneFormats parsed))
              (Examples.returned (checkDataConsistency parsed))
              (Examples.returned
                 (@checkBusinessRules PositionalParser.engine parsed))
              (Examples.returned (checkVersionCompliance parsed)))
    as [Hscore Hissues]; try (vm_compute; reflexivity).
  cbv zeta. rewrite Hscore, Hissues. vm_compute. split; reflexivity.
Defined.

(** C3: when the validator reports the message structurally invalid,
    [analyzeDataQuality] returns at once, without calling the parser or a
    check (the report is the same whatever the parser and the engine of
    the checks are): exactly one issue, of category Formatting, severity
    Critical and field [Message Structure], no recommendation,
    [isValid = false], and the score [max(0, 100 - 30) = 70]. *)
Theorem C3_structural_gate_failure
  `{Hl7Parser} `{JsDate.Engine} (hl7Message : string)
  (validation : Validation.t) :
  validateHL7Message hl7Message = OK validation ->
  Validation.isValid validation = false ->
  let report := analyzeDataQuality hl7Message in
  (exists i, Report.issues report = [i]
             /\ category i = FORMATTING
             /\ severity i = CRITICAL
             /\ field i = "Message Structure")
  /\ Report.recommendations report = []
  /\ Report.isValid report = false
  /\ Report.overallScore report = Z.max 0 (100 - 30)
  /\ Report.overallScore report = 70
  /\ forall (parse : string -> Exc ParsedMessage.t) (engine : JsDate.Engine),
       @analyzeDataQuality
         {| validateHL7Message := validateHL7Message;
            parseHL7Message := parse |} engine hl7Message
       = report.
Proof.
  intros Hv Hvalid report. subst report.
  rewrite (gate_fails hl7Message validation Hv Hvalid).
  cbn [Report.issues Report.recommendations Report.isValid
         Report.overallScore].
  repeat split.
  - exists (invalid_message_format validation). auto.
  - intros parse engine.
    apply (@gate_fails
             {| validateHL7Message := validateHL7Message;
                parseHL7Message := parse |} engine hl7Message validation
             Hv Hvalid).
Qed.

Lemma C3_witness :
  let report :=
    @analyzeDataQuality PositionalParser.parser PositionalParser.engine
      Examples.notHL7 in
  Report.overallScore report = 70 /\ Report.isValid report = false.
Proof.
  destruct (@C3_structural_gate_failure
              PositionalParser.parser PositionalParser.engine Examples.notHL7
              (PositionalParser.validate Examples.notHL7)
              eq_refl eq_refl) as (_ & _ & Hvalid & _ & Hscore & _).
  split; assumption.
Defined.

(** C4: when, after the structural gate has passed, the parser throws or
    one of the ten checks throws, the report has exactly one issue (no
    finding of a check that had returned is in it), of category Formatting,
    severity Critical and field [Message Parsing]; its score is [0],
    [isValid] is [false], and its recommendations are the one generic
    sentence. *)
Theorem C4_fault_after_gate
  `{Hl7Parser} `{JsDate.Engine} (hl7Message : string)
  (validation : Validation.t) :
  validateHL7Message hl7Message = OK validation ->
  Validation.isValid validation = true ->
  (exists e, parseHL7Message hl7Message = Err e)
  \/ (exists parsed check e,
        parseHL7Message hl7Message = OK parsed
        /\ In check battery
        /\ check parsed = Err e) ->
  let report := analyzeDataQuality hl7Message in
  (exists i, Report.issues report = [i]
             /\ category i = FORMATTING
             /\ severity i = CRITICAL
             /\ field i = "Message Parsing")
  /\ Report.overallScore report = 0
  /\ Report.isValid report = false
  /\ Report.recommendations report =
       ["Fix parsing errors before proceeding with quality analysis"].
Proof.
  intros Hv Hvalid Hfault report.
  assert (Hreport : exists e, report = failure_report e).
  { destruct Hfault as [[e Hp] | (parsed & check & e & Hp & Hin & Hcheck)].
    - exists e. now apply (parser_throws hl7Message validation).
    - destruct (proj1 (evaluate_all_throws battery parsed)) as [e' He'];
        [eauto |].
      exists e'. now apply (check_throws hl7Message validation parsed). }
  destruct Hreport as [e ->]. cbn.
  repeat split. exists (failed_to_parse e). auto.
Qed.

Lemma C4_witness :
  let report :=
    @analyzeDataQuality Examples.bareParser PositionalParser.engine
      getSampleADTMessage in
  Report.overallScore report = 0
  /\ Report.recommendations report =
       ["Fix parsing errors before proceeding with quality analysis"].
Proof.
  destruct (@C4_fault_after_gate
              Examples.bareParser PositionalParser.engine getSampleADTMessage
              {| Validation.isValid := true; Validation.errors := None |}
              eq_refl eq_refl)
    as (_ & Hscore & _ & Hrecs).
  - right. exists Examples.bareHeader, checkMSHCompleteness.
    eexists. split; [reflexivity |]. split; [left; reflexivity |].
    vm_compute. reflexivity.
  - split; assumption.
Defined.

(** ** Strings and segment lookup *)

Lemma prefix_spec p : forall s,
  String.prefix p s = true <-> exists rest, s = p ++ rest.
Proof.
  induction p as [| a p IH]; intros s.
  - split; [exists s; reflexivity | intros _; destruct s; reflexivity].
  - destruct s as [| b s].
    + split; [discriminate | intros [rest Hrest]; discriminate].
    + cbn [String.prefix]. destruct (ascii_dec a b) as [-> | Hne].
      * rewrite IH. split; intros [rest Hrest]; exists rest.
        -- now rewrite Hrest.
        -- now injection Hrest.
      * split; [discriminate |].
        intros [rest Hrest]. injection Hrest as Hab _. congruence.
Qed.

(** [includes] finds exactly the occurrences. *)
Lemma includes_spec sub s : includes sub s = true <-> contains s sub.
Proof.
  split.
  - induction s as [| c s IH]; cbn [includes].
    + destruct (String.prefix sub "") eqn:Hp; [| discriminate].
      intros _. apply prefix_spec in Hp. destruct Hp as [rest Hrest].
      exists "", rest. exact Hrest.
    + destruct (String.prefix sub (String c s)) eqn:Hp.
      * intros _. apply prefix_spec in Hp. destruct Hp as [rest Hrest].
        exists "", rest. exact Hrest.
      * intros Hs. destruct (IH Hs) as (before & after & ->).
        exists (String c before), after. reflexivity.
  - intros (before & after & ->).
    induction before as [| c before IH].
    + change ("" ++ sub ++ after) with (sub ++ after).
      assert (Hp : String.prefix sub (sub ++ after) = true)
        by (apply prefix_spec; eauto).
      destruct (sub ++ after); cbn [includes]; now rewrite Hp.
    + change (String c before ++ sub ++ after)
        with (String c (before ++ sub ++ after)).
      cbn [includes]. rewrite IH. now destruct (String.prefix _ _).
Qed.

Lemma or_else_empty s : or_else (Some s) "" = s.
Proof. now destruct s. Qed.

Lemma array_includes_spec x l : array_includes x l = true <-> In x l.
Proof.
  unfold array_includes. rewrite existsb_exists. split.
  - intros (y & Hin & Heq). apply String.eqb_eq in Heq. now subst.
  - intros Hin. exists x. split; [assumption | apply String.eqb_refl].
Qed.

Lemma segment_type_absent ty segs :
  (forall s, In s segs -> Segment.segmentType s <> ty) ->
  array_includes ty (map Segment.segmentType segs) = false
  /\ find_segment ty segs = None.
Proof.
  intros Habsent. split.
  - destruct (array_includes ty _) eqn:Hinc; [| reflexivity].
    apply array_includes_spec, in_map_iff in Hinc.
    destruct Hinc as (s & Hty & Hin). now destruct (Habsent s Hin).
  - unfold find_segment.
    destruct (List.find _ segs) as [s |] eqn:Hfind; [| reflexivity].
    apply find_some in Hfind. destruct Hfind as [Hin Heq].
    apply String.eqb_eq in Heq. now destruct (Habsent s Hin).
Qed.

Lemma segment_type_present ty segs :
  (exists s, In s segs /\ Segment.segmentType s = ty) ->
  array_includes ty (map Segment.segmentType segs) = true.
Proof.
  intros (s & Hin & <-). apply array_includes_spec. now apply in_map.
Qed.

(** C5: for a parsed message whose [messageType] contains [ADT] and whose
    segments include no [PID] segment, [checkRequiredSegments] produces the
    Critical issue [Missing PID segment] with its penalty of 15 (alone when
    a [PV1] segment is there, and followed by the [PV1] issue with 10 more
    otherwise), and [checkPIDCompleteness] returns no issue and a penalty
    of zero. *)
Theorem C5_missing_PID_segment
  (parsed : ParsedMessage.t) (messageType : string) :
  ParsedMessage.messageType parsed = Some messageType ->
  contains messageType "ADT" ->
  (forall s, In s (ParsedMessage.segments parsed) ->
             Segment.segmentType s <> "PID") ->
  let required := checkRequiredSegments parsed in
  severity missing_PID_segment = CRITICAL
  /\ issue missing_PID_segment = "Missing PID segment"
  /\ (((exists s, In s (ParsedMessage.segments parsed)
                  /\ Segment.segmentType s = "PV1")
       /\ CheckResult.issues required = [missing_PID_segment]
       /\ CheckResult.scorePenalty required = 15)
      \/ ((forall s, In s (ParsedMessage.segments parsed) ->
                     Segment.segmentType s <> "PV1")
          /\ CheckResult.issues required
             = [missing_PID_segment; missing_PV1_segment]
          /\ CheckResult.scorePenalty required = 15 + 10))
  /\ checkPIDCompleteness parsed =
       OK {| CheckResult.issues := [];
             CheckResult.recommendations := Some [];
             CheckResult.scorePenalty := 0 |}.
Proof.
  intros Htype Hadt Hnopid required.
  destruct (segment_type_absent "PID" _ Hnopid) as [Hinc Hfind].
  apply includes_spec in Hadt.
  split; [reflexivity |]. split; [reflexivity |]. split.
  - subst required. unfold checkRequiredSegments.
    rewrite Htype, or_else_empty, Hadt, Hinc. cbn [negb].
    destruct (array_includes "PV1"
                (map Segment.segmentType (ParsedMessage.segments parsed)))
      eqn:Hpv1.
    + left. split; [| split; reflexivity].
      apply array_includes_spec, in_map_iff in Hpv1.
      destruct Hpv1 as (s & Hty & Hin). eauto.
    + right. split; [| split; reflexivity].
      intros s Hin Hty.
      rewrite segment_type_present in Hpv1; [discriminate | eauto].
  - unfold checkPIDCompleteness. rewrite Hfind. reflexivity.
Qed.

Lemma C5_witness :
  let parsed := PositionalParser.parse Examples.noPatientMessage in
  CheckResult.issues (checkRequiredSegments parsed) = [missing_PID_segment]
  /\ CheckResult.scorePenalty (checkRequiredSegments parsed) = 15.
Proof.
  destruct (C5_missing_PID_segment
              (PositionalParser.parse Examples.noPatientMessage) "ADT^A01")
    as (_ & _ & [(_ & Hissues & Hpenalty) | (Hnopv1 & _)] & _).
  - vm_compute. reflexivity.
  - exists "", "^A01". reflexivity.
  - intros s Hin Hty.
    assert (Hpid : array_includes "PID"
                     (map Segment.segmentType
                        (ParsedMessage.segments
                           (PositionalParser.parse Examples.noPatientMessage)))
                   = true)
      by (apply segment_type_present; eauto).
    vm_compute in Hpid. discriminate Hpid.
  - split; assumption.
  - exfalso.
    assert (Hpv1 : array_includes "PV1"
                     (map Segment.segmentType
                        (ParsedMessage.segments
                           (PositionalParser.parse Examples.noPatientMessage)))
                   = true)
      by (vm_compute; reflexivity).
    apply array_includes_spec, in_map_iff in Hpv1.
    destruct Hpv1 as (s & Hty & Hin). exact (Hnopv1 s Hin Hty).
Defined.

(** The ten checks find nothing in the sample message. *)
Lemma sample_message_battery `{JsDate.Engine} :
  exists checks,
    evaluate_all battery (PositionalParser.parse getSampleADTMessage)
      = OK checks
    /\ totalPenalty checks = 0
    /\ concat (map CheckResult.issues checks) = [].
Proof.
  eexists. split; [vm_compute; reflexivity |]. split; reflexivity.
Qed.

(** C6: on the sample ADT message, parsed into its six segments with their
    fields under their HL7 numbers, the analysis gives the score 100 and no
    issue. *)
Theorem C6_sample_message_scores_100
  `{Hl7Parser} `{JsDate.Engine} (validation : Validation.t) :
  validateHL7Message getSampleADTMessage = OK validation ->
  Validation.isValid validation = true ->
  parseHL7Message getSampleADTMessage
    = OK (PositionalParser.parse getSampleADTMessage) ->
  let report := analyzeDataQuality getSampleADTMessage in
  Report.overallScore report = 100 /\ Report.issues report = [].
Proof.
  intros Hv Hvalid Hp report.
  destruct sample_message_battery as (checks & Hall & Hpenalty & Hissues).
  subst report.
  rewrite (analysis_completes _ validation _ checks Hv Hvalid Hp Hall).
  cbn [Report.overallScore Report.issues]. rewrite Hpenalty, Hissues.
  split; reflexivity.
Qed.

Lemma C6_witness :
  let report :=
    @analyzeDataQuality PositionalParser.parser PositionalParser.engine
      getSampleADTMessage in
  Report.overallScore report = 100 /\ Report.issues report = [].
Proof.
  exact (@C6_sample_message_scores_100
           PositionalParser.parser PositionalParser.engine
           (PositionalParser.validate getSampleADTMessage)
           eq_refl eq_refl eq_refl).
Defined.

(** ** The checks on a segment with its fields *)

Lemma field_value_parsed s key v :
  field_value s key = Some v ->
  exists fields, Segment.parsed s = Some fields /\ fields !! key = Some v.
Proof.
  unfold field_value. destruct (Segment.parsed s) as [fields |];
    [eauto | discriminate].
Qed.

Lemma find_segment_some ty segs s :
  find_segment ty segs = Some s -> In s segs /\ Segment.segmentType s = ty.
Proof.
  intros Hfind. apply find_some in Hfind. destruct Hfind as [Hin Heq].
  apply String.eqb_eq in Heq. auto.
Qed.

Lemma well_formed_find parsed ty s :
  well_formed parsed ->
  find_segment ty (ParsedMessage.segments parsed) = Some s ->
  exists fields, Segment.parsed s = Some fields.
Proof.
  intros Hwf Hfind. apply find_segment_some in Hfind.
  destruct Hfind as [Hin _]. specialize (Hwf s Hin).
  destruct (Segment.parsed s) as [fields |]; [eauto | congruence].
Qed.

Lemma patient_name_rule_appends v acc :
  patient_name_rule v acc = Acc_append acc (patient_name_rule v Acc.empty).
Proof. unfold patient_name_rule. rule_appends. Qed.

Lemma patient_identifier_rule_appends v acc :
  patient_identifier_rule v acc
  = Acc_append acc (patient_identifier_rule v Acc.empty).
Proof. unfold patient_identifier_rule. rule_appends. Qed.

Lemma date_of_birth_rule_appends v acc :
  date_of_birth_rule v acc = Acc_append acc (date_of_birth_rule v Acc.empty).
Proof. unfold date_of_birth_rule. rule_appends. Qed.

Lemma administrative_sex_rule_appends v acc :
  administrative_sex_rule v acc
  = Acc_append acc (administrative_sex_rule v Acc.empty).
Proof. unfold administrative_sex_rule. rule_appends. Qed.

Lemma date_format_rule_appends entry v acc :
  date_format_rule entry v acc
  = Acc_append acc (date_format_rule entry v Acc.empty).
Proof.
  destruct entry as [[segment fld] name]. unfold date_format_rule.
  rule_appends.
Qed.

(** [checkPIDCompleteness] on a message whose first [PID] segment has the
    field map [fields]: the four rules, in order. *)
Lemma checkPIDCompleteness_rules parsed pidSegment fields :
  find_segment "PID" (ParsedMessage.segments parsed) = Some pidSegment ->
  Segment.parsed pidSegment = Some fields ->
  checkPIDCompleteness parsed =
    OK (Acc.result_with_recommendations
          (administrative_sex_rule (fields !! "field8")
             (date_of_birth_rule (fields !! "field7")
                (patient_identifier_rule (fields !! "field3")
                   (patient_name_rule (fields !! "field5") Acc.empty))))).
Proof.
  intros Hfind Hparsed. unfold checkPIDCompleteness.
  rewrite Hfind, Hparsed. reflexivity.
Qed.

(** The issues and the penalty of [checkPIDCompleteness], rule by rule. *)
Lemma checkPIDCompleteness_sum parsed pidSegment fields :
  find_segment "PID" (ParsedMessage.segments parsed) = Some pidSegment ->
  Segment.parsed pidSegment = Some fields ->
  exists r,
    checkPIDCompleteness parsed = OK r
    /\ CheckResult.issues r =
         (Acc.issues (patient_name_rule (fields !! "field5") Acc.empty)
          ++ Acc.issues (patient_identifier_rule (fields !! "field3") Acc.empty)
          ++ Acc.issues (date_of_birth_rule (fields !! "field7") Acc.empty)
          ++ Acc.issues (administrative_sex_rule (fields !! "field8") Acc.empty))%list
    /\ CheckResult.scorePenalty r =
         Acc.scorePenalty (patient_name_rule (fields !! "field5") Acc.empty)
         + Acc.scorePenalty (patient_identifier_rule (fields !! "field3") Acc.empty)
         + Acc.scorePenalty (date_of_birth_rule (fields !! "field7") Acc.empty)
         + Acc.scorePenalty (administrative_sex_rule (fields !! "field8") Acc.empty).
Proof.
  intros Hfind Hparsed. eexists. split.
  - apply (checkPIDCompleteness_rules _ _ _ Hfind Hparsed).
  - rewrite administrative_sex_rule_appends, date_of_birth_rule_appends,
      patient_identifier_rule_appends.
    cbn [Acc.result_with_recommendations CheckResult.issues
           CheckResult.scorePenalty Acc_append Acc.issues Acc.scorePenalty].
    rewrite <- !app_assoc. split; [reflexivity | lia].
Qed.

(** The issues the three other rules can push are not about [PID-7]. *)
Lemma patient_name_rule_fields v i :
  In i (Acc.issues (patient_name_rule v Acc.empty)) -> field i = "PID-5".
Proof.
  unfold patient_name_rule. destruct (_ || _); cbn; intuition (subst; auto).
Qed.

Lemma patient_identifier_rule_fields v i :
  In i (Acc.issues (patient_identifier_rule v Acc.empty)) -> field i = "PID-3".
Proof.
  unfold patient_identifier_rule. destruct (_ || _); cbn;
    intuition (subst; auto).
Qed.

Lemma administrative_sex_rule_fields v i :
  In i (Acc.issues (administrative_sex_rule v Acc.empty)) -> field i = "PID-8".
Proof.
  unfold administrative_sex_rule. destruct (_ || _); [| destruct (negb _)];
    cbn; intuition (subst; auto).
Qed.

(** The birth-date rule on a value that is present. *)
Lemma date_of_birth_rule_malformed v :
  v <> "" ->
  Regex.test_anchored dateRegex v = false ->
  date_of_birth_rule (Some v) Acc.empty
  = Acc.push invalid_date_of_birth 2 Acc.empty.
Proof.
  intros Hv Htest. unfold date_of_birth_rule, dobRegex, truthy, is_str.
  apply String.eqb_neq in Hv. rewrite Hv. cbn [negb orb str].
  now rewrite Htest.
Qed.

Lemma date_of_birth_rule_well_formed v :
  v <> "" ->
  Regex.test_anchored dateRegex v = true ->
  date_of_birth_rule (Some v) Acc.empty = Acc.empty.
Proof.
  intros Hv Htest. unfold date_of_birth_rule, dobRegex, truthy, is_str.
  apply String.eqb_neq in Hv. rewrite Hv. cbn [negb orb str].
  now rewrite Htest.
Qed.

(** C7: for a parsed message whose [PID] segment has the birth date
    [1980/01/15], [checkPIDCompleteness] produces the Medium Formatting
    issue of field [PID-7] (invalid date-of-birth format); with the birth
    date [19800115] it produces no issue about [PID-7]. *)
Theorem C7_birth_date_format
  (slashed compact : ParsedMessage.t) (pid_slashed pid_compact : Segment.t) :
  find_segment "PID" (ParsedMessage.segments slashed) = Some pid_slashed ->
  field_value pid_slashed "field7" = Some "1980/01/15" ->
  find_segment "PID" (ParsedMessage.segments compact) = Some pid_compact ->
  field_value pid_compact "field7" = Some "19800115" ->
  (exists r, checkPIDCompleteness slashed = OK r
             /\ In invalid_date_of_birth (CheckResult.issues r))
  /\ severity invalid_date_of_birth = MEDIUM
  /\ category invalid_date_of_birth = FORMATTING
  /\ field invalid_date_of_birth = "PID-7"
  /\ (exists r, checkPIDCompleteness compact = OK r
                /\ forall i, In i (CheckResult.issues r) -> field i <> "PID-7").
Proof.
  intros Hslashed Hv Hcompact Hv'.
  apply field_value_parsed in Hv. destruct Hv as (fs & Hfs & Hf7).
  apply field_value_parsed in Hv'. destruct Hv' as (fc & Hfc & Hf7').
  destruct (checkPIDCompleteness_sum _ _ _ Hslashed Hfs)
    as (r & Hr & Hissues & _).
  destruct (checkPIDCompleteness_sum _ _ _ Hcompact Hfc)
    as (r' & Hr' & Hissues' & _).
  split; [| repeat (split; [reflexivity |])].
  - exists r. split; [assumption |]. rewrite Hissues, Hf7.
    rewrite date_of_birth_rule_malformed;
      [| discriminate | vm_compute; reflexivity].
    rewrite !in_app_iff. right. right. left. left. reflexivity.
  - exists r'. split; [assumption |]. intros i. rewrite Hissues', Hf7'.
    rewrite date_of_birth_rule_well_formed;
      [| discriminate | vm_compute; reflexivity].
    rewrite !in_app_iff. intros [Hi | [Hi | [[] | Hi]]] Hfield.
    + apply patient_name_rule_fields in Hi. congruence.
    + apply patient_identifier_rule_fields in Hi. congruence.
    + apply administrative_sex_rule_fields in Hi. congruence.
Qed.

Lemma C7_witness :
  (exists r,
      checkPIDCompleteness (PositionalParser.parse Examples.invalidFormatMessage)
      = OK r
      /\ In invalid_date_of_birth (CheckResult.issues r))
  /\ (exists r,
         checkPIDCompleteness (PositionalParser.parse getSampleADTMessage) = OK r
         /\ forall i, In i (CheckResult.issues r) -> field i <> "PID-7").
Proof.
  destruct (C7_birth_date_format
              (PositionalParser.parse Examples.invalidFormatMessage)
              (PositionalParser.parse getSampleADTMessage)
              (Examples.returned_segment
                 (find_segment "PID"
                    (ParsedMessage.segments
                       (PositionalParser.parse Examples.invalidFormatMessage))))
              (Examples.returned_segment
                 (find_segment "PID"
                    (ParsedMessage.segments
                       (PositionalParser.parse getSampleADTMessage)))))
    as (Hslashed & _ & _ & _ & Hcompact); try (vm_compute; reflexivity).
  split; assumption.
Defined.

(** ** The business rules *)

Lemma first_field_value parsed ty key seg :
  find_segment ty (ParsedMessage.segments parsed) = Some seg ->
  first_field parsed ty key = field_value seg key.
Proof. intros Hfind. unfold first_field. now rewrite Hfind. Qed.

Section BusinessRules.

Context `{JsDate.Engine}.

Lemma visit_dates_rule_appends a b acc :
  visit_dates_rule a b acc = Acc_append acc (visit_dates_rule a b Acc.empty).
Proof. unfold visit_dates_rule. rule_appends. Qed.

Lemma life_dates_rule_appends a b acc :
  life_dates_rule a b acc = Acc_append acc (life_dates_rule a b Acc.empty).
Proof. unfold life_dates_rule. rule_appends. Qed.

(** [checkBusinessRules] on a well-formed message: the visit rule, then
    the birth and death rule. *)
Lemma checkBusinessRules_rules parsed :
  well_formed parsed ->
  checkBusinessRules parsed =
    OK (Acc.result
          (life_dates_rule (first_field parsed "PID" "field7")
             (first_field parsed "PID" "field29")
             (visit_dates_rule (first_field parsed "PV1" "field44")
                (first_field parsed "PV1" "field45") Acc.empty))).
Proof.
  intros Hwf. unfold checkBusinessRules, first_field, field_value.
  destruct (find_segment "PV1" _) as [pv1 |] eqn:Hpv1;
    destruct (find_segment "PID" _) as [pid |] eqn:Hpid.
  - destruct (well_formed_find _ _ _ Hwf Hpv1) as [f1 ->].
    destruct (well_formed_find _ _ _ Hwf Hpid) as [f2 ->].
    reflexivity.
  - destruct (well_formed_find _ _ _ Hwf Hpv1) as [f1 ->]. reflexivity.
  - destruct (well_formed_find _ _ _ Hwf Hpid) as [f2 ->]. reflexivity.
  - reflexivity.
Qed.

(** A time of day after the eight digits of the date is not read. *)
Lemma of_field_date_only v :
  JsDate.of_field v = JsDate.of_field (substring0 8 v).
Proof.
  unfold JsDate.of_field. f_equal. f_equal. unfold substring0.
  generalize 8%nat. intros n. revert v.
  induction n as [| n IH]; intros [| c v]; cbn; try reflexivity.
  now rewrite <- IH.
Qed.

Lemma life_dates_rule_cases b d :
  life_dates_rule b d Acc.empty = Acc.empty
  \/ life_dates_rule b d Acc.empty = Acc.push death_before_birth 5 Acc.empty.
Proof.
  unfold life_dates_rule. destruct (_ && _); [| auto].
  destruct (JsDate.lt _ _); auto.
Qed.

(** C8: for a parsed message with a [PV1] segment whose admit field is
    [20240110] and whose discharge field is [20240105],
    [checkBusinessRules] produces the High issue [Discharge date before
    admit date] with its penalty of 5 (what follows it is the issue of
    the birth and death dates, with its own 5, or nothing); with the two
    values swapped it does not produce that issue.  The comparison reads
    the first eight characters of the two fields only. *)
Theorem C8_discharge_before_admit
  (late early : ParsedMessage.t) (pv1_late pv1_early : Segment.t) :
  well_formed late ->
  find_segment "PV1" (ParsedMessage.segments late) = Some pv1_late ->
  field_value pv1_late "field44" = Some "20240110" ->
  field_value pv1_late "field45" = Some "20240105" ->
  well_formed early ->
  find_segment "PV1" (ParsedMessage.segments early) = Some pv1_early ->
  field_value pv1_early "field44" = Some "20240105" ->
  field_value pv1_early "field45" = Some "20240110" ->
  (exists r rest,
      checkBusinessRules late = OK r
      /\ CheckResult.issues r = discharge_before_admit :: rest
      /\ CheckResult.scorePenalty r = 5 + 5 * Z.of_nat (length rest)
      /\ (rest = [] \/ rest = [death_before_birth]))
  /\ severity discharge_before_admit = HIGH
  /\ issue discharge_before_admit = "Discharge date before admit date"
  /\ (exists r, checkBusinessRules early = OK r
                /\ ~ In discharge_before_admit (CheckResult.issues r))
  /\ (forall v, JsDate.of_field v = JsDate.of_field (substring0 8 v)).
Proof.
  intros Hwf Hpv1 H44 H45 Hwf' Hpv1' H44' H45'.
  split; [| split; [reflexivity | split; [reflexivity | split]]].
  - rewrite (checkBusinessRules_rules late Hwf).
    rewrite life_dates_rule_appends.
    rewrite (first_field_value _ _ "field44" _ Hpv1), H44.
    rewrite (first_field_value _ _ "field45" _ Hpv1), H45.
    assert (Hvisit : visit_dates_rule (Some "20240110") (Some "20240105")
                       Acc.empty
                     = Acc.push discharge_before_admit 5 Acc.empty)
      by (vm_compute; reflexivity).
    rewrite Hvisit.
    destruct (life_dates_rule_cases (first_field late "PID" "field7")
                (first_field late "PID" "field29")) as [-> | ->].
    + eexists. exists []. split; [reflexivity |]. cbn. auto.
    + eexists. exists [death_before_birth]. split; [reflexivity |].
      cbn. auto.
  - rewrite (checkBusinessRules_rules early Hwf').
    rewrite life_dates_rule_appends.
    rewrite (first_field_value _ _ "field44" _ Hpv1'), H44'.
    rewrite (first_field_value _ _ "field45" _ Hpv1'), H45'.
    assert (Hvisit : visit_dates_rule (Some "20240105") (Some "20240110")
                       Acc.empty
                     = Acc.empty)
      by (vm_compute; reflexivity).
    rewrite Hvisit.
    destruct (life_dates_rule_cases (first_field early "PID" "field7")
                (first_field early "PID" "field29")) as [-> | ->];
      eexists; (split; [reflexivity |]); cbn.
    + tauto.
    + intros [Heq | []]. discriminate Heq.
  - apply of_field_date_only.
Qed.

End BusinessRules.

Lemma visit_well_formed a b : well_formed (Examples.visit a b).
Proof. intros s [<- | []]. discriminate. Qed.

Lemma C8_witness :
  (exists r rest,
      @checkBusinessRules PositionalParser.engine
        (Examples.visit "20240110" "20240105") = OK r
      /\ CheckResult.issues r = discharge_before_admit :: rest
      /\ CheckResult.scorePenalty r = 5 + 5 * Z.of_nat (length rest)
      /\ (rest = [] \/ rest = [death_before_birth]))
  /\ (exists r,
         @checkBusinessRules PositionalParser.engine
           (Examples.visit "20240105" "20240110") = OK r
         /\ ~ In discharge_before_admit (CheckResult.issues r)).
Proof.
  destruct (@C8_discharge_before_admit PositionalParser.engine
              (Examples.visit "20240110" "20240105")
              (Examples.visit "20240105" "20240110")
              (Examples.returned_segment
                 (find_segment "PV1"
                    (ParsedMessage.segments
                       (Examples.visit "20240110" "20240105"))))
              (Examples.returned_segment
                 (find_segment "PV1"
                    (ParsedMessage.segments
                       (Examples.visit "20240105" "20240110")))))
    as (Hlate & _ & _ & Hearly & _);
    try apply visit_well_formed; try (vm_compute; reflexivity).
  split; assumption.
Defined.

(** ** The checks return on a well-formed message *)

Lemma forEach_returns {A S : Type} (l : list A) (body : S -> A -> Exc S) :
  (forall s x, In x l -> exists s', body s x = OK s') ->
  forall s, exists s', forEach l body s = OK s'.
Proof.
  induction l as [| x l IH]; intros Hbody s; cbn [forEach].
  - eauto.
  - destruct (Hbody s x (or_introl eq_refl)) as [s' ->].
    apply IH. intros s0 y Hy. apply Hbody. now right.
Qed.

Section Returns.

Context `{JsDate.Engine}.
Variable parsed : ParsedMessage.t.
Hypothesis Hwf : well_formed parsed.

Lemma checkMSHCompleteness_returns :
  exists r, checkMSHCompleteness parsed = OK r.
Proof.
  unfold checkMSHCompleteness. found_fields Hwf; [| eauto].
  destruct (forEach_returns requiredFields
              (fun acc '(fld, name) =>
                 v ← prop (Some fields) fld;
                 OK (if negb (truthy v) || is_str v "" || is_str v "Unknown"
                     then Acc.push (missing_MSH_field fld name) 2 acc
                     else acc))) with (s := Acc.empty) as [acc Hacc].
  { intros s [fld name] _. cbn. eauto. }
  cbn [mbind Exc_bind] in *. rewrite Hacc. cbn. eauto.
Qed.

Lemma checkPIDCompleteness_returns :
  exists r, checkPIDCompleteness parsed = OK r.
Proof. unfold checkPIDCompleteness. found_fields Hwf; cbn; eauto. Qed.

Lemma checkDateFormats_entry_returns acc entry :
  exists acc', checkDateFormats_entry parsed acc entry = OK acc'.
Proof.
  destruct entry as [[segment fld] name]. unfold checkDateFormats_entry.
  found_fields Hwf; cbn; eauto.
Qed.

Lemma checkDateFormats_returns :
  exists r, checkDateFormats parsed = OK r.
Proof.
  unfold checkDateFormats.
  destruct (forEach_returns dateFields (checkDateFormats_entry parsed))
    with (s := Acc.empty) as [acc Hacc].
  { intros s x _. apply checkDateFormats_entry_returns. }
  cbn [mbind Exc_bind]. rewrite Hacc. eauto.
Qed.

Lemma checkIdentifierFormats_returns :
  exists r, checkIdentifierFormats parsed = OK r.
Proof. unfold checkIdentifierFormats. found_fields Hwf; cbn; eauto. Qed.

Lemma checkAddressFormats_returns :
  exists r, checkAddressFormats parsed = OK r.
Proof. unfold checkAddressFormats. found_fields Hwf; cbn; eauto. Qed.

Lemma checkPhoneFormats_returns :
  exists r, checkPhoneFormats parsed = OK r.
Proof.
  unfold checkPhoneFormats. found_fields Hwf; [| eauto].
  destruct (forEach_returns phoneFields
              (fun acc '(fld, name) =>
                 value ← prop (Some fields) fld;
                 OK (if truthy value then
                       let phone := str value in
                       if negb (Regex.test phoneRegex phone)
                       then Acc.push (invalid_phone fld name phone) 1 acc
                       else acc
                     else acc))) with (s := Acc.empty) as [acc Hacc].
  { intros s [fld name] _. cbn. eauto. }
  cbn [mbind Exc_bind] in *. rewrite Hacc. eauto.
Qed.

Lemma checkDataConsistency_returns :
  exists r, checkDataConsistency parsed = OK r.
Proof.
  unfold checkDataConsistency.
  destruct (find_segment "PID" _); [| eauto].
  found_fields Hwf; cbn; eauto.
Qed.

Lemma checkBusinessRules_returns :
  exists r, checkBusinessRules parsed = OK r.
Proof. rewrite (checkBusinessRules_rules parsed Hwf). eauto. Qed.

Lemma checkVersionCompliance_returns :
  exists r, checkVersionCompliance parsed = OK r.
Proof. unfold checkVersionCompliance. found_fields Hwf; cbn; eauto. Qed.

(** The ten checks return on a well-formed message. *)
Lemma battery_returns : exists checks, evaluate_all battery parsed = OK checks.
Proof.
  unfold battery. cbn [evaluate_all].
  destruct checkMSHCompleteness_returns as [? ->].
  destruct checkPIDCompleteness_returns as [? ->].
  destruct checkDateFormats_returns as [? ->].
  destruct checkIdentifierFormats_returns as [? ->].
  destruct checkAddressFormats_returns as [? ->].
  destruct checkPhoneFormats_returns as [? ->].
  destruct checkDataConsistency_returns as [? ->].
  destruct checkBusinessRules_returns as [? ->].
  destruct checkVersionCompliance_returns as [? ->].
  eauto.
Qed.

End Returns.

(** ** No check fills its [recommendations] *)

Lemma battery_recommendations `{JsDate.Engine} parsed check r :
  In check battery ->
  check parsed = OK r ->
  pushed_recommendations r = [].
Proof.
  unfold battery. cbn [In].
  intros [<- | [<- | [<- | [<- | [<- | [<- | [<- | [<- | [<- | [<- | []]]]]]]]]]]
    Hr.
  - unfold checkMSHCompleteness in Hr. returned_cases Hr.
  - injection Hr as <-. reflexivity.
  - unfold checkPIDCompleteness in Hr. returned_cases Hr.
  - unfold checkDateFormats in Hr. returned_cases Hr.
  - unfold checkIdentifierFormats in Hr. returned_cases Hr.
  - unfold checkAddressFormats in Hr. returned_cases Hr.
  - unfold checkPhoneFormats in Hr. returned_cases Hr.
  - unfold checkDataConsistency in Hr. returned_cases Hr.
  - unfold checkBusinessRules in Hr. returned_cases Hr.
  - unfold checkVersionCompliance in Hr. returned_cases Hr.
Qed.

Lemma evaluate_all_results {A B : Type} (calls : list (A -> Exc B)) (a : A) :
  forall bs b, evaluate_all calls a = OK bs -> In b bs ->
               exists call, In call calls /\ call a = OK b.
Proof.
  induction calls as [| c calls IH]; cbn [evaluate_all]; intros bs b Hbs Hb.
  - injection Hbs as <-. destruct Hb.
  - destruct (c a) as [b0 |] eqn:Hc; [| discriminate].
    destruct (evaluate_all calls a) as [bs0 |]; [| discriminate].
    injection Hbs as <-. destruct Hb as [<- | Hb].
    + exists c. split; [now left | assumption].
    + destruct (IH bs0 b eq_refl Hb) as (call & Hin & Hcall).
      exists call. split; [now right | assumption].
Qed.

Lemma concat_all_nil {A B : Type} (f : A -> list B) (l : list A) :
  (forall x, In x l -> f x = []) -> concat (map f l) = [].
Proof.
  induction l as [| x l IH]; intros Hall; cbn; [reflexivity |].
  rewrite (Hall x (or_introl eq_refl)), IH; [reflexivity |].
  intros y Hy. apply Hall. now right.
Qed.

(** C9: for a message that passes the structural gate and that the parser
    turns into a well-formed parsed message, the analysis completes and the
    recommendations of its report are empty: no check of the battery
    returns a recommendation (the arrays of [checkMSHCompleteness] and
    [checkPIDCompleteness] stay empty, the other checks return none), and
    the recommendation of an issue is not copied into the list of the
    report. *)
Theorem C9_recommendations_empty
  `{Hl7Parser} `{JsDate.Engine} (hl7Message : string)
  (validation : Validation.t) (parsed : ParsedMessage.t) :
  validateHL7Message hl7Message = OK validation ->
  Validation.isValid validation = true ->
  parseHL7Message hl7Message = OK parsed ->
  well_formed parsed ->
  let report := analyzeDataQuality hl7Message in
  Report.isValid report = true
  /\ Report.recommendations report = []
  /\ (forall check r,
         In check battery -> check parsed = OK r ->
         CheckResult.recommendations r = None
         \/ CheckResult.recommendations r = Some []).
Proof.
  intros Hv Hvalid Hp Hwf report.
  destruct (battery_returns parsed Hwf) as [checks Hall]. subst report.
  rewrite (analysis_completes _ validation parsed checks Hv Hvalid Hp Hall).
  cbn [Report.isValid Report.recommendations].
  split; [reflexivity |]. split.
  - rewrite concat_all_nil; [reflexivity |].
    intros r Hr.
    destruct (evaluate_all_results _ _ _ _ Hall Hr) as (check & Hin & Hcheck).
    apply (battery_recommendations parsed check r Hin Hcheck).
  - intros check r Hin Hcheck.
    pose proof (battery_recommendations parsed check r Hin Hcheck) as Hnone.
    unfold pushed_recommendations in Hnone.
    destruct (CheckResult.recommendations r); [right; now subst | now left].
Qed.

Lemma parse_well_formed raw : well_formed (PositionalParser.parse raw).
Proof.
  intros s Hin. cbn in Hin. apply in_map_iff in Hin.
  destruct Hin as (line & <- & _). unfold PositionalParser.parse_segment.
  destruct (split "|" line); discriminate.
Qed.

Lemma C9_witness :
  let report :=
    @analyzeDataQuality PositionalParser.parser PositionalParser.engine
      Examples.invalidFormatMessage in
  Report.isValid report = true /\ Report.recommendations report = [].
Proof.
  destruct (@C9_recommendations_empty
              PositionalParser.parser PositionalParser.engine
              Examples.invalidFormatMessage
              (PositionalParser.validate Examples.invalidFormatMessage)
              (PositionalParser.parse Examples.invalidFormatMessage)
              eq_refl eq_refl eq_refl
              (parse_well_formed Examples.invalidFormatMessage))
    as (Hvalid & Hrecs & _).
  split; assumption.
Defined.

(** ** The date-format sweep *)

Section Sweep.

Variable parsed : ParsedMessage.t.
Hypothesis Hwf : well_formed parsed.

Lemma checkDateFormats_entry_rule acc entry :
  checkDateFormats_entry parsed acc entry
  = OK (date_format_rule entry (date_field parsed entry) acc).
Proof.
  destruct entry as [[segment fld] name].
  unfold checkDateFormats_entry, date_field, first_field, field_value.
  destruct (find_segment segment _) as [seg |] eqn:Hfind; [| reflexivity].
  destruct (well_formed_find _ _ _ Hwf Hfind) as [fields ->]. reflexivity.
Qed.

Lemma forEach_date_rules entries :
  forall acc,
    forEach entries (checkDateFormats_entry parsed) acc
    = OK (fold_left
            (fun acc entry =>
               date_format_rule entry (date_field parsed entry) acc)
            entries acc).
Proof.
  induction entries as [| entry entries IH]; intros acc; cbn [forEach].
  - reflexivity.
  - rewrite checkDateFormats_entry_rule. apply IH.
Qed.

(** The penalty of the sweep is the sum over the six date fields. *)
Lemma checkDateFormats_sum :
  exists r,
    checkDateFormats parsed = OK r
    /\ CheckResult.issues r =
         concat (map (fun entry =>
                        Acc.issues
                          (date_format_rule entry (date_field parsed entry)
                             Acc.empty))
                     dateFields)
    /\ CheckResult.scorePenalty r =
         fold_right Z.add 0
           (map (fun entry =>
                   Acc.scorePenalty
                     (date_format_rule entry (date_field parsed entry)
                        Acc.empty))
                dateFields).
Proof.
  unfold checkDateFormats. rewrite forEach_date_rules.
  eexists. split; [reflexivity |].
  unfold dateFields. cbn [fold_left map concat fold_right mbind Exc_bind].
  repeat (rewrite date_format_rule_appends;
          match goal with
          | |- context [Acc_append ?a (date_format_rule ?e ?v Acc.empty)] =>
              generalize (date_format_rule e v Acc.empty); intros ?
          end).
  cbn. rewrite !app_nil_r, <- !app_assoc. split; [reflexivity | lia].
Qed.

End Sweep.

(** ** Replacing a field of the first segment of a type *)

Lemma find_set_field_other ty key value ty' segs :
  ty' <> ty ->
  find_segment ty' (set_field_in ty key value segs) = find_segment ty' segs.
Proof.
  intros Hne. unfold find_segment.
  induction segs as [| s segs IH]; cbn [set_field_in]; [reflexivity |].
  destruct (String.eqb_spec (Segment.segmentType s) ty) as [Hty | Hty].
  - cbn [List.find Segment.segmentType]. rewrite Hty.
    apply String.eqb_neq in Hne. rewrite String.eqb_sym in Hne.
    now rewrite Hne.
  - cbn [List.find]. now rewrite IH.
Qed.

Lemma find_set_field_same ty key value segs s :
  find_segment ty segs = Some s ->
  find_segment ty (set_field_in ty key value segs)
  = Some {| Segment.segmentType := Segment.segmentType s;
            Segment.parsed := insert key value <$> Segment.parsed s |}.
Proof.
  unfold find_segment.
  induction segs as [| s0 segs IH]; cbn [set_field_in List.find];
    [discriminate |].
  destruct (String.eqb_spec (Segment.segmentType s0) ty) as [Hty | Hty].
  - intros [= ->]. cbn [List.find Segment.segmentType].
    rewrite Hty, String.eqb_refl. reflexivity.
  - intros Hfind. cbn [List.find].
    apply String.eqb_neq in Hty. rewrite Hty. now apply IH.
Qed.

Lemma set_field_well_formed ty key value parsed :
  well_formed parsed -> well_formed (set_field ty key value parsed).
Proof.
  unfold well_formed, set_field. cbn [ParsedMessage.segments].
  induction (ParsedMessage.segments parsed) as [| s0 segs IH];
    intros Hwf s; cbn [set_field_in]; [intros [] |].
  destruct (String.eqb (Segment.segmentType s0) ty).
  - intros [<- | Hin].
    + cbn [Segment.parsed]. specialize (Hwf s0 (or_introl eq_refl)).
      destruct (Segment.parsed s0); [discriminate | congruence].
    + apply Hwf. now right.
  - intros [<- | Hin].
    + apply Hwf. now left.
    + apply IH; [| assumption]. intros s' Hs'. apply Hwf. now right.
Qed.

(** What the checks read in the message after the replacement. *)
Lemma first_field_set_field parsed ty key value seg fields ty' key' :
  find_segment ty (ParsedMessage.segments parsed) = Some seg ->
  Segment.parsed seg = Some fields ->
  first_field (set_field ty key value parsed) ty' key'
  = if String.eqb ty' ty && String.eqb key' key then Some value
    else first_field parsed ty' key'.
Proof.
  intros Hfind Hfields. unfold first_field, set_field.
  cbn [ParsedMessage.segments].
  destruct (String.eqb_spec ty' ty) as [-> | Hty]; cbn [andb].
  - rewrite (find_set_field_same _ key value _ _ Hfind), Hfind.
    unfold field_value. cbn [Segment.parsed]. rewrite Hfields. cbn.
    destruct (String.eqb_spec key' key) as [-> | Hkey].
    + apply lookup_insert_eq.
    + apply lookup_insert_ne. congruence.
  - now rewrite find_set_field_other.
Qed.

(** [checkPIDCompleteness] in terms of what it reads. *)
Lemma checkPIDCompleteness_read parsed pidSegment fields :
  find_segment "PID" (ParsedMessage.segments parsed) = Some pidSegment ->
  Segment.parsed pidSegment = Some fields ->
  exists r,
    checkPIDCompleteness parsed = OK r
    /\ CheckResult.issues r =
         (Acc.issues (patient_name_rule (first_field parsed "PID" "field5")
                        Acc.empty)
          ++ Acc.issues (patient_identifier_rule
                           (first_field parsed "PID" "field3") Acc.empty)
          ++ Acc.issues (date_of_birth_rule (first_field parsed "PID" "field7")
                           Acc.empty)
          ++ Acc.issues (administrative_sex_rule
                           (first_field parsed "PID" "field8") Acc.empty))%list
    /\ CheckResult.scorePenalty r =
         Acc.scorePenalty (patient_name_rule (first_field parsed "PID" "field5")
                             Acc.empty)
         + Acc.scorePenalty (patient_identifier_rule
                               (first_field parsed "PID" "field3") Acc.empty)
         + Acc.scorePenalty (date_of_birth_rule
                               (first_field parsed "PID" "field7") Acc.empty)
         + Acc.scorePenalty (administrative_sex_rule
                               (first_field parsed "PID" "field8") Acc.empty).
Proof.
  intros Hfind Hfields.
  rewrite !(first_field_value _ _ _ _ Hfind). unfold field_value.
  rewrite Hfields. apply (checkPIDCompleteness_sum _ _ _ Hfind Hfields).
Qed.

Lemma date_format_rule_malformed segment fld name v :
  v <> "" ->
  Regex.test_anchored dateRegex v = false ->
  date_format_rule (segment, fld, name) (Some v) Acc.empty
  = Acc.push (invalid_date_format segment fld name v) 1 Acc.empty.
Proof.
  intros Hv Htest. unfold date_format_rule, truthy.
  apply String.eqb_neq in Hv. rewrite Hv. cbn [negb str]. now rewrite Htest.
Qed.

Lemma date_format_rule_well_formed entry v :
  v <> "" ->
  Regex.test_anchored dateRegex v = true ->
  date_format_rule entry (Some v) Acc.empty = Acc.empty.
Proof.
  intros Hv Htest. destruct entry as [[segment fld] name].
  unfold date_format_rule, truthy.
  apply String.eqb_neq in Hv. rewrite Hv. cbn [negb str]. now rewrite Htest.
Qed.

(** The results of the third and fourth checks are in what the battery
    returns. *)
Lemma battery_third_fourth `{JsDate.Engine} parsed checks r3 r4 :
  evaluate_all battery parsed = OK checks ->
  checkPIDCompleteness parsed = OK r3 ->
  checkDateFormats parsed = OK r4 ->
  exists before between after,
    checks = (before ++ r3 :: between ++ r4 :: after)%list.
Proof.
  unfold battery. cbn [evaluate_all]. intros Hall H3 H4.
  rewrite H3, H4 in Hall.
  destruct (checkMSHCompleteness parsed) as [r1 |]; [| discriminate Hall].
  destruct (checkIdentifierFormats parsed) as [r5 |]; [| discriminate Hall].
  destruct (checkAddressFormats parsed) as [r6 |]; [| discriminate Hall].
  destruct (checkPhoneFormats parsed) as [r7 |]; [| discriminate Hall].
  destruct (checkDataConsistency parsed) as [r8 |]; [| discriminate Hall].
  destruct (checkBusinessRules parsed) as [r9 |]; [| discriminate Hall].
  destruct (checkVersionCompliance parsed) as [r10 |]; [| discriminate Hall].
  injection Hall as <-.
  exists [r1; checkRequiredSegments parsed], [], [r5; r6; r7; r8; r9; r10].
  reflexivity.
Qed.

(** C10: for a well-formed parsed message whose [PID] segment has a birth
    date that is present and fails the date pattern, the battery returns
    two distinct Medium Formatting issues of field [PID-7], one from
    [checkPIDCompleteness] and one from [checkDateFormats].  Against the
    same message with a well-formed birth date, the penalty of the first
    check is 2 higher and that of the second 1 higher: the value costs 3
    points in these two checks. *)
Theorem C10_malformed_birth_date_counted_twice
  `{JsDate.Engine} (parsed : ParsedMessage.t) (pidSegment : Segment.t)
  (birthDate wellFormed : string) :
  well_formed parsed ->
  find_segment "PID" (ParsedMessage.segments parsed) = Some pidSegment ->
  field_value pidSegment "field7" = Some birthDate ->
  birthDate <> "" ->
  Regex.test_anchored dateRegex birthDate = false ->
  wellFormed <> "" ->
  Regex.test_anchored dateRegex wellFormed = true ->
  let fromCompleteness := invalid_date_of_birth in
  let fromSweep :=
    invalid_date_format "PID" "field7" "Date of Birth" birthDate in
  let repaired := set_field "PID" "field7" wellFormed parsed in
  exists checks completeness sweep completeness' sweep',
    evaluate_all battery parsed = OK checks
    /\ checkPIDCompleteness parsed = OK completeness
    /\ checkDateFormats parsed = OK sweep
    /\ checkPIDCompleteness repaired = OK completeness'
    /\ checkDateFormats repaired = OK sweep'
    /\ In fromCompleteness (CheckResult.issues completeness)
    /\ In fromSweep (CheckResult.issues sweep)
    /\ (exists before between after,
           concat (map CheckResult.issues checks)
           = (before ++ fromCompleteness :: between ++ fromSweep :: after)%list)
    /\ fromCompleteness <> fromSweep
    /\ field fromCompleteness = "PID-7" /\ field fromSweep = "PID-7"
    /\ severity fromCompleteness = MEDIUM /\ severity fromSweep = MEDIUM
    /\ category fromCompleteness = FORMATTING
    /\ category fromSweep = FORMATTING
    /\ CheckResult.scorePenalty completeness
       = CheckResult.scorePenalty completeness' + 2
    /\ CheckResult.scorePenalty sweep = CheckResult.scorePenalty sweep' + 1
    /\ CheckResult.scorePenalty completeness + CheckResult.scorePenalty sweep
       = CheckResult.scorePenalty completeness'
         + CheckResult.scorePenalty sweep' + 3.
Proof.
  intros Hwf Hfind Hv Hpresent Hbad Hpresent' Hgood
    fromCompleteness fromSweep repaired.
  destruct (field_value_parsed _ _ _ Hv) as (fields & Hfields & Hf7).
  assert (Hwf' : well_formed repaired) by now apply set_field_well_formed.
  assert (Hread : forall ty key,
             first_field repaired ty key
             = if String.eqb ty "PID" && String.eqb key "field7"
               then Some wellFormed else first_field parsed ty key).
  { intros ty key.
    apply (first_field_set_field _ _ _ _ _ _ _ _ Hfind Hfields). }
  assert (Hfind' : exists seg fields',
             find_segment "PID" (ParsedMessage.segments repaired) = Some seg
             /\ Segment.parsed seg = Some fields').
  { eexists. exists (<["field7" := wellFormed]> fields). split.
    - apply (find_set_field_same _ "field7" wellFormed _ _ Hfind).
    - cbn [Segment.parsed]. now rewrite Hfields. }
  destruct Hfind' as (seg' & fields' & Hfind' & Hfields').
  destruct (battery_returns parsed Hwf) as [checks Hchecks].
  destruct (checkPIDCompleteness_read _ _ _ Hfind Hfields)
    as (r3 & Hr3 & Hissues3 & Hpenalty3).
  destruct (checkPIDCompleteness_read _ _ _ Hfind' Hfields')
    as (r3' & Hr3' & _ & Hpenalty3').
  destruct (checkDateFormats_sum parsed Hwf)
    as (r4 & Hr4 & Hissues4 & Hpenalty4).
  destruct (checkDateFormats_sum repaired Hwf')
    as (r4' & Hr4' & _ & Hpenalty4').
  assert (Hbirth : first_field parsed "PID" "field7" = Some birthDate)
    by now rewrite (first_field_value _ _ _ _ Hfind).
  rewrite !Hread in Hpenalty3'.
  cbn [String.eqb Ascii.eqb Bool.eqb andb] in Hpenalty3'.
  rewrite Hbirth in Hissues3, Hpenalty3.
  rewrite (date_of_birth_rule_malformed _ Hpresent Hbad) in Hissues3, Hpenalty3.
  rewrite (date_of_birth_rule_well_formed _ Hpresent' Hgood) in Hpenalty3'.
  unfold dateFields, date_field in Hissues4, Hpenalty4, Hpenalty4'.
  cbn [map concat fold_right] in Hissues4, Hpenalty4, Hpenalty4'.
  rewrite !Hread in Hpenalty4'.
  cbn [String.eqb Ascii.eqb Bool.eqb andb] in Hpenalty4'.
  rewrite Hbirth in Hissues4, Hpenalty4.
  rewrite (date_format_rule_malformed _ _ _ _ Hpresent Hbad)
    in Hissues4, Hpenalty4.
  rewrite (date_format_rule_well_formed _ _ Hpresent' Hgood) in Hpenalty4'.
  cbn [Acc.push Acc.empty Acc.issues Acc.scorePenalty app] in *.
  assert (Hin3 : In fromCompleteness (CheckResult.issues r3)).
  { rewrite Hissues3, !in_app_iff. cbn [In]. intuition auto. }
  assert (Hin4 : In fromSweep (CheckResult.issues r4)).
  { rewrite Hissues4, ?in_app_iff. cbn [In]. rewrite ?in_app_iff.
    cbn [In]. intuition auto. }
  exists checks, r3, r4, r3', r4'.
  repeat match goal with |- _ /\ _ => split end;
    try assumption; try reflexivity; try lia.
  - destruct (battery_third_fourth _ _ _ _ Hchecks Hr3 Hr4)
      as (before & between & after & ->).
    apply in_split in Hin3. destruct Hin3 as (l1 & l2 & Hl3).
    apply in_split in Hin4. destruct Hin4 as (l1' & l2' & Hl4).
    rewrite map_app. cbn [map]. rewrite map_app. cbn [map].
    rewrite concat_app. cbn [concat]. rewrite concat_app. cbn [concat].
    rewrite Hl3, Hl4.
    exists (concat (map CheckResult.issues before) ++ l1)%list,
      (l2 ++ concat (map CheckResult.issues between) ++ l1')%list,
      (l2' ++ concat (map CheckResult.issues after))%list.
    repeat (rewrite <- ?app_assoc, <- ?app_comm_cons). reflexivity.
  - intros Heq. discriminate Heq.
Qed.

Lemma C10_witness :
  exists completeness sweep,
    checkPIDCompleteness (PositionalParser.parse Examples.invalidFormatMessage)
    = OK completeness
    /\ checkDateFormats (PositionalParser.parse Examples.invalidFormatMessage)
       = OK sweep
    /\ In invalid_date_of_birth (CheckResult.issues completeness)
    /\ In (invalid_date_format "PID" "field7" "Date of Birth" "1980/01/15")
         (CheckResult.issues sweep).
Proof.
  destruct (@C10_malformed_birth_date_counted_twice PositionalParser.engine
              (PositionalParser.parse Examples.invalidFormatMessage)
              (Examples.returned_segment
                 (find_segment "PID"
                    (ParsedMessage.segments
                       (PositionalParser.parse Examples.invalidFormatMessage))))
              "1980/01/15" "19800115"
              (parse_well_formed Examples.invalidFormatMessage))
    as (checks & completeness & sweep & completeness' & sweep' & _ & Hc & Hs
        & _ & _ & Hin & Hin' & _);
    try (vm_compute; reflexivity); try discriminate.
  exists completeness, sweep. auto.
Defined.

(** * Further properties *)

(** ** What a check can find and cost *)

Lemma Acc_within_empty : Acc_within 0 Acc.empty.
Proof. repeat split; cbn; try lia. constructor. Qed.

Lemma Acc_within_push i n b a :
  1 <= n <= 20 -> severity i <> INFO ->
  Acc_within b a -> Acc_within (b + n) (Acc.push i n a).
Proof.
  intros Hn Hi [[Hcost Hsev] Hb]. unfold Acc_within, Acc_sound, Acc.push.
  cbn [Acc.issues Acc.scorePenalty]. rewrite length_app. cbn [length].
  repeat split; try lia.
  apply Forall_app. split; [assumption |]. constructor; [assumption |].
  constructor.
Qed.

Lemma Acc_within_weaken b b' a :
  b <= b' -> Acc_within b a -> Acc_within b' a.
Proof. intros Hb [Hs Ha]. split; [assumption | lia]. Qed.

Lemma Acc_within_result b a : Acc_within b a -> Result_within b (Acc.result a).
Proof. intros H. exact H. Qed.

Lemma Acc_within_result_with_recommendations b a :
  Acc_within b a -> Result_within b (Acc.result_with_recommendations a).
Proof. intros H. exact H. Qed.

Lemma forEach_within {A : Type} (l : list A) (body : Acc.t -> A -> Exc Acc.t)
  (k : Z) :
  0 <= k ->
  (forall s x s' b, body s x = OK s' -> Acc_within b s -> Acc_within (b + k) s') ->
  forall s s' b,
    forEach l body s = OK s' -> Acc_within b s ->
    Acc_within (b + k * Z.of_nat (length l)) s'.
Proof.
  intros Hk Hbody. induction l as [| x l IH]; intros s s' b; cbn [forEach].
  - intros [= <-] Hs. apply (Acc_within_weaken b); [cbn [length]; lia | assumption].
  - destruct (body s x) as [s1 |] eqn:Hstep; [| discriminate].
    intros Hrest Hs. apply (Hbody _ _ _ _ Hstep) in Hs.
    apply (IH _ _ _ Hrest) in Hs.
    eapply Acc_within_weaken; [| exact Hs].
    cbn [length]. rewrite Nat2Z.inj_succ. lia.
Qed.

(** Findings made of pushes of known issues on findings within a bound. *)
Ltac within :=
  cbv zeta;
  repeat match goal with
         | |- Result_within _ (Acc.result _) => apply Acc_within_result
         | |- Result_within _ (Acc.result_with_recommendations _) =>
             apply Acc_within_result_with_recommendations
         | |- Acc_within _ (Acc.push _ _ _) =>
             first [ apply Acc_within_push; [lia | discriminate |]
                   | eapply Acc_within_weaken;
                     [| apply Acc_within_push; [lia | discriminate |]] ]
         | |- Acc_within _ Acc.empty =>
             first [ apply Acc_within_empty
                   | eapply Acc_within_weaken; [| apply Acc_within_empty] ]
         | H : Acc_within _ ?a |- Acc_within _ ?a =>
             first [ exact H | eapply Acc_within_weaken; [| exact H] ]
         end.

(** What a check went through before it returned [r]: by cases, leaving
    the findings it put together. *)
Ltac returned_findings Hr :=
  unfold mbind, Exc_bind in Hr;
  repeat match goal with
         | H : context [match ?x with _ => _ end] |- _ => destruct x eqn:?
         | H : Err _ = OK _ |- _ => discriminate H
         | H : OK _ = OK _ |- _ => injection H as <-
         end.

Section Within.

Context `{JsDate.Engine}.
Variable parsed : ParsedMessage.t.

Lemma checkMSHCompleteness_within r :
  checkMSHCompleteness parsed = OK r -> Result_within 20 r.
Proof.
  unfold checkMSHCompleteness. intros Hr.
  destruct (find_segment "MSH" _) as [mshSegment |].
  2: { injection Hr as <-. repeat split; cbn; try lia.
       repeat constructor. discriminate. }
  unfold mbind, Exc_bind in Hr.
  destruct (forEach requiredFields _ Acc.empty) as [acc |] eqn:Hacc;
    [| discriminate].
  assert (Hwithin : Acc_within 14 acc).
  { apply (forEach_within _ _ 2 ltac:(lia)) with (b := 0) in Hacc.
    - exact Hacc.
    - intros s [fld name] s' b Hs' Hs.
      destruct (prop (Segment.parsed mshSegment) fld); [| discriminate].
      injection Hs' as <-. destruct (_ || _); within; lia.
    - apply Acc_within_empty. }
  destruct (prop (Segment.parsed mshSegment) "field7"); [| discriminate].
  injection Hr as <-.
  destruct (_ && _); [destruct (negb _) |]; within; lia.
Qed.

Lemma checkRequiredSegments_within :
  Result_within 25 (checkRequiredSegments parsed).
Proof.
  unfold checkRequiredSegments.
  destruct (includes _ _); [destruct (negb _); destruct (negb _) |];
    within; lia.
Qed.

Lemma checkPIDCompleteness_within r :
  checkPIDCompleteness parsed = OK r -> Result_within 15 r.
Proof.
  unfold checkPIDCompleteness. intros Hr. returned_findings Hr; within; lia.
Qed.

Lemma checkDateFormats_within r :
  checkDateFormats parsed = OK r -> Result_within 6 r.
Proof.
  unfold checkDateFormats, mbind, Exc_bind. intros Hr.
  destruct (forEach dateFields _ Acc.empty) as [acc |] eqn:Hacc;
    [| discriminate].
  injection Hr as <-.
  apply (forEach_within _ _ 1 ltac:(lia)) with (b := 0) in Hacc.
  - exact Hacc.
  - intros s [[segment fld] name] s' b Hs' Hs.
    unfold checkDateFormats_entry, mbind, Exc_bind in Hs'.
    destruct (find_segment segment _) as [seg |].
    + destruct (prop (Segment.parsed seg) fld); [| discriminate].
      injection Hs' as <-.
      destruct (truthy _); [destruct (negb _) |]; within; lia.
    + injection Hs' as <-. within. lia.
  - apply Acc_within_empty.
Qed.

Lemma checkIdentifierFormats_within r :
  checkIdentifierFormats parsed = OK r -> Result_within 2 r.
Proof.
  unfold checkIdentifierFormats. intros Hr. returned_findings Hr; within; lia.
Qed.

Lemma checkAddressFormats_within r :
  checkAddressFormats parsed = OK r -> Result_within 1 r.
Proof.
  unfold checkAddressFormats. intros Hr. returned_findings Hr; within; lia.
Qed.

Lemma checkPhoneFormats_within r :
  checkPhoneFormats parsed = OK r -> Result_within 2 r.
Proof.
  unfold checkPhoneFormats. intros Hr.
  destruct (find_segment "PID" _) as [pidSegment |].
  2: { injection Hr as <-. within. lia. }
  unfold mbind, Exc_bind in Hr.
  destruct (forEach phoneFields _ Acc.empty) as [acc |] eqn:Hacc;
    [| discriminate].
  injection Hr as <-.
  apply (forEach_within _ _ 1 ltac:(lia)) with (b := 0) in Hacc.
  - exact Hacc.
  - intros s [fld name] s' b Hs' Hs.
    destruct (prop (Segment.parsed pidSegment) fld); [| discriminate].
    injection Hs' as <-.
    destruct (truthy _); [destruct (negb _) |]; within; lia.
  - apply Acc_within_empty.
Qed.

Lemma checkDataConsistency_within r :
  checkDataConsistency parsed = OK r -> Result_within 2 r.
Proof.
  unfold checkDataConsistency. intros Hr. returned_findings Hr; within; lia.
Qed.

Lemma checkBusinessRules_within r :
  checkBusinessRules parsed = OK r -> Result_within 10 r.
Proof.
  unfold checkBusinessRules. intros Hr. returned_findings Hr; within; lia.
Qed.

Lemma checkVersionCompliance_within r :
  checkVersionCompliance parsed = OK r -> Result_within 2 r.
Proof.
  unfold checkVersionCompliance. intros Hr. returned_findings Hr; within; lia.
Qed.

(** What the battery returns: ten results, each within the bound of its
    check. *)
Lemma battery_within checks :
  evaluate_all battery parsed = OK checks ->
  Forall2 Result_within battery_bounds checks.
Proof.
  unfold battery, battery_bounds. cbn [evaluate_all]. intros Hall.
  destruct (checkMSHCompleteness parsed) as [r1 |] eqn:H1; [| discriminate].
  destruct (checkPIDCompleteness parsed) as [r3 |] eqn:H3; [| discriminate].
  destruct (checkDateFormats parsed) as [r4 |] eqn:H4; [| discriminate].
  destruct (checkIdentifierFormats parsed) as [r5 |] eqn:H5; [| discriminate].
  destruct (checkAddressFormats parsed) as [r6 |] eqn:H6; [| discriminate].
  destruct (checkPhoneFormats parsed) as [r7 |] eqn:H7; [| discriminate].
  destruct (checkDataConsistency parsed) as [r8 |] eqn:H8; [| discriminate].
  destruct (checkBusinessRules parsed) as [r9 |] eqn:H9; [| discriminate].
  destruct (checkVersionCompliance parsed) as [r10 |] eqn:H10;
    [| discriminate].
  injection Hall as <-.
  repeat (constructor;
          [ first [ apply checkRequiredSegments_within
                  | now apply checkMSHCompleteness_within
                  | now apply checkPIDCompleteness_within
                  | now apply checkDateFormats_within
                  | now apply checkIdentifierFormats_within
                  | now apply checkAddressFormats_within
                  | now apply checkPhoneFormats_within
                  | now apply checkDataConsistency_within
                  | now apply checkBusinessRules_within
                  | now apply checkVersionCompliance_within ] |]).
  constructor.
Qed.

End Within.

(** ** The report, whatever the path *)

Lemma results_within_totals bounds checks :
  Forall2 Result_within bounds checks ->
  (Z.of_nat (length (concat (map CheckResult.issues checks)))
     <= totalPenalty checks
     <= 20 * Z.of_nat (length (concat (map CheckResult.issues checks))))
  /\ totalPenalty checks <= fold_right Z.add 0 bounds
  /\ Forall (fun i => severity i <> INFO)
       (concat (map CheckResult.issues checks)).
Proof.
  induction 1 as [| b r bounds checks [[Hcost Hsev] Hb] _ IH];
    cbn [map concat totalPenalty fold_right length].
  - repeat split; try lia. constructor.
  - destruct IH as (Hcosts & Hbs & Hsevs). unfold totalPenalty in *.
    rewrite length_app, Nat2Z.inj_add. repeat split; try lia.
    apply Forall_app. split; assumption.
Qed.

Section Report.

Context `{Hl7Parser} `{JsDate.Engine}.

(** The report of a completed analysis, and only that one, is valid. *)
Lemma valid_report_completed msg :
  Report.isValid (analyzeDataQuality msg) = true ->
  exists v parsed checks,
    validateHL7Message msg = OK v
    /\ Validation.isValid v = true
    /\ parseHL7Message msg = OK parsed
    /\ evaluate_all battery parsed = OK checks
    /\ analyzeDataQuality msg =
         {| Report.overallScore := clamp (100 - totalPenalty checks);
            Report.issues := concat (map CheckResult.issues checks);
            Report.recommendations :=
              Set_spread (concat (map pushed_recommendations checks));
            Report.isValid := true;
            Report.messageType := Some (ParsedMessage.messageType parsed);
            Report.totalSegments := Some (ParsedMessage.totalSegments parsed);
            Report.analysisDate := Some JsDate.now_toISOString |}.
Proof.
  destruct (validateHL7Message msg) as [v | e] eqn:Hv.
  2: { rewrite (validator_throws msg e Hv). discriminate. }
  destruct (Validation.isValid v) eqn:Hvalid.
  2: { rewrite (gate_fails msg v Hv Hvalid). discriminate. }
  destruct (parseHL7Message msg) as [parsed | e] eqn:Hp.
  2: { rewrite (parser_throws msg v e Hv Hvalid Hp). discriminate. }
  destruct (evaluate_all battery parsed) as [checks | e] eqn:Hc.
  2: { rewrite (check_throws msg v parsed e Hv Hvalid Hp Hc). discriminate. }
  intros _. exists v, parsed, checks.
  repeat split; try assumption.
  apply (analysis_completes msg v parsed checks Hv Hvalid Hp Hc).
Qed.

(** The report that is not valid is the one of the gate or the one of the
    [catch] block. *)
Lemma invalid_report_failed msg :
  Report.isValid (analyzeDataQuality msg) = false ->
  (exists v, analyzeDataQuality msg =
               {| Report.overallScore := 70;
                  Report.issues := [invalid_message_format v];
                  Report.recommendations := [];
                  Report.isValid := false;
                  Report.messageType := None;
                  Report.totalSegments := None;
                  Report.analysisDate := None |})
  \/ (exists e, analyzeDataQuality msg = failure_report e).
Proof.
  destruct (validateHL7Message msg) as [v | e] eqn:Hv.
  2: { right. exists e. apply (validator_throws msg e Hv). }
  destruct (Validation.isValid v) eqn:Hvalid.
  2: { left. exists v. apply (gate_fails msg v Hv Hvalid). }
  destruct (parseHL7Message msg) as [parsed | e] eqn:Hp.
  2: { right. exists e. apply (parser_throws msg v e Hv Hvalid Hp). }
  destruct (evaluate_all battery parsed) as [checks | e] eqn:Hc.
  2: { right. exists e. apply (check_throws msg v parsed e Hv Hvalid Hp Hc). }
  rewrite (analysis_completes msg v parsed checks Hv Hvalid Hp Hc).
  discriminate.
Qed.

(** X1: on a completed analysis (the report is valid) the clamp of the
    score does not act: the ten penalties sum to 85 at most, so the score
    is exactly 100 minus their sum and never below 15. *)
Theorem completed_analysis_score_unclamped (hl7Message : string) :
  Report.isValid (analyzeDataQuality hl7Message) = true ->
  15 <= Report.overallScore (analyzeDataQuality hl7Message) <= 100
  /\ exists parsed checks,
       parseHL7Message hl7Message = OK parsed
       /\ evaluate_all battery parsed = OK checks
       /\ 0 <= totalPenalty checks <= 85
       /\ Report.overallScore (analyzeDataQuality hl7Message)
          = 100 - totalPenalty checks.
Proof.
  intros Hvalid.
  destruct (valid_report_completed _ Hvalid)
    as (v & parsed & checks & _ & _ & Hp & Hc & ->).
  destruct (results_within_totals _ _ (battery_within parsed checks Hc))
    as (Hcosts & Hbound & _).
  cbn [battery_bounds fold_right] in Hbound.
  cbn [Report.overallScore]. unfold clamp.
  split; [lia |]. exists parsed, checks. repeat split; try assumption; lia.
Qed.

(** X2: on a completed analysis every issue costs between 1 and 20
    points, so with [n] issues the score lies between [100 - 20 n] and
    [100 - n]; it is 100 exactly when there is no issue. *)
Theorem completed_analysis_score_and_issue_count (hl7Message : string) :
  Report.isValid (analyzeDataQuality hl7Message) = true ->
  let report := analyzeDataQuality hl7Message in
  let n := Z.of_nat (length (Report.issues report)) in
  100 - 20 * n <= Report.overallScore report <= 100 - n
  /\ (Report.overallScore report = 100 <-> Report.issues report = []).
Proof.
  intros Hvalid.
  destruct (valid_report_completed _ Hvalid)
    as (v & parsed & checks & _ & _ & Hp & Hc & ->).
  destruct (results_within_totals _ _ (battery_within parsed checks Hc))
    as (Hcosts & Hbound & _).
  cbn [battery_bounds fold_right] in Hbound.
  cbn [Report.overallScore Report.issues]. unfold clamp.
  split; [lia |]. split.
  - intros Hscore.
    destruct (concat (map CheckResult.issues checks)); [reflexivity |].
    cbn [length] in Hcosts. lia.
  - intros Hnone. rewrite Hnone in Hcosts. cbn [length] in Hcosts. lia.
Qed.

(** X3: no report, on any path, carries an issue of severity Info. *)
Theorem no_informational_issue (hl7Message : string) :
  Forall (fun i => severity i <> INFO)
    (Report.issues (analyzeDataQuality hl7Message)).
Proof.
  destruct (Report.isValid (analyzeDataQuality hl7Message)) eqn:Hvalid.
  - destruct (valid_report_completed _ Hvalid)
      as (v & parsed & checks & _ & _ & Hp & Hc & ->).
    apply (results_within_totals _ _ (battery_within parsed checks Hc)).
  - destruct (invalid_report_failed _ Hvalid) as [[v ->] | [e ->]];
      repeat constructor; discriminate.
Qed.

(** X4: the shape of the report follows [isValid].  A valid report has its
    [messageType], [totalSegments] and [analysisDate]; a report that is
    not valid has none of the three and exactly one issue, Critical and of
    category Formatting, with the score 70 and no recommendation (gate) or
    the score 0 and one recommendation ([catch]). *)
Theorem report_shape_follows_isValid (hl7Message : string) :
  let report := analyzeDataQuality hl7Message in
  if Report.isValid report then
    Report.messageType report <> None
    /\ Report.totalSegments report <> None
    /\ Report.analysisDate report <> None
  else
    Report.messageType report = None
    /\ Report.totalSegments report = None
    /\ Report.analysisDate report = None
    /\ (exists i, Report.issues report = [i]
                  /\ severity i = CRITICAL /\ category i = FORMATTING)
    /\ ((Report.overallScore report = 70
         /\ Report.recommendations report = [])
        \/ (Report.overallScore report = 0
            /\ length (Report.recommendations report) = 1%nat)).
Proof.
  cbv zeta.
  destruct (Report.isValid (analyzeDataQuality hl7Message)) eqn:Hvalid.
  - destruct (valid_report_completed _ Hvalid)
      as (v & parsed & checks & _ & _ & _ & _ & ->).
    repeat split; discriminate.
  - destruct (invalid_report_failed _ Hvalid) as [[v ->] | [e ->]];
      cbn; repeat split; eauto.
Qed.

(** X5: a fault of the validator itself is caught like a fault of the
    parser: the report is the one of the [catch] block, with the message
    of the fault as the details of its issue. *)
Theorem validator_fault_is_caught (hl7Message : string) (error : JsError) :
  validateHL7Message hl7Message = Err error ->
  let report := analyzeDataQuality hl7Message in
  report = failure_report error
  /\ (exists i, Report.issues report = [i]
                /\ field i = "Message Parsing"
                /\ details i = message error)
  /\ Report.overallScore report = 0
  /\ Report.isValid report = false.
Proof.
  intros Hv report. subst report. rewrite (validator_throws _ _ Hv).
  repeat split. eexists. repeat split.
Qed.

End Report.

Lemma completed_analysis_score_unclamped_witness :
  15 <= Report.overallScore
          (@analyzeDataQuality PositionalParser.parser PositionalParser.engine
             Examples.problematicMessage) <= 100.
Proof.
  apply (@completed_analysis_score_unclamped
           PositionalParser.parser PositionalParser.engine
           Examples.problematicMessage).
  vm_compute. reflexivity.
Defined.

Lemma completed_analysis_score_and_issue_count_witness :
  Report.overallScore
    (@analyzeDataQuality PositionalParser.parser PositionalParser.engine
       Examples.problematicMessage) = 100
  <-> Report.issues
        (@analyzeDataQuality PositionalParser.parser PositionalParser.engine
           Examples.problematicMessage) = [].
Proof.
  apply (@completed_analysis_score_and_issue_count
           PositionalParser.parser PositionalParser.engine
           Examples.problematicMessage).
  vm_compute. reflexivity.
Defined.

Lemma validator_fault_is_caught_witness :
  Report.overallScore
    (@analyzeDataQuality Samples.faultyParser PositionalParser.engine
       getSampleADTMessage) = 0.
Proof.
  apply (@validator_fault_is_caught
           Samples.faultyParser PositionalParser.engine getSampleADTMessage
           (TypeError "message.split is not a function")).
  reflexivity.
Defined.

(** ** Removing duplicate recommendations *)

Lemma Set_spread_from_spec l :
  forall seen,
    List.NoDup (Set_spread_from seen l)
    /\ (forall x, In x (Set_spread_from seen l) <-> In x l /\ ~ In x seen).
Proof.
  induction l as [| y l IH]; intros seen; cbn [Set_spread_from].
  - split; [constructor | intros x; cbn; tauto].
  - destruct (array_includes y seen) eqn:Hy.
    + apply array_includes_spec in Hy.
      destruct (IH seen) as [Hnodup Hin]. split; [assumption |].
      intros x. rewrite Hin. cbn [In]. split; [tauto |].
      intros [[<- | Hx] Hseen]; [contradiction | tauto].
    + assert (Hy' : ~ In y seen).
      { intros Hin. apply array_includes_spec in Hin. congruence. }
      destruct (IH (y :: seen)) as [Hnodup Hin]. split.
      * constructor; [| assumption]. rewrite Hin. cbn [In]. tauto.
      * intros x. cbn [In]. rewrite Hin. cbn [In].
        destruct (string_dec y x) as [<- | Hne]; tauto.
Qed.

Lemma Set_spread_from_fresh l :
  forall seen,
    List.NoDup l -> (forall x, In x l -> ~ In x seen) ->
    Set_spread_from seen l = l.
Proof.
  induction l as [| y l IH]; intros seen Hnodup Hfresh;
    cbn [Set_spread_from]; [reflexivity |].
  inversion Hnodup as [| ? ? Hy Hl]; subst.
  destruct (array_includes y seen) eqn:Hseen.
  - apply array_includes_spec in Hseen.
    destruct (Hfresh y (or_introl eq_refl) Hseen).
  - f_equal. apply IH; [assumption |].
    intros x Hx [<- | Hin]; [contradiction |].
    apply (Hfresh x (or_intror Hx) Hin).
Qed.

(** X6: [[...new Set(recommendations)]] keeps exactly the strings of the
    list, each once, and leaves a list without duplicates as it is; so the
    recommendations of a report never hold a string twice, on any path. *)
Theorem recommendations_without_duplicates
  `{Hl7Parser} `{JsDate.Engine} (hl7Message : string) :
  (forall l, List.NoDup (Set_spread l)
             /\ (forall x, In x (Set_spread l) <-> In x l)
             /\ (List.NoDup l -> Set_spread l = l))
  /\ List.NoDup (Report.recommendations (analyzeDataQuality hl7Message)).
Proof.
  assert (Hspread : forall l, List.NoDup (Set_spread l)
                              /\ (forall x, In x (Set_spread l) <-> In x l)
                              /\ (List.NoDup l -> Set_spread l = l)).
  { intros l. unfold Set_spread.
    destruct (Set_spread_from_spec l []) as [Hnodup Hin].
    split; [assumption |]. split.
    - intros x. rewrite Hin. cbn [In]. tauto.
    - intros Hl. apply Set_spread_from_fresh; [assumption |].
      intros x _ []. }
  split; [exact Hspread |].
  destruct (Report.isValid (analyzeDataQuality hl7Message)) eqn:Hvalid.
  - destruct (valid_report_completed _ Hvalid)
      as (v & parsed & checks & _ & _ & _ & _ & ->).
    apply Hspread.
  - destruct (invalid_report_failed _ Hvalid) as [[v ->] | [e ->]]; cbn.
    + constructor.
    + constructor; [intros [] | constructor].
Qed.

(** ** What the battery reads of a message *)

Lemma array_includes_find ty segs :
  array_includes ty (map Segment.segmentType segs)
  = match find_segment ty segs with Some _ => true | None => false end.
Proof.
  unfold array_includes, find_segment.
  induction segs as [| s segs IH]; cbn [map existsb List.find];
    [reflexivity |].
  rewrite (String.eqb_sym ty). destruct (String.eqb _ ty); [reflexivity |].
  exact IH.
Qed.

Lemma forEach_ext {A S : Type} (l : list A) (body body' : S -> A -> Exc S) :
  (forall s x, In x l -> body s x = body' s x) ->
  forall s, forEach l body s = forEach l body' s.
Proof.
  induction l as [| x l IH]; intros Hbody s; cbn [forEach]; [reflexivity |].
  rewrite (Hbody s x (or_introl eq_refl)).
  destruct (body' s x); [| reflexivity].
  apply IH. intros s0 y Hy. apply Hbody. now right.
Qed.

Section Reads.

Context `{JsDate.Engine}.
Variables parsed parsed' : ParsedMessage.t.
Hypothesis Htype :
  ParsedMessage.messageType parsed = ParsedMessage.messageType parsed'.
Hypothesis Hfind :
  forall ty, In ty read_segment_types ->
    find_segment ty (ParsedMessage.segments parsed)
    = find_segment ty (ParsedMessage.segments parsed').

Lemma find_MSH_agrees :
  find_segment "MSH" (ParsedMessage.segments parsed)
  = find_segment "MSH" (ParsedMessage.segments parsed').
Proof. apply Hfind. cbn. tauto. Qed.

Lemma find_PID_agrees :
  find_segment "PID" (ParsedMessage.segments parsed)
  = find_segment "PID" (ParsedMessage.segments parsed').
Proof. apply Hfind. cbn. tauto. Qed.

Lemma find_PV1_agrees :
  find_segment "PV1" (ParsedMessage.segments parsed)
  = find_segment "PV1" (ParsedMessage.segments parsed').
Proof. apply Hfind. cbn. tauto. Qed.

(** The ten checks return the same on two messages with the same
    [messageType] and the same first segment of each type they look up. *)
Lemma battery_agrees :
  evaluate_all battery parsed = evaluate_all battery parsed'.
Proof.
  assert (H1 : checkMSHCompleteness parsed = checkMSHCompleteness parsed')
    by (unfold checkMSHCompleteness; now rewrite find_MSH_agrees).
  assert (H2 : checkRequiredSegments parsed = checkRequiredSegments parsed').
  { unfold checkRequiredSegments.
    rewrite !array_includes_find, Htype, find_PID_agrees, find_PV1_agrees.
    reflexivity. }
  assert (H3 : checkPIDCompleteness parsed = checkPIDCompleteness parsed')
    by (unfold checkPIDCompleteness; now rewrite find_PID_agrees).
  assert (H4 : checkDateFormats parsed = checkDateFormats parsed').
  { unfold checkDateFormats. f_equal. apply forEach_ext.
    intros s [[segment fld] name] Hin. unfold checkDateFormats_entry.
    rewrite Hfind; [reflexivity |].
    unfold dateFields in Hin. cbn [In] in Hin. unfold read_segment_types.
    cbn [In].
    repeat match type of Hin with
           | _ \/ _ => destruct Hin as [[= <- _ _] | Hin]; [tauto |]
           end.
    destruct Hin. }
  assert (H5 : checkIdentifierFormats parsed = checkIdentifierFormats parsed')
    by (unfold checkIdentifierFormats; now rewrite find_PID_agrees).
  assert (H6 : checkAddressFormats parsed = checkAddressFormats parsed')
    by (unfold checkAddressFormats; now rewrite find_PID_agrees).
  assert (H7 : checkPhoneFormats parsed = checkPhoneFormats parsed')
    by (unfold checkPhoneFormats; now rewrite find_PID_agrees).
  assert (H8 : checkDataConsistency parsed = checkDataConsistency parsed')
    by (unfold checkDataConsistency;
        now rewrite find_PID_agrees, find_PV1_agrees).
  assert (H9 : checkBusinessRules parsed = checkBusinessRules parsed')
    by (unfold checkBusinessRules;
        now rewrite find_PID_agrees, find_PV1_agrees).
  assert (H10 : checkVersionCompliance parsed = checkVersionCompliance parsed')
    by (unfold checkVersionCompliance; now rewrite find_MSH_agrees).
  unfold battery. cbn [evaluate_all].
  now rewrite H1, H2, H3, H4, H5, H6, H7, H8, H9, H10.
Qed.

End Reads.

Lemma find_segment_only_read ty segs :
  In ty read_segment_types ->
  find_segment ty
    (List.filter
       (fun s => array_includes (Segment.segmentType s) read_segment_types)
       segs)
  = find_segment ty segs.
Proof.
  intros Hty. unfold find_segment.
  induction segs as [| s segs IH]; cbn [List.filter List.find];
    [reflexivity |].
  destruct (String.eqb_spec (Segment.segmentType s) ty) as [Heq | Hne].
  - rewrite Heq. apply array_includes_spec in Hty. rewrite Hty.
    cbn [List.find]. rewrite Heq, String.eqb_refl. reflexivity.
  - destruct (array_includes _ _); [| exact IH].
    cbn [List.find]. apply String.eqb_neq in Hne. now rewrite Hne.
Qed.

(** X7: the battery reads the [messageType] and the first segment of each
    of the types [MSH], [PID], [PV1] and [EVN], and nothing else of the
    message: on two parsed messages that agree on these, the ten checks
    return the same results (or throw the same fault).  A second segment
    of a type does not count. *)
Theorem battery_reads_first_segments_only
  `{JsDate.Engine} (parsed parsed' : ParsedMessage.t) :
  ParsedMessage.messageType parsed = ParsedMessage.messageType parsed' ->
  (forall ty, In ty ["MSH"; "PID"; "PV1"; "EVN"] ->
     find_segment ty (ParsedMessage.segments parsed)
     = find_segment ty (ParsedMessage.segments parsed')) ->
  evaluate_all battery parsed = evaluate_all battery parsed'.
Proof. intros Htype Hfind. now apply battery_agrees. Qed.

(** X8: segments of any other type ([NK1], [OBX], ...) never change what
    the ten checks return: without them the battery gives the same
    results. *)
Theorem other_segments_are_ignored
  `{JsDate.Engine} (parsed : ParsedMessage.t) :
  evaluate_all battery (only_read_segments parsed)
  = evaluate_all battery parsed.
Proof.
  apply battery_agrees; [reflexivity |].
  intros ty Hty. apply find_segment_only_read. exact Hty.
Qed.

Lemma battery_reads_first_segments_only_witness :
  @evaluate_all _ _ (@battery PositionalParser.engine)
    (Samples.stay "20240110" "20240112")
  = @evaluate_all _ _ (@battery PositionalParser.engine)
      (Samples.stayAndMore "20240110" "20240112").
Proof.
  apply (@battery_reads_first_segments_only PositionalParser.engine
           (Samples.stay "20240110" "20240112")
           (Samples.stayAndMore "20240110" "20240112")).
  - reflexivity.
  - intros ty [<- | [<- | [<- | [<- | []]]]]; reflexivity.
Defined.

(** ** The fields the battery reads *)

Lemma find_set_field ty key value ty' segs :
  find_segment ty' (set_field_in ty key value segs)
  = if String.eqb ty' ty
    then match find_segment ty' segs with
         | Some s =>
             Some {| Segment.segmentType := Segment.segmentType s;
                     Segment.parsed := insert key value <$> Segment.parsed s |}
         | None => None
         end
    else find_segment ty' segs.
Proof.
  destruct (String.eqb_spec ty' ty) as [-> | Hne].
  - destruct (find_segment ty segs) as [s |] eqn:Hfind.
    + now apply find_set_field_same.
    + unfold find_segment in *.
      induction segs as [| s segs IH]; cbn [set_field_in]; [reflexivity |].
      cbn [List.find] in Hfind.
      destruct (String.eqb (Segment.segmentType s) ty) eqn:Hs;
        [discriminate |].
      cbn [List.find]. rewrite Hs. now apply IH.
  - now apply find_set_field_other.
Qed.

Lemma prop_insert_ne key value key' (o : option (gmap string string)) :
  key' <> key -> prop (insert key value <$> o) key' = prop o key'.
Proof.
  intros Hne. destruct o as [fields |]; cbn; [| reflexivity].
  f_equal. apply lookup_insert_ne. congruence.
Qed.

Section Unread.

Context `{JsDate.Engine}.
Variables (ty key value : string) (parsed : ParsedMessage.t).
Hypothesis Hkey : forall key', In (ty, key') read_fields -> key' <> key.

Ltac is_read :=
  apply Hkey; unfold read_fields; cbn [In];
  repeat first [left; reflexivity | right].

Ltac found_as_before ty' :=
  cbn [ParsedMessage.segments ParsedMessage.messageType set_field];
  rewrite ?(find_set_field ty key value ty');
  destruct (String.eqb_spec ty' ty) as [<- | _]; [| try reflexivity];
  destruct (find_segment ty' (ParsedMessage.segments parsed)) as [? |];
  cbn [Segment.parsed]; try reflexivity.

Lemma checkMSHCompleteness_unread :
  checkMSHCompleteness (set_field ty key value parsed)
  = checkMSHCompleteness parsed.
Proof.
  unfold checkMSHCompleteness. found_as_before "MSH".
  rewrite (prop_insert_ne _ _ "field7") by is_read.
  f_equal. apply forEach_ext. intros acc [fld name] Hin.
  rewrite prop_insert_ne; [reflexivity |].
  unfold requiredFields in Hin. cbn [In] in Hin.
  repeat match type of Hin with
         | _ \/ _ => destruct Hin as [[= <- _] | Hin]; [is_read |]
         end.
  destruct Hin.
Qed.

Lemma checkRequiredSegments_unread :
  checkRequiredSegments (set_field ty key value parsed)
  = checkRequiredSegments parsed.
Proof.
  unfold checkRequiredSegments. rewrite !array_includes_find.
  cbn [ParsedMessage.segments ParsedMessage.messageType set_field].
  rewrite !find_set_field.
  destruct (String.eqb "PID" ty), (String.eqb "PV1" ty);
    destruct (find_segment "PID" _), (find_segment "PV1" _); reflexivity.
Qed.

Lemma checkPIDCompleteness_unread :
  checkPIDCompleteness (set_field ty key value parsed)
  = checkPIDCompleteness parsed.
Proof.
  unfold checkPIDCompleteness. found_as_before "PID".
  rewrite (prop_insert_ne _ _ "field5") by is_read.
  rewrite (prop_insert_ne _ _ "field3") by is_read.
  rewrite (prop_insert_ne _ _ "field7") by is_read.
  rewrite (prop_insert_ne _ _ "field8") by is_read.
  reflexivity.
Qed.

Lemma checkDateFormats_unread :
  checkDateFormats (set_field ty key value parsed) = checkDateFormats parsed.
Proof.
  unfold checkDateFormats. f_equal. apply forEach_ext.
  intros acc [[segment fld] name] Hin. unfold checkDateFormats_entry.
  cbn [ParsedMessage.segments set_field]. rewrite find_set_field.
  destruct (String.eqb_spec segment ty) as [<- | _]; [| reflexivity].
  destruct (find_segment segment _) as [seg |]; [| reflexivity].
  cbn [Segment.parsed]. rewrite prop_insert_ne; [reflexivity |].
  unfold dateFields in Hin. cbn [In] in Hin.
  repeat match type of Hin with
         | _ \/ _ => destruct Hin as [[= <- <- _] | Hin]; [is_read |]
         end.
  destruct Hin.
Qed.

Lemma checkIdentifierFormats_unread :
  checkIdentifierFormats (set_field ty key value parsed)
  = checkIdentifierFormats parsed.
Proof.
  unfold checkIdentifierFormats. found_as_before "PID".
  rewrite (prop_insert_ne _ _ "field19") by is_read. reflexivity.
Qed.

Lemma checkAddressFormats_unread :
  checkAddressFormats (set_field ty key value parsed)
  = checkAddressFormats parsed.
Proof.
  unfold checkAddressFormats. found_as_before "PID".
  rewrite (prop_insert_ne _ _ "field11") by is_read. reflexivity.
Qed.

Lemma checkPhoneFormats_unread :
  checkPhoneFormats (set_field ty key value parsed)
  = checkPhoneFormats parsed.
Proof.
  unfold checkPhoneFormats. found_as_before "PID".
  f_equal. apply forEach_ext. intros acc [fld name] Hin.
  rewrite prop_insert_ne; [reflexivity |].
  unfold phoneFields in Hin. cbn [In] in Hin.
  repeat match type of Hin with
         | _ \/ _ => destruct Hin as [[= <- _] | Hin]; [is_read |]
         end.
  destruct Hin.
Qed.

Lemma checkDataConsistency_unread :
  checkDataConsistency (set_field ty key value parsed)
  = checkDataConsistency parsed.
Proof.
  unfold checkDataConsistency.
  cbn [ParsedMessage.segments set_field]. rewrite !find_set_field.
  destruct (find_segment "PID" _) as [pid |],
           (find_segment "PV1" _) as [pv1 |];
    destruct (String.eqb "PID" ty); try reflexivity;
    destruct (String.eqb_spec "PV1" ty) as [<- | _]; try reflexivity;
    cbn [Segment.parsed];
    rewrite (prop_insert_ne _ _ "field2") by is_read; reflexivity.
Qed.

Lemma checkBusinessRules_unread :
  checkBusinessRules (set_field ty key value parsed)
  = checkBusinessRules parsed.
Proof.
  unfold checkBusinessRules.
  cbn [ParsedMessage.segments set_field]. rewrite !find_set_field.
  destruct (String.eqb_spec "PV1" ty) as [Hpv1 | _];
    destruct (String.eqb_spec "PID" ty) as [Hpid | _];
    [rewrite <- Hpv1 in Hpid; discriminate Hpid | | |];
    try subst ty;
    destruct (find_segment "PV1" (ParsedMessage.segments parsed)) as [pv1 |],
             (find_segment "PID" (ParsedMessage.segments parsed)) as [pid |];
    cbn [Segment.parsed];
    rewrite ?(prop_insert_ne _ _ "field44") by is_read;
    rewrite ?(prop_insert_ne _ _ "field45") by is_read;
    rewrite ?(prop_insert_ne _ _ "field7") by is_read;
    rewrite ?(prop_insert_ne _ _ "field29") by is_read;
    reflexivity.
Qed.

Lemma checkVersionCompliance_unread :
  checkVersionCompliance (set_field ty key value parsed)
  = checkVersionCompliance parsed.
Proof.
  unfold checkVersionCompliance. found_as_before "MSH".
  rewrite (prop_insert_ne _ _ "field12") by is_read. reflexivity.
Qed.

Lemma battery_unread :
  evaluate_all battery (set_field ty key value parsed)
  = evaluate_all battery parsed.
Proof.
  unfold battery. cbn [evaluate_all].
  rewrite checkMSHCompleteness_unread, checkRequiredSegments_unread,
    checkPIDCompleteness_unread, checkDateFormats_unread,
    checkIdentifierFormats_unread, checkAddressFormats_unread,
    checkPhoneFormats_unread, checkDataConsistency_unread,
    checkBusinessRules_unread, checkVersionCompliance_unread.
  reflexivity.
Qed.

End Unread.

(** X9: the checks read twenty-one fields and no other: writing any value
    into any other field of the first segment of a type leaves the results
    of the ten checks (or the fault they throw) as they were. *)
Theorem unread_fields_are_ignored
  `{JsDate.Engine} (ty key value : string) (parsed : ParsedMessage.t) :
  ~ In (ty, key) read_fields ->
  evaluate_all battery (set_field ty key value parsed)
  = evaluate_all battery parsed.
Proof.
  intros Hkey. apply battery_unread. intros key' Hin ->. exact (Hkey Hin).
Qed.

Lemma unread_fields_are_ignored_witness :
  @evaluate_all _ _ (@battery PositionalParser.engine)
    (set_field "PID" "field6" "SMITH" Samples.patient)
  = @evaluate_all _ _ (@battery PositionalParser.engine) Samples.patient.
Proof.
  apply (@unread_fields_are_ignored PositionalParser.engine
           "PID" "field6" "SMITH" Samples.patient).
  unfold read_fields. cbn [In].
  intros Hin.
  repeat (destruct Hin as [Hin | Hin]; [discriminate Hin |]). exact Hin.
Defined.

(** ** The patterns *)

Lemma append_nil (s : string) : String.append EmptyString s = s.
Proof. reflexivity. Qed.

Lemma append_cons c (s1 s2 : string) :
  String.append (String c s1) s2 = String c (String.append s1 s2).
Proof. reflexivity. Qed.

Lemma all_chars_app P s1 s2 :
  all_chars P (String.append s1 s2) = all_chars P s1 && all_chars P s2.
Proof.
  induction s1 as [| c s1 IH]; rewrite ?append_nil, ?append_cons;
    cbn [all_chars]; [reflexivity |].
  now rewrite IH, andb_assoc.
Qed.

Lemma any_char_app P s1 s2 :
  any_char P (String.append s1 s2) = any_char P s1 || any_char P s2.
Proof.
  induction s1 as [| c s1 IH]; rewrite ?append_nil, ?append_cons;
    cbn [any_char]; [reflexivity |].
  now rewrite IH, orb_assoc.
Qed.

Lemma any_char_split P s :
  any_char P s = true ->
  exists before c after,
    s = String.append before (String c after) /\ P c = true.
Proof.
  induction s as [| c s IH]; cbn; [discriminate |].
  destruct (P c) eqn:Hc.
  - intros _. exists EmptyString, c, s. split; [reflexivity | exact Hc].
  - intros Hs. destruct (IH Hs) as (before & c' & after & -> & Hc').
    exists (String c before), c', after. split; [reflexivity | exact Hc'].
Qed.

(** A pattern accepts characters of its classes only. *)
Lemma lang_alphabet P r s :
  alphabet P r -> Regex.lang r s -> all_chars P s = true.
Proof.
  intros Hr Hs. induction Hs; cbn [alphabet] in Hr; cbn [all_chars];
    try reflexivity.
  - rewrite (Hr c H). reflexivity.
  - rewrite all_chars_app, IHHs1, IHHs2; tauto.
  - apply IHHs. tauto.
  - apply IHHs. tauto.
  - rewrite all_chars_app, IHHs1, IHHs2; tauto.
Qed.

Lemma lang_star_any s : Regex.lang (Regex.Star (Regex.Class Regex.any)) s.
Proof.
  induction s as [| c s IH]; [constructor |].
  apply (Regex.lang_star_cons _ (String c EmptyString) s);
    [now constructor | exact IH].
Qed.

(** An unanchored pattern [[class]+] looks for one character of the
    class. *)
Lemma test_plus_class p s :
  Regex.test (Regex.plus (Regex.Class p)) s = any_char p s.
Proof.
  apply eq_true_iff_eq. unfold Regex.test, Regex.plus.
  rewrite RegexFacts.matches_lang. split.
  - intros Hs.
    apply RegexFacts.lang_seq_inv in Hs as (s1 & s23 & -> & _ & Hs).
    apply RegexFacts.lang_seq_inv in Hs as (s2 & s3 & -> & Hs & _).
    apply RegexFacts.lang_seq_inv in Hs as (s21 & s22 & -> & Hs & _).
    inversion Hs as [| p' c Hc | | | | |]; subst.
    rewrite !any_char_app. cbn [any_char]. rewrite Hc.
    now rewrite orb_true_r.
  - intros Hs. apply any_char_split in Hs as (before & c & after & -> & Hc).
    apply Regex.lang_seq; [apply lang_star_any |].
    apply (Regex.lang_seq _ _ (String c EmptyString) after);
      [| apply lang_star_any].
    apply (Regex.lang_seq _ _ (String c EmptyString) EmptyString);
      [now constructor | constructor].
Qed.

Lemma dead_not_nullable r : dead r = true -> Regex.nullable r = false.
Proof.
  induction r; cbn; try discriminate; try reflexivity.
  - intros [H | H]%orb_true_iff; [rewrite (IHr1 H) | rewrite (IHr2 H)];
      [reflexivity | apply andb_false_r].
  - intros [H1 H2]%andb_true_iff. now rewrite (IHr1 H1), (IHr2 H2).
Qed.

Lemma dead_deriv c r : dead r = true -> dead (Regex.deriv c r) = true.
Proof.
  induction r; cbn; try discriminate; try reflexivity.
  - intros [H | H]%orb_true_iff.
    + rewrite (dead_not_nullable _ H). cbn. now rewrite (IHr1 H).
    + destruct (Regex.nullable r1); cbn; rewrite ?(IHr2 H), ?H;
        now rewrite ?orb_true_r.
  - intros [H1 H2]%andb_true_iff. now rewrite (IHr1 H1), (IHr2 H2).
Qed.

Lemma dead_matches r s : dead r = true -> Regex.matches r s = false.
Proof.
  revert r. induction s as [| c s IH]; intros r Hr; cbn.
  - now apply dead_not_nullable.
  - apply IH. now apply dead_deriv.
Qed.

Lemma blind_deriv P c r : blind P r -> blind P (Regex.deriv c r).
Proof.
  induction r; cbn; try tauto.
  - intros _. destruct (p c); exact I.
  - intros [H1 H2]. destruct (Regex.nullable r1); cbn; tauto.
Qed.

Lemma deriv_blind P c c' r :
  blind P r -> P c = true -> P c' = true ->
  Regex.deriv c r = Regex.deriv c' r.
Proof.
  intros Hr Hc Hc'. induction r; cbn in *; try reflexivity.
  - now rewrite (Hr c c' Hc Hc').
  - destruct Hr as [H1 H2]. now rewrite (IHr1 H1), (IHr2 H2).
  - destruct Hr as [H1 H2]. now rewrite (IHr1 H1), (IHr2 H2).
  - now rewrite (IHr Hr).
Qed.

(** On the strings of one class that a pattern does not look into, only
    the length counts. *)
Lemma matches_blind P r s :
  blind P r -> P "0"%char = true -> all_chars P s = true ->
  Regex.matches r s = Regex.matches r (zeros (String.length s)).
Proof.
  revert r. induction s as [| c s IH]; intros r Hr H0 Hs; cbn;
    [reflexivity |].
  cbn in Hs. apply andb_true_iff in Hs as [Hc Hs].
  rewrite (deriv_blind P c "0" r Hr Hc H0).
  apply IH; [now apply blind_deriv | exact H0 | exact Hs].
Qed.

Lemma zeros_add n m : zeros (n + m) = String.append (zeros n) (zeros m).
Proof.
  induction n as [| n IH]; cbn [Nat.add zeros];
    rewrite ?append_nil, ?append_cons; [reflexivity | now rewrite IH].
Qed.

Lemma matches_app r s1 s2 :
  Regex.matches r (String.append s1 s2)
  = Regex.matches (fold_left (fun r c => Regex.deriv c r)
                     (list_ascii_of_string s1) r) s2.
Proof.
  revert r. induction s1 as [| c s1 IH]; intros r;
    rewrite ?append_nil, ?append_cons; cbn; [reflexivity |].
  apply IH.
Qed.

Lemma sign_not_digit c : Regex.digit c = true -> sign_char c = false.
Proof.
  destruct c as [[] [] [] [] [] [] [] []]; vm_compute;
    first [reflexivity | discriminate].
Qed.

Lemma dot_not_digit c :
  Regex.digit c = true -> Regex.char "." c = false.
Proof.
  destruct c as [[] [] [] [] [] [] [] []]; vm_compute;
    first [reflexivity | discriminate].
Qed.

Lemma times_blind P n r : blind P r -> blind P (Regex.times n r).
Proof. induction n; cbn; tauto. Qed.

Lemma upto_blind P n r : blind P r -> blind P (Regex.upto n r).
Proof. induction n; cbn; tauto. Qed.

Lemma a_digit_blind : blind Regex.digit a_digit.
Proof. intros c c' Hc Hc'. now rewrite Hc, Hc'. Qed.

Lemma sign_blind : blind Regex.digit sign.
Proof.
  intros c c' Hc Hc'.
  change (sign_char c = sign_char c').
  now rewrite !sign_not_digit.
Qed.

Lemma dateRegex_blind : blind Regex.digit dateRegex.
Proof.
  unfold dateRegex, Regex.opt, Regex.range. cbn [blind].
  repeat split;
    auto using times_blind, upto_blind, a_digit_blind, sign_blind.
Qed.

Lemma dateTimeRegex_blind : blind Regex.digit dateTimeRegex.
Proof.
  unfold dateTimeRegex, Regex.opt, Regex.range. cbn [blind].
  repeat split;
    auto using times_blind, upto_blind, a_digit_blind, sign_blind.
  intros c c' Hc Hc'. now rewrite !dot_not_digit.
Qed.

Lemma long_zeros n r :
  dead (fold_left (fun r c => Regex.deriv c r)
          (list_ascii_of_string (zeros 19)) r) = true ->
  (19 <= n)%nat -> Regex.matches r (zeros n) = false.
Proof.
  intros Hdead Hn. replace n with (19 + (n - 19))%nat by lia.
  rewrite zeros_add, matches_app. now apply dead_matches.
Qed.

Lemma dateRegex_zeros n :
  Regex.matches dateRegex (zeros n) = true
  <-> (8 <= n <= 12 \/ 14 <= n <= 18)%nat.
Proof.
  destruct (le_lt_dec 19 n) as [Hn | Hn].
  - rewrite (long_zeros n dateRegex); [| vm_compute; reflexivity | exact Hn].
    split; [discriminate | lia].
  - do 19 (destruct n as [| n];
           [vm_compute; split; first [discriminate | lia | reflexivity] |]).
    lia.
Qed.

Lemma dateTimeRegex_zeros n :
  Regex.matches dateTimeRegex (zeros n) = true <-> n = 14%nat.
Proof.
  destruct (le_lt_dec 19 n) as [Hn | Hn].
  - rewrite (long_zeros n dateTimeRegex);
      [| vm_compute; reflexivity | exact Hn].
    split; [discriminate | lia].
  - do 19 (destruct n as [| n];
           [vm_compute; split; first [discriminate | lia | reflexivity] |]).
    lia.
Qed.

Lemma date_patterns_on_digits_aux s :
  all_chars Regex.digit s = true ->
  (8 <= String.length s <= 12 \/ 14 <= String.length s <= 18)%nat ->
  Regex.test_anchored dateRegex s = true.
Proof.
  intros Hs Hlength. unfold Regex.test_anchored.
  rewrite (matches_blind _ _ _ dateRegex_blind eq_refl Hs).
  now apply dateRegex_zeros.
Qed.

Lemma dateTimeRegex_digits s :
  all_chars Regex.digit s = true ->
  Regex.test_anchored dateTimeRegex s = true ->
  String.length s = 14%nat.
Proof.
  intros Hs. unfold Regex.test_anchored.
  rewrite (matches_blind _ _ _ dateTimeRegex_blind eq_refl Hs).
  apply dateTimeRegex_zeros.
Qed.

(** X10: what the two date patterns make of a value of digits only is a
    matter of its length.  The pattern of [checkDateFormats] and of the
    date of birth accepts 8 to 12 and 14 to 18 digits (a day, then
    optionally the six digits of a time, then up to four more), and not
    13; the pattern of [MSH-7] accepts 14 digits and no other number. *)
Theorem date_patterns_on_digits (s : string) :
  all_chars Regex.digit s = true ->
  (Regex.test_anchored dateRegex s = true
   <-> (8 <= String.length s <= 12 \/ 14 <= String.length s <= 18)%nat)
  /\ (Regex.test_anchored dateTimeRegex s = true
      <-> String.length s = 14%nat).
Proof.
  intros Hs. unfold Regex.test_anchored. split.
  - rewrite (matches_blind _ _ _ dateRegex_blind eq_refl Hs).
    apply dateRegex_zeros.
  - rewrite (matches_blind _ _ _ dateTimeRegex_blind eq_refl Hs).
    apply dateTimeRegex_zeros.
Qed.

Lemma times_alphabet P n r : alphabet P r -> alphabet P (Regex.times n r).
Proof. induction n; cbn; tauto. Qed.

Lemma upto_alphabet P n r : alphabet P r -> alphabet P (Regex.upto n r).
Proof. induction n; cbn; tauto. Qed.

Lemma dateRegex_alphabet :
  alphabet (fun c => Regex.digit c || sign_char c) dateRegex.
Proof.
  assert (Hd : alphabet (fun c => Regex.digit c || sign_char c) a_digit)
    by (intros c Hc; cbn in Hc; now rewrite Hc).
  assert (Hs : alphabet (fun c => Regex.digit c || sign_char c) sign)
    by (intros c Hc; change (sign_char c = true) in Hc;
        rewrite Hc; apply orb_true_r).
  unfold dateRegex, Regex.opt, Regex.range. cbn [alphabet].
  repeat split; auto using times_alphabet, upto_alphabet.
Qed.

(** The date pattern accepts digits and the two signs only. *)
Lemma dateRegex_characters s :
  Regex.test_anchored dateRegex s = true ->
  all_chars (fun c => Regex.digit c || sign_char c) s = true.
Proof.
  intros Hs. apply RegexFacts.matches_lang in Hs.
  exact (lang_alphabet _ _ _ dateRegex_alphabet Hs).
Qed.

Lemma date_patterns_on_digits_witness :
  Regex.test_anchored dateRegex "202401011200" = true
  /\ Regex.test_anchored dateTimeRegex "202401011200" <> true.
Proof.
  destruct (date_patterns_on_digits "202401011200") as [Hdate Htime].
  - vm_compute. reflexivity.
  - split.
    + apply Hdate. cbn [String.length]. lia.
    + intros Haccepted. apply Htime in Haccepted. discriminate Haccepted.
Defined.

Lemma test_phoneRegex s : Regex.test phoneRegex s = any_char phone_char s.
Proof. exact (test_plus_class phone_char s). Qed.

Lemma truthy_some s : truthy (Some s) = negb (String.eqb s "").
Proof. reflexivity. Qed.

(** X11: the phone pattern is not anchored, so one digit, dash,
    parenthesis or white space anywhere in the value satisfies it.  With a
    [PID] segment, [checkPhoneFormats] reports nothing exactly when each of
    [PID-13] and [PID-14] is missing, empty or has one such character. *)
Theorem phone_check_wants_one_character
  (parsed : ParsedMessage.t) (pidSegment : Segment.t)
  (fields : gmap string string) :
  find_segment "PID" (ParsedMessage.segments parsed) = Some pidSegment ->
  Segment.parsed pidSegment = Some fields ->
  (forall phone, Regex.test phoneRegex phone = any_char phone_char phone)
  /\ (checkPhoneFormats parsed = OK (Acc.result Acc.empty)
      <-> phone_passes (fields !! "field13")
          /\ phone_passes (fields !! "field14")).
Proof.
  intros Hfind Hfields. split; [exact test_phoneRegex |].
  unfold checkPhoneFormats. rewrite Hfind, Hfields.
  unfold phoneFields. cbn [forEach prop]. unfold mbind, Exc_bind.
  unfold phone_passes.
  destruct (fields !! "field13") as [p13 |],
           (fields !! "field14") as [p14 |];
    rewrite ?truthy_some, ?test_phoneRegex; cbn [truthy str];
    repeat match goal with
           | |- context [String.eqb ?s ""] =>
               destruct (String.eqb_spec s "")
           | |- context [any_char phone_char ?s] =>
               destruct (any_char phone_char s)
           end;
    cbn [negb];
    (split;
     [ intros Heq;
       first [ now (split; auto)
             | exfalso; cbv in Heq; discriminate Heq ]
     | intros [H13 H14];
       first [ reflexivity | exfalso; intuition congruence ] ]).
Qed.

Lemma phone_check_wants_one_character_witness :
  checkPhoneFormats Samples.patient = OK (Acc.result Acc.empty).
Proof.
  apply (phone_check_wants_one_character
           Samples.patient Samples.patientSegment Samples.patientFields
           eq_refl eq_refl).
  split.
  - right. vm_compute. reflexivity.
  - vm_compute. exact I.
Defined.

(** ** The header check *)

Lemma forEach_requiredFields fields entries : forall acc,
  forEach entries
    (fun acc '(fld, name) =>
       v ← prop (Some fields) fld;
       OK (if negb (truthy v) || is_str v "" || is_str v "Unknown"
           then Acc.push (missing_MSH_field fld name) 2 acc
           else acc))
    acc
  = OK (Acc_append acc
          {| Acc.issues :=
               map (fun entry => missing_MSH_field (fst entry) (snd entry))
                 (List.filter (MSH_field_missing fields) entries);
             Acc.scorePenalty :=
               2 * Z.of_nat
                     (length (List.filter (MSH_field_missing fields) entries)) |}).
Proof.
  induction entries as [| [fld name] entries IH]; intros acc;
    cbn [forEach List.filter].
  - unfold Acc_append. cbn. rewrite app_nil_r, Z.add_0_r.
    now destruct acc.
  - cbn [prop]. unfold mbind at 1, Exc_bind at 1. rewrite IH.
    destruct (MSH_field_missing fields (fld, name)) eqn:Hmissing;
      unfold MSH_field_missing in Hmissing; cbn [fst] in Hmissing;
      rewrite Hmissing; unfold Acc_append, Acc.push;
      cbn [Acc.issues Acc.scorePenalty map length fst snd];
      f_equal; f_equal; rewrite <- ?app_assoc; try reflexivity; lia.
Qed.

(** [checkMSHCompleteness] on a message whose first [MSH] segment has the
    field map [fields]: one issue of two points for each required field
    that is missing, empty or [Unknown], then the rule of [MSH-7]. *)
Lemma checkMSHCompleteness_rules parsed mshSegment fields :
  find_segment "MSH" (ParsedMessage.segments parsed) = Some mshSegment ->
  Segment.parsed mshSegment = Some fields ->
  checkMSHCompleteness parsed
  = OK (Acc.result_with_recommendations
          (MSH_datetime_rule (fields !! "field7")
             {| Acc.issues :=
                  map (fun entry => missing_MSH_field (fst entry) (snd entry))
                    (List.filter (MSH_field_missing fields) requiredFields);
                Acc.scorePenalty :=
                  2 * Z.of_nat
                        (length (List.filter (MSH_field_missing fields)
                                   requiredFields)) |})).
Proof.
  intros Hfind Hfields. unfold checkMSHCompleteness.
  rewrite Hfind, Hfields. rewrite forEach_requiredFields.
  unfold mbind, Exc_bind. cbn [prop]. unfold Acc_append.
  cbn [Acc.empty Acc.issues Acc.scorePenalty app]. rewrite Z.add_0_l.
  reflexivity.
Qed.

Lemma missing_MSH_fields_elsewhere entries :
  incl entries requiredFields ->
  Forall (fun i => field i <> "MSH-7")
    (map (fun entry => missing_MSH_field (fst entry) (snd entry)) entries).
Proof.
  intros Hincl. apply List.Forall_forall. intros i Hi.
  apply in_map_iff in Hi as ([fld name] & <- & Hin).
  apply Hincl in Hin. unfold requiredFields in Hin. cbn [In] in Hin.
  repeat match type of Hin with
         | _ \/ _ => destruct Hin as [[= <- <-] | Hin]; [vm_compute; discriminate |]
         end.
  destruct Hin.
Qed.

Lemma filter_incl {A : Type} (f : A -> bool) (l : list A) :
  incl (List.filter f l) l.
Proof. intros x Hx. now apply filter_In in Hx. Qed.

Lemma dateTimeRegex_value v :
  Regex.test_anchored dateTimeRegex v = true ->
  truthy (Some v) && negb (is_str (Some v) "Unknown") = true.
Proof.
  intros Hv. destruct (String.eqb_spec v "") as [-> | Hne];
    [vm_compute in Hv; discriminate |].
  destruct (String.eqb_spec v "Unknown") as [-> | Hne'];
    [vm_compute in Hv; discriminate |].
  unfold truthy, is_str. apply String.eqb_neq in Hne, Hne'.
  now rewrite Hne, Hne'.
Qed.

Lemma all_any_chars P Q s :
  (forall c, P c = true -> Q c = false) ->
  all_chars P s = true -> any_char Q s = false.
Proof.
  intros HPQ. induction s as [| c s IH]; cbn; [reflexivity |].
  intros [Hc Hs]%andb_true_iff. now rewrite (HPQ c Hc), (IH Hs).
Qed.

Lemma dot_not_in_dates c :
  Regex.digit c || sign_char c = true -> Regex.char "." c = false.
Proof.
  destruct c as [[] [] [] [] [] [] [] []]; vm_compute;
    first [reflexivity | discriminate].
Qed.

Lemma sweep_fields_elsewhere parsed :
  date_field parsed ("MSH", "field7", "Date/Time of Message") = None
  \/ (exists v,
        date_field parsed ("MSH", "field7", "Date/Time of Message") = Some v
        /\ (v = "" \/ Regex.test_anchored dateRegex v = true)) ->
  Forall (fun i => field i <> "MSH-7")
    (concat (map (fun entry =>
                    Acc.issues
                      (date_format_rule entry (date_field parsed entry)
                         Acc.empty))
                 dateFields)).
Proof.
  intros Hmsh. unfold dateFields. cbn [map concat].
  repeat apply Forall_app_2; try constructor.
  - destruct Hmsh as [-> | (v & -> & [-> | Hv])]; [constructor .. |].
    unfold date_format_rule. cbn [truthy str]. rewrite Hv.
    destruct (negb (String.eqb v "")); constructor.
  - unfold date_format_rule.
    destruct (truthy _); [| constructor].
    destruct (negb _); repeat constructor. vm_compute. discriminate.
  - unfold date_format_rule.
    destruct (truthy _); [| constructor].
    destruct (negb _); repeat constructor. vm_compute. discriminate.
  - unfold date_format_rule.
    destruct (truthy _); [| constructor].
    destruct (negb _); repeat constructor. vm_compute. discriminate.
  - unfold date_format_rule.
    destruct (truthy _); [| constructor].
    destruct (negb _); repeat constructor. vm_compute. discriminate.
  - unfold date_format_rule.
    destruct (truthy _); [| constructor].
    destruct (negb _); repeat constructor. vm_compute. discriminate.
Qed.

(** X12: a header timestamp with a fraction of a second, which the
    pattern of [checkMSHCompleteness] accepts, is reported by
    [checkDateFormats], whose pattern has no place for the point: the
    header check has no finding on [MSH-7], and the sweep has its
    [Invalid Date/Time of Message format]. *)
Theorem fractional_timestamp_fails_the_sweep
  (parsed : ParsedMessage.t) (mshSegment : Segment.t) (v : string) :
  well_formed parsed ->
  find_segment "MSH" (ParsedMessage.segments parsed) = Some mshSegment ->
  field_value mshSegment "field7" = Some v ->
  Regex.test_anchored dateTimeRegex v = true ->
  any_char (Regex.char ".") v = true ->
  exists header sweep,
    checkMSHCompleteness parsed = OK header
    /\ Forall (fun i => field i <> "MSH-7") (CheckResult.issues header)
    /\ checkDateFormats parsed = OK sweep
    /\ In (invalid_date_format "MSH" "field7" "Date/Time of Message" v)
         (CheckResult.issues sweep).
Proof.
  intros Hwf Hfind Hv Htime Hdot.
  destruct (field_value_parsed _ _ _ Hv) as (fields & Hfields & Hfield7).
  destruct (checkDateFormats_sum parsed Hwf) as (sweep & Hsweep & Hissues & _).
  eexists. exists sweep.
  split; [exact (checkMSHCompleteness_rules _ _ _ Hfind Hfields) |].
  split; [| split; [exact Hsweep |]].
  - cbn [Acc.result_with_recommendations CheckResult.issues].
    rewrite Hfield7. unfold MSH_datetime_rule.
    rewrite (dateTimeRegex_value v Htime). cbn [str]. rewrite Htime.
    cbn [negb Acc.issues].
    apply missing_MSH_fields_elsewhere, filter_incl.
  - rewrite Hissues. unfold dateFields. cbn [map concat].
    apply in_or_app. left.
    unfold date_field.
    rewrite (first_field_value _ _ "field7" _ Hfind), Hv.
    rewrite date_format_rule_malformed; [now left | |].
    + intros ->. discriminate Hdot.
    + destruct (Regex.test_anchored dateRegex v) eqn:Hdate; [| reflexivity].
      apply dateRegex_characters in Hdate.
      rewrite (all_any_chars _ _ v dot_not_in_dates Hdate) in Hdot.
      discriminate Hdot.
Qed.

(** X13: a header timestamp of digits that stops short of the seconds
    (8 to 12 digits) or runs past them (15 to 18) is the other way round:
    [checkMSHCompleteness] reports its [Invalid Date/Time format], and
    [checkDateFormats] has nothing to say about [MSH-7]. *)
Theorem partial_timestamp_fails_the_header_check
  (parsed : ParsedMessage.t) (mshSegment : Segment.t) (v : string) :
  well_formed parsed ->
  find_segment "MSH" (ParsedMessage.segments parsed) = Some mshSegment ->
  field_value mshSegment "field7" = Some v ->
  all_chars Regex.digit v = true ->
  (8 <= String.length v <= 12 \/ 15 <= String.length v <= 18)%nat ->
  exists header sweep,
    checkMSHCompleteness parsed = OK header
    /\ In invalid_MSH_datetime (CheckResult.issues header)
    /\ checkDateFormats parsed = OK sweep
    /\ Forall (fun i => field i <> "MSH-7") (CheckResult.issues sweep).
Proof.
  intros Hwf Hfind Hv Hdigits Hlength.
  destruct (field_value_parsed _ _ _ Hv) as (fields & Hfields & Hfield7).
  destruct (checkDateFormats_sum parsed Hwf) as (sweep & Hsweep & Hissues & _).
  assert (Hdate : Regex.test_anchored dateRegex v = true)
    by (apply date_patterns_on_digits_aux; [exact Hdigits | lia]).
  assert (Htime : Regex.test_anchored dateTimeRegex v = false).
  { destruct (Regex.test_anchored dateTimeRegex v) eqn:Htime; [| reflexivity].
    apply dateTimeRegex_digits in Htime; [lia | exact Hdigits]. }
  assert (Hne : v <> "") by (intros ->; cbn in Hlength; lia).
  assert (Hne' : v <> "Unknown") by (intros ->; discriminate Hdigits).
  eexists. exists sweep.
  split; [exact (checkMSHCompleteness_rules _ _ _ Hfind Hfields) |].
  split; [| split; [exact Hsweep |]].
  - cbn [Acc.result_with_recommendations CheckResult.issues].
    rewrite Hfield7. unfold MSH_datetime_rule, truthy, is_str.
    apply String.eqb_neq in Hne, Hne'. rewrite Hne, Hne'. cbn [negb andb str].
    rewrite Htime. cbn [negb Acc.push Acc.issues].
    apply in_or_app. right. now left.
  - rewrite Hissues. apply sweep_fields_elsewhere. right. exists v.
    unfold date_field.
    rewrite (first_field_value _ _ "field7" _ Hfind), Hv. auto.
Qed.

Lemma fractional_timestamp_fails_the_sweep_witness :
  exists header sweep,
    checkMSHCompleteness (Samples.header "20240101120000.25") = OK header
    /\ Forall (fun i => field i <> "MSH-7") (CheckResult.issues header)
    /\ checkDateFormats (Samples.header "20240101120000.25") = OK sweep
    /\ In (invalid_date_format "MSH" "field7" "Date/Time of Message"
             "20240101120000.25")
         (CheckResult.issues sweep).
Proof.
  apply (fractional_timestamp_fails_the_sweep
           (Samples.header "20240101120000.25")
           (Samples.headerSegment "20240101120000.25") "20240101120000.25").
  - intros s [<- | []]. discriminate.
  - reflexivity.
  - vm_compute. reflexivity.
  - vm_compute. reflexivity.
  - vm_compute. reflexivity.
Defined.

Lemma partial_timestamp_fails_the_header_check_witness :
  exists header sweep,
    checkMSHCompleteness (Samples.header "20240101") = OK header
    /\ In invalid_MSH_datetime (CheckResult.issues header)
    /\ checkDateFormats (Samples.header "20240101") = OK sweep
    /\ Forall (fun i => field i <> "MSH-7") (CheckResult.issues sweep).
Proof.
  apply (partial_timestamp_fails_the_header_check
           (Samples.header "20240101") (Samples.headerSegment "20240101")
           "20240101").
  - intros s [<- | []]. discriminate.
  - reflexivity.
  - vm_compute. reflexivity.
  - vm_compute. reflexivity.
  - cbn [String.length]. lia.
Defined.

Lemma MSH_field_missing_placeholder
  (fields : gmap string string) (fld : string) entry :
  MSH_field_missing (<[fld := "Unknown"]> fields) entry
  = MSH_field_missing (<[fld := ""]> fields) entry.
Proof.
  unfold MSH_field_missing.
  destruct (decide (fld = fst entry)) as [-> | Hne].
  - now rewrite !lookup_insert_eq.
  - now rewrite !lookup_insert_ne.
Qed.

Lemma MSH_datetime_rule_placeholder
  (fields : gmap string string) (fld : string) acc :
  MSH_datetime_rule (<[fld := "Unknown"]> fields !! "field7") acc
  = MSH_datetime_rule (<[fld := ""]> fields !! "field7") acc.
Proof.
  destruct (decide (fld = "field7")) as [-> | Hne].
  - now rewrite !lookup_insert_eq.
  - now rewrite !lookup_insert_ne.
Qed.

Lemma filter_ext_all {A : Type} (f g : A -> bool) (l : list A) :
  (forall x, f x = g x) -> List.filter f l = List.filter g l.
Proof.
  intros Hfg. induction l as [| x l IH]; cbn; [reflexivity |].
  now rewrite Hfg, IH.
Qed.

(** X14: the header check takes the placeholder [Unknown] for a missing
    value: in any field of the header, [Unknown] and the empty string give
    the same result of [checkMSHCompleteness] (for [MSH-7] too, where
    [Unknown] is reported as missing and not as badly formatted). *)
Theorem header_placeholder_counts_as_missing
  (fld : string) (parsed : ParsedMessage.t) :
  checkMSHCompleteness (set_field "MSH" fld "Unknown" parsed)
  = checkMSHCompleteness (set_field "MSH" fld "" parsed).
Proof.
  destruct (find_segment "MSH" (ParsedMessage.segments parsed))
    as [msh |] eqn:Hfind.
  - pose proof (find_set_field_same "MSH" fld "Unknown" _ _ Hfind) as Hu.
    pose proof (find_set_field_same "MSH" fld "" _ _ Hfind) as He.
    destruct (Segment.parsed msh) as [fields |] eqn:Hfields.
    + rewrite (checkMSHCompleteness_rules
                 (set_field "MSH" fld "Unknown" parsed) _
                 (<[fld := "Unknown"]> fields) Hu) by reflexivity.
      rewrite (checkMSHCompleteness_rules
                 (set_field "MSH" fld "" parsed) _
                 (<[fld := ""]> fields) He) by reflexivity.
      rewrite MSH_datetime_rule_placeholder.
      now rewrite (filter_ext_all _ _ requiredFields
                     (MSH_field_missing_placeholder fields fld)).
    + unfold checkMSHCompleteness.
      cbn [set_field ParsedMessage.segments]. rewrite Hu, He.
      reflexivity.
  - unfold checkMSHCompleteness.
    cbn [set_field ParsedMessage.segments].
    rewrite !find_set_field, Hfind. reflexivity.
Qed.

(** ** Dates *)

Lemma DayFromYear_succ y :
  JsDate.DayFromYear (y + 1)
  = JsDate.DayFromYear y + (if JsDate.InLeapYear y then 366 else 365).
Proof.
  unfold JsDate.DayFromYear, JsDate.InLeapYear.
  destruct (Z.eqb_spec (y mod 4) 0), (Z.eqb_spec (y mod 100) 0),
    (Z.eqb_spec (y mod 400) 0); cbn [andb orb negb];
    Z.div_mod_to_equations; lia.
Qed.

Lemma DayFromYear_le y y' :
  y <= y' -> JsDate.DayFromYear y <= JsDate.DayFromYear y'.
Proof.
  intros Hy. unfold JsDate.DayFromYear. Z.div_mod_to_equations. lia.
Qed.

Lemma DaysBeforeMonth_table y m :
  1 <= m <= 12 ->
  JsDate.DaysBeforeMonth y m
  = match m with
    | 1 => 0 | 2 => 31 | 3 => 59 | 4 => 90 | 5 => 120 | 6 => 151
    | 7 => 181 | 8 => 212 | 9 => 243 | 10 => 273 | 11 => 304 | _ => 334
    end
    + (if 3 <=? m then (if JsDate.InLeapYear y then 1 else 0) else 0).
Proof.
  intros Hm.
  assert (Hcases : m = 1 \/ m = 2 \/ m = 3 \/ m = 4 \/ m = 5 \/ m = 6
                   \/ m = 7 \/ m = 8 \/ m = 9 \/ m = 10 \/ m = 11 \/ m = 12)
    by lia.
  unfold JsDate.DaysBeforeMonth, JsDate.DaysInMonth.
  generalize (JsDate.InLeapYear y). intros leap.
  repeat (destruct Hcases as [-> | Hcases]; [destruct leap; reflexivity |]).
  subst m. destruct leap; reflexivity.
Qed.

Lemma day_of_year_bounds y m d :
  calendar_day y m d = true ->
  1 <= JsDate.DaysBeforeMonth y m + d
    <= (if JsDate.InLeapYear y then 366 else 365).
Proof.
  unfold calendar_day. intros Hday.
  apply andb_true_iff in Hday as [Hday Hd'].
  apply andb_true_iff in Hday as [Hday Hd].
  apply andb_true_iff in Hday as [Hm Hm'].
  apply Z.leb_le in Hm, Hm', Hd, Hd'.
  rewrite DaysBeforeMonth_table by lia.
  assert (Hcases : m = 1 \/ m = 2 \/ m = 3 \/ m = 4 \/ m = 5 \/ m = 6
                   \/ m = 7 \/ m = 8 \/ m = 9 \/ m = 10 \/ m = 11 \/ m = 12)
    by lia.
  unfold JsDate.DaysInMonth in Hd'. revert Hd'.
  generalize (JsDate.InLeapYear y). intros leap.
  repeat (destruct Hcases as [-> | Hcases];
          [destruct leap; cbn; lia |]).
  subst m. destruct leap; cbn; lia.
Qed.

Lemma day_of_year_order y m d m' d' :
  calendar_day y m d = true -> calendar_day y m' d' = true ->
  (JsDate.DaysBeforeMonth y m + d < JsDate.DaysBeforeMonth y m' + d'
   <-> m < m' \/ (m = m' /\ d < d')).
Proof.
  unfold calendar_day. intros Hday Hday'.
  apply andb_true_iff in Hday as [Hday Hd2].
  apply andb_true_iff in Hday as [Hday Hd1].
  apply andb_true_iff in Hday as [Hm1 Hm2].
  apply andb_true_iff in Hday' as [Hday' Hd2'].
  apply andb_true_iff in Hday' as [Hday' Hd1'].
  apply andb_true_iff in Hday' as [Hm1' Hm2'].
  apply Z.leb_le in Hm1, Hm2, Hd1, Hd2, Hm1', Hm2', Hd1', Hd2'.
  rewrite !DaysBeforeMonth_table by lia.
  assert (Hcases : m = 1 \/ m = 2 \/ m = 3 \/ m = 4 \/ m = 5 \/ m = 6
                   \/ m = 7 \/ m = 8 \/ m = 9 \/ m = 10 \/ m = 11 \/ m = 12)
    by lia.
  assert (Hcases' : m' = 1 \/ m' = 2 \/ m' = 3 \/ m' = 4 \/ m' = 5 \/ m' = 6
                    \/ m' = 7 \/ m' = 8 \/ m' = 9 \/ m' = 10 \/ m' = 11
                    \/ m' = 12)
    by lia.
  unfold JsDate.DaysInMonth in Hd2, Hd2'. revert Hd2 Hd2'.
  generalize (JsDate.InLeapYear y). intros leap.
  clear Hm1 Hm2 Hm1' Hm2'.
  repeat (destruct Hcases as [-> | Hcases]);
    repeat (destruct Hcases' as [-> | Hcases']);
    subst; destruct leap; cbn; lia.
Qed.

(** The time values of two days of the calendar are in the order of the
    days. *)
Lemma MakeDate_order y m d y' m' d' :
  calendar_day y m d = true -> calendar_day y' m' d' = true ->
  (JsDate.MakeDate y m d <? JsDate.MakeDate y' m' d') = true
  <-> day_before y m d y' m' d'.
Proof.
  intros Hday Hday'. rewrite Z.ltb_lt. unfold JsDate.MakeDate, day_before.
  pose proof (day_of_year_bounds _ _ _ Hday) as Hb.
  pose proof (day_of_year_bounds _ _ _ Hday') as Hb'.
  unfold JsDate.msPerDay.
  destruct (Z.lt_trichotomy y y') as [Hlt | [<- | Hgt]].
  - pose proof (DayFromYear_succ y) as Hs.
    pose proof (DayFromYear_le (y + 1) y' ltac:(lia)) as Hle.
    destruct (JsDate.InLeapYear y), (JsDate.InLeapYear y'); split; lia.
  - pose proof (day_of_year_order _ _ _ _ _ Hday Hday') as Ho.
    split; intros Hlt.
    + right. split; [reflexivity |]. apply Ho. lia.
    + destruct Hlt as [Hlt | [_ Hlt]]; [lia |]. apply Ho in Hlt. lia.
  - pose proof (DayFromYear_succ y') as Hs.
    pose proof (DayFromYear_le (y' + 1) y ltac:(lia)) as Hle.
    destruct (JsDate.InLeapYear y), (JsDate.InLeapYear y'); split; lia.
Qed.

Lemma written_two n s :
  written n 2 s ->
  exists c1 c2,
    s = String c1 (String c2 EmptyString)
    /\ Regex.digit c1 = true /\ Regex.digit c2 = true
    /\ JsDate.digits_value s = Some n.
Proof.
  intros [Hlength Hvalue].
  destruct s as [| c1 [| c2 [| c3 s]]]; try discriminate Hlength.
  exists c1, c2. split; [reflexivity |]. pose proof Hvalue as Hdigits.
  unfold JsDate.digits_value in Hdigits.
  cbn [JsDate.digits_value_from] in Hdigits.
  unfold JsDate.digit_value in Hdigits.
  destruct (Regex.digit c1); [| discriminate Hdigits].
  destruct (Regex.digit c2); [| discriminate Hdigits].
  repeat split. exact Hvalue.
Qed.

Lemma written_four n s :
  written n 4 s ->
  exists c1 c2 c3 c4,
    s = String c1 (String c2 (String c3 (String c4 EmptyString)))
    /\ Regex.digit c1 = true /\ Regex.digit c2 = true
    /\ Regex.digit c3 = true /\ Regex.digit c4 = true
    /\ JsDate.digits_value s = Some n.
Proof.
  intros [Hlength Hvalue].
  destruct s as [| c1 [| c2 [| c3 [| c4 [| c5 s]]]]];
    try discriminate Hlength.
  exists c1, c2, c3, c4. split; [reflexivity |]. pose proof Hvalue as Hdigits.
  unfold JsDate.digits_value in Hdigits.
  cbn [JsDate.digits_value_from] in Hdigits.
  unfold JsDate.digit_value in Hdigits.
  destruct (Regex.digit c1); [| discriminate Hdigits].
  destruct (Regex.digit c2); [| discriminate Hdigits].
  destruct (Regex.digit c3); [| discriminate Hdigits].
  destruct (Regex.digit c4); [| discriminate Hdigits].
  repeat split. exact Hvalue.
Qed.

Lemma substring_0_0 s : String.substring 0 0 s = EmptyString.
Proof. now destruct s. Qed.

(** A field that starts with the eight digits of a day of the calendar
    is read as midnight UTC of that day, whatever follows them. *)
Lemma of_field_calendar_day `{JsDate.Engine} y m d ys ms ds rest :
  written y 4 ys -> written m 2 ms -> written d 2 ds ->
  calendar_day y m d = true ->
  JsDate.of_field (String.append ys (String.append ms (String.append ds rest)))
  = Some (JsDate.MakeDate y m d).
Proof.
  intros (y1 & y2 & y3 & y4 & -> & Hy1 & Hy2 & Hy3 & Hy4 & Hy)%written_four
         (m1 & m2 & -> & Hm1 & Hm2 & Hm)%written_two
         (d1 & d2 & -> & Hd1 & Hd2 & Hd)%written_two Hday.
  repeat (rewrite append_cons || rewrite append_nil).
  unfold JsDate.of_field, substring0. cbn [String.substring].
  rewrite substring_0_0.
  unfold JsDate.dash_ymd. cbn [JsDate.take_digits].
  rewrite Hy1, Hy2, Hy3, Hy4, Hm1, Hm2, Hd1, Hd2.
  cbn [String.substring].
  repeat (rewrite append_cons || rewrite append_nil).
  unfold JsDate.parse, JsDate.iso_date.
  cbn [String.length Nat.eqb String.substring]. rewrite !String.eqb_refl.
  cbn [andb]. rewrite Hy, Hm, Hd.
  unfold calendar_day in Hday. now rewrite Hday.
Qed.

Lemma lt_irrefl t : JsDate.lt t t = false.
Proof. destruct t as [x |]; [apply Z.ltb_irrefl | reflexivity]. Qed.

Lemma truthy_written n k s rest :
  written n (S k) s -> truthy (Some (String.append s rest)) = true.
Proof. intros [Hlength _]. destruct s; [discriminate Hlength | reflexivity]. Qed.

Lemma life_dates_rule_other `{JsDate.Engine} b d :
  ~ In discharge_before_admit (Acc.issues (life_dates_rule b d Acc.empty)).
Proof.
  destruct (life_dates_rule_cases b d) as [-> | ->]; cbn.
  - tauto.
  - intros [Heq | []]. discriminate Heq.
Qed.

Section Visit.

Context `{JsDate.Engine}.
Variables (parsed : ParsedMessage.t) (pv1Segment : Segment.t).
Variables admitDate dischargeDate : string.
Hypothesis Hwf : well_formed parsed.
Hypothesis Hfind :
  find_segment "PV1" (ParsedMessage.segments parsed) = Some pv1Segment.
Hypothesis Hadmit : field_value pv1Segment "field44" = Some admitDate.
Hypothesis Hdischarge : field_value pv1Segment "field45" = Some dischargeDate.

(** What [checkBusinessRules] finds, when the message has the two dates
    of the visit. *)
Lemma checkBusinessRules_visit :
  checkBusinessRules parsed
  = OK (Acc.result
          (Acc_append
             (visit_dates_rule (Some admitDate) (Some dischargeDate) Acc.empty)
             (life_dates_rule (first_field parsed "PID" "field7")
                (first_field parsed "PID" "field29") Acc.empty))).
Proof.
  rewrite (checkBusinessRules_rules parsed Hwf).
  rewrite life_dates_rule_appends.
  rewrite (first_field_value _ _ "field44" _ Hfind), Hadmit.
  rewrite (first_field_value _ _ "field45" _ Hfind), Hdischarge.
  reflexivity.
Qed.

Lemma visit_flagged_iff :
  truthy (Some admitDate) && truthy (Some dischargeDate) = true ->
  exists r,
    checkBusinessRules parsed = OK r
    /\ (In discharge_before_admit (CheckResult.issues r)
        <-> JsDate.lt (JsDate.of_field dischargeDate)
              (JsDate.of_field admitDate) = true).
Proof.
  intros Htruthy. eexists. split; [exact checkBusinessRules_visit |].
  cbn [Acc.result CheckResult.issues Acc_append Acc.issues].
  unfold visit_dates_rule. rewrite Htruthy. cbn [str].
  destruct (JsDate.lt _ _); cbn [Acc.push Acc.empty Acc.issues app].
  - split; [reflexivity | intros _; now left].
  - split; [| discriminate]. intros Hin.
    exfalso. exact (life_dates_rule_other _ _ Hin).
Qed.

Lemma visit_same_day :
  substring0 8 admitDate = substring0 8 dischargeDate ->
  exists r,
    checkBusinessRules parsed = OK r
    /\ ~ In discharge_before_admit (CheckResult.issues r).
Proof.
  intros Hsame. eexists. split; [exact checkBusinessRules_visit |].
  cbn [Acc.result CheckResult.issues Acc_append Acc.issues].
  unfold visit_dates_rule. cbn [str].
  rewrite (of_field_date_only dischargeDate), (of_field_date_only admitDate).
  rewrite Hsame, lt_irrefl.
  destruct (_ && _); cbn [Acc.empty Acc.issues app];
    apply life_dates_rule_other.
Qed.

End Visit.

(** X15: the visit rule compares days, not times: when the admit and the
    discharge fields start with the same eight characters, whatever
    follows them, [checkBusinessRules] does not report a discharge before
    the admission. *)
Theorem times_of_day_are_not_compared
  `{JsDate.Engine} (parsed : ParsedMessage.t) (pv1Segment : Segment.t)
  (admitDate dischargeDate : string) :
  well_formed parsed ->
  find_segment "PV1" (ParsedMessage.segments parsed) = Some pv1Segment ->
  field_value pv1Segment "field44" = Some admitDate ->
  field_value pv1Segment "field45" = Some dischargeDate ->
  substring0 8 admitDate = substring0 8 dischargeDate ->
  exists r,
    checkBusinessRules parsed = OK r
    /\ ~ In discharge_before_admit (CheckResult.issues r).
Proof. intros. eapply visit_same_day; eassumption. Qed.

(** X16: on two fields that start with the eight digits of a day of the
    calendar, [YYYYMMDD], the visit rule is the order of the calendar:
    [checkBusinessRules] reports [Discharge date before admit date]
    exactly when the day of the discharge comes before the day of the
    admission, in any year, leap years included, for every engine. *)
Theorem visit_rule_is_calendar_order
  `{JsDate.Engine} (parsed : ParsedMessage.t) (pv1Segment : Segment.t)
  (ys ms ds rest ys' ms' ds' rest' : string) (y m d y' m' d' : Z) :
  well_formed parsed ->
  find_segment "PV1" (ParsedMessage.segments parsed) = Some pv1Segment ->
  field_value pv1Segment "field44"
    = Some (String.append ys (String.append ms (String.append ds rest))) ->
  field_value pv1Segment "field45"
    = Some (String.append ys' (String.append ms' (String.append ds' rest'))) ->
  written y 4 ys -> written m 2 ms -> written d 2 ds ->
  calendar_day y m d = true ->
  written y' 4 ys' -> written m' 2 ms' -> written d' 2 ds' ->
  calendar_day y' m' d' = true ->
  exists r,
    checkBusinessRules parsed = OK r
    /\ (In discharge_before_admit (CheckResult.issues r)
        <-> day_before y' m' d' y m d).
Proof.
  intros Hwf Hfind Hadmit Hdischarge Hy Hm Hd Hday Hy' Hm' Hd' Hday'.
  destruct (visit_flagged_iff parsed pv1Segment _ _ Hwf Hfind Hadmit Hdischarge)
    as (r & Hr & Hiff).
  { now rewrite (truthy_written _ _ _ _ Hy), (truthy_written _ _ _ _ Hy'). }
  exists r. split; [exact Hr |]. rewrite Hiff.
  rewrite (of_field_calendar_day y m d ys ms ds rest) by assumption.
  rewrite (of_field_calendar_day y' m' d' ys' ms' ds' rest') by assumption.
  cbn [JsDate.lt]. now apply MakeDate_order.
Qed.

Lemma times_of_day_are_not_compared_witness :
  exists r,
    @checkBusinessRules PositionalParser.engine
      (Samples.stay "202401101500" "202401100900") = OK r
    /\ ~ In discharge_before_admit (CheckResult.issues r).
Proof.
  apply (@times_of_day_are_not_compared PositionalParser.engine
           (Samples.stay "202401101500" "202401100900")
           (Samples.visitSegment "202401101500" "202401100900")
           "202401101500" "202401100900").
  - intros s [<- | []]. discriminate.
  - reflexivity.
  - vm_compute. reflexivity.
  - vm_compute. reflexivity.
  - reflexivity.
Defined.

Lemma visit_rule_is_calendar_order_witness :
  exists r,
    @checkBusinessRules PositionalParser.engine
      (Samples.stay "20240301" "20240229") = OK r
    /\ (In discharge_before_admit (CheckResult.issues r)
        <-> day_before 2024 2 29 2024 3 1).
Proof.
  apply (@visit_rule_is_calendar_order PositionalParser.engine
           (Samples.stay "20240301" "20240229")
           (Samples.visitSegment "20240301" "20240229")
           "2024" "03" "01" EmptyString "2024" "02" "29" EmptyString).
  - intros s [<- | []]. discriminate.
  - reflexivity.
  - vm_compute. reflexivity.
  - vm_compute. reflexivity.
  - split; reflexivity.
  - split; reflexivity.
  - split; reflexivity.
  - reflexivity.
  - split; reflexivity.
  - split; reflexivity.
  - split; reflexivity.
  - reflexivity.
Defined.

(** ** Messages without a segment, or without a patient *)

Lemma battery_without_segments `{JsDate.Engine} parsed :
  ParsedMessage.segments parsed = [] ->
  evaluate_all battery parsed
  = OK [ {| CheckResult.issues := [missing_MSH_segment];
            CheckResult.recommendations := None;
            CheckResult.scorePenalty := 20 |};
         checkRequiredSegments parsed;
         Acc.result_with_recommendations Acc.empty;
         Acc.result Acc.empty; Acc.result Acc.empty; Acc.result Acc.empty;
         Acc.result Acc.empty; Acc.result Acc.empty; Acc.result Acc.empty;
         Acc.result Acc.empty ].
Proof.
  destruct parsed as [messageType totalSegments segments].
  cbn [ParsedMessage.segments]. intros ->. reflexivity.
Qed.

(** X17: when the gate passes and the parser returns a message without
    any segment, the analysis completes: the report is valid, with the
    Critical [Missing MSH segment] and a score of 80, or, for a message
    type with [ADT] in it, with the two missing-segment issues after it
    and a score of 55. *)
Theorem message_without_segments
  `{Hl7Parser} `{JsDate.Engine} (hl7Message : string)
  (validation : Validation.t) (parsed : ParsedMessage.t) :
  validateHL7Message hl7Message = OK validation ->
  Validation.isValid validation = true ->
  parseHL7Message hl7Message = OK parsed ->
  ParsedMessage.segments parsed = [] ->
  let report := analyzeDataQuality hl7Message in
  Report.isValid report = true
  /\ if includes "ADT" (or_else (ParsedMessage.messageType parsed) "")
     then Report.issues report
          = [missing_MSH_segment; missing_PID_segment; missing_PV1_segment]
          /\ Report.overallScore report = 55
     else Report.issues report = [missing_MSH_segment]
          /\ Report.overallScore report = 80.
Proof.
  intros Hv Hvalid Hp Hsegments report. subst report.
  rewrite (analysis_completes _ _ _ _ Hv Hvalid Hp
             (battery_without_segments parsed Hsegments)).
  cbn [Report.isValid Report.issues Report.overallScore].
  split; [reflexivity |].
  unfold checkRequiredSegments. rewrite Hsegments.
  destruct (includes "ADT" _); split; reflexivity.
Qed.

Lemma message_without_segments_witness :
  Report.overallScore
    (@analyzeDataQuality Samples.emptyParser PositionalParser.engine
       getSampleADTMessage) = 55.
Proof.
  destruct (@message_without_segments
              Samples.emptyParser PositionalParser.engine getSampleADTMessage
              {| Validation.isValid := true; Validation.errors := None |}
              {| ParsedMessage.messageType := Some "ADT^A01";
                 ParsedMessage.totalSegments := 0;
                 ParsedMessage.segments := [] |}
              eq_refl eq_refl eq_refl eq_refl) as [_ Hreport].
  exact (proj2 Hreport).
Defined.

(** X18: without a [PID] segment the four checks of the patient's
    identifier, address and phones and of the patient class return
    without a finding: the class in [PV1-2] is checked only when the
    message has a [PID] segment too. *)
Theorem no_patient_no_patient_findings (parsed : ParsedMessage.t) :
  find_segment "PID" (ParsedMessage.segments parsed) = None ->
  checkIdentifierFormats parsed = OK (Acc.result Acc.empty)
  /\ checkAddressFormats parsed = OK (Acc.result Acc.empty)
  /\ checkPhoneFormats parsed = OK (Acc.result Acc.empty)
  /\ checkDataConsistency parsed = OK (Acc.result Acc.empty).
Proof.
  intros Hfind.
  unfold checkIdentifierFormats, checkAddressFormats, checkPhoneFormats,
    checkDataConsistency.
  rewrite Hfind. repeat split; reflexivity.
Qed.

Lemma no_patient_no_patient_findings_witness :
  checkDataConsistency (Samples.stay "20240110" "20240112")
  = OK (Acc.result Acc.empty).
Proof.
  apply (no_patient_no_patient_findings (Samples.stay "20240110" "20240112")).
  reflexivity.
Defined.

(** ** Identifiers and addresses *)

Lemma dash_not_digit c : Regex.digit c = true -> Regex.char "-" c = false.
Proof.
  destruct c as [[] [] [] [] [] [] [] []]; vm_compute;
    first [reflexivity | discriminate].
Qed.

Lemma ssnRegex_blind : blind Regex.digit ssnRegex.
Proof.
  assert (Hdash : blind Regex.digit dash)
    by (intros c c' Hc Hc'; now rewrite !dash_not_digit).
  unfold ssnRegex, Regex.opt. cbn [blind].
  repeat split; auto using times_blind, a_digit_blind.
Qed.

Lemma ssnRegex_zeros n :
  Regex.matches ssnRegex (zeros n) = true <-> n = 9%nat.
Proof.
  destruct (le_lt_dec 19 n) as [Hn | Hn].
  - rewrite (long_zeros n ssnRegex); [| vm_compute; reflexivity | exact Hn].
    split; [discriminate | lia].
  - do 19 (destruct n as [| n];
           [vm_compute; split; first [discriminate | lia | reflexivity] |]).
    lia.
Qed.

(** X19: a social security number written with digits only passes
    [checkIdentifierFormats] exactly when it has nine digits (the two
    dashes of the pattern are optional); an empty [PID-19] is not
    checked. *)
Theorem identifier_of_digits_needs_nine
  (parsed : ParsedMessage.t) (pidSegment : Segment.t) (ssn : string) :
  find_segment "PID" (ParsedMessage.segments parsed) = Some pidSegment ->
  field_value pidSegment "field19" = Some ssn ->
  all_chars Regex.digit ssn = true ->
  checkIdentifierFormats parsed = OK (Acc.result Acc.empty)
  <-> (String.length ssn = 0 \/ String.length ssn = 9)%nat.
Proof.
  intros Hfind Hssn Hdigits.
  destruct (field_value_parsed _ _ _ Hssn) as (fields & Hfields & Hfield19).
  unfold checkIdentifierFormats. rewrite Hfind, Hfields.
  cbn [prop]. unfold mbind, Exc_bind. rewrite Hfield19. cbn [str].
  unfold Regex.test_anchored.
  rewrite (matches_blind _ _ _ ssnRegex_blind eq_refl Hdigits).
  pose proof (ssnRegex_zeros (String.length ssn)) as Hnine.
  destruct ssn as [| c ssn]; [cbn; split; [now left | reflexivity] |].
  cbn [truthy String.eqb negb].
  destruct (Regex.matches ssnRegex _); cbn [negb].
  - split; [intros _; right; now apply Hnine | reflexivity].
  - split; [intros Heq; cbv in Heq; discriminate Heq |].
    intros [Hzero | Hlength]; [discriminate Hzero |].
    apply Hnine in Hlength. discriminate Hlength.
Qed.

Lemma identifier_of_digits_needs_nine_witness :
  checkIdentifierFormats
    (set_field "PID" "field19" "123456789" Samples.patient)
  = OK (Acc.result Acc.empty).
Proof.
  apply (identifier_of_digits_needs_nine
           (set_field "PID" "field19" "123456789" Samples.patient)
           {| Segment.segmentType := "PID";
              Segment.parsed :=
                Some (<["field19" := "123456789"]> Samples.patientFields) |}
           "123456789").
  - reflexivity.
  - vm_compute. reflexivity.
  - vm_compute. reflexivity.
  - right. reflexivity.
Defined.



